(** * aicw-app-rails: offline data-conversion scripts

    A shallow embedding of the three scripts of the repository

    - [apps/web/supabase/scripts/ip-to-location/convert-ip-data.py]
      (module [ConvertIpData]),
    - [apps/cli/scripts/reset-add-toc.py] (module [ResetAddToc]),
    - [supabase/scripts/ip-to-bot/convert-ips.py] (module [ConvertIps]),

    together with the parts of CPython 3.11's [ipaddress] module that the
    scripts call (module [ipaddress], transcribed from [Lib/ipaddress.py]).

    Conventions.  A Python [int] is a [Z].  A Python [str] is a [string], one
    [ascii] per character; the embedding is exact on ASCII text (the only
    place where this matters is [str.upper], which here maps [a-z] only).
    [None] is [option]'s [None].  A Python exception is a constructor of
    [exn], and code that may raise returns a [result].  A [dict] used as a
    lookup table is a [gmap]; a JSON object, whose key order is written back
    to disk, is an association list.  A CSV file is the list of records that
    [csv.writer] wrote to it, each record the list of its fields as
    [csv.reader] reads them back; quoting and line terminators are not
    modelled. *)

From Stdlib Require Import ZArith List String Ascii Lia Bool Zwf.
From Stdlib Require Import Decimal Hexadecimal DecimalString HexadecimalString.
From Stdlib Require Import DecimalZ DecimalN DecimalPos HexadecimalN.
From Stdlib Require SpecFloat.
From stdpp Require Import base option list gmap strings.
From Equations Require Import Equations.

Local Open Scope Z_scope.

(** ** Python primitives *)

Module Py.

(** The exception classes that occur.  [AddressValueError] and
    [NetmaskValueError] are subclasses of [ValueError]. *)
Inductive exn : Type :=
| ValueError
| AddressValueError
| NetmaskValueError
| TypeError
| AttributeError
| IndexError
| StopIteration
| KeyError
| FileNotFoundError
| JSONDecodeError.

(** [isinstance(e, ValueError)] *)
Definition is_ValueError (e : exn) : bool :=
  match e with
  | ValueError | AddressValueError | NetmaskValueError | JSONDecodeError => true
  | _ => false
  end.

(** [isinstance(e, (AddressValueError, NetmaskValueError))] *)
Definition is_Address_or_Netmask_error (e : exn) : bool :=
  match e with
  | AddressValueError | NetmaskValueError => true
  | _ => false
  end.

Inductive result (A : Type) : Type :=
| Ok (a : A)
| Raise (e : exn).
Arguments Ok {A} a.
Arguments Raise {A} e.

Definition bind {A B} (r : result A) (k : A -> result B) : result B :=
  match r with
  | Ok a => k a
  | Raise e => Raise e
  end.

(** [try: r  except <classes>: handler] *)
Definition try_except {A} (r : result A) (catches : exn -> bool)
           (handler : exn -> result A) : result A :=
  match r with
  | Ok a => Ok a
  | Raise e => if catches e then handler e else Raise e
  end.

Definition is_ok {A} (r : result A) : bool :=
  match r with Ok _ => true | Raise _ => false end.

(** *** [int] *)

(** [n.bit_length()] *)
Definition bit_length (n : Z) : Z :=
  if Z.abs n =? 0 then 0 else Z.log2 (Z.abs n) + 1.

(** [str(n)] *)
Definition str_int (n : Z) : string :=
  DecimalString.NilZero.string_of_int (Z.to_int n).

(** ['%x' % n], for [n >= 0] *)
Definition hex_int (n : Z) : string :=
  HexadecimalString.NilZero.string_of_uint (N.to_hex_uint (Z.to_N n)).

(** *** [str] *)

Definition is_ascii_digit (c : ascii) : bool :=
  let n := N_of_ascii c in ((48 <=? n) && (n <=? 57))%N.

Definition is_hex_digit (c : ascii) : bool :=
  let n := N_of_ascii c in
  (((48 <=? n) && (n <=? 57)) || ((65 <=? n) && (n <=? 70))
   || ((97 <=? n) && (n <=? 102)))%N.

Fixpoint all_chars (p : ascii -> bool) (s : string) : bool :=
  match s with
  | EmptyString => true
  | String c s' => p c && all_chars p s'
  end.

(** [c in s], for a one-character [c] *)
Fixpoint contains_char (c : ascii) (s : string) : bool :=
  match s with
  | EmptyString => false
  | String d s' => Ascii.eqb d c || contains_char c s'
  end.

(** [s.isascii() and s.isdigit()]; [''.isdigit()] is [False]. *)
Definition isascii_isdigit (s : string) : bool :=
  negb (String.eqb s "") && all_chars is_ascii_digit s.

Definition digit_value (c : ascii) : Z :=
  let n := Z.of_N (N_of_ascii c) in
  if (48 <=? n) && (n <=? 57) then n - 48
  else if (65 <=? n) && (n <=? 70) then n - 55
  else if (97 <=? n) && (n <=? 102) then n - 87
  else 0.

(** Horner evaluation of a string of digits in the given base. *)
Fixpoint int_digits (base acc : Z) (s : string) : Z :=
  match s with
  | EmptyString => acc
  | String c s' => int_digits base (acc * base + digit_value c) s'
  end.

(** [s.split(sep)], for a one-character [sep]: one more part than there
    are separators, [''.split(sep) == ['']]. *)
Fixpoint split (sep : ascii) (s : string) : list string :=
  match s with
  | EmptyString => [EmptyString]
  | String c s' =>
      if Ascii.eqb c sep then EmptyString :: split sep s'
      else match split sep s' with
           | [] => [String c EmptyString]
           | p :: ps => String c p :: ps
           end
  end.

(** [sep.join(parts)] *)
Fixpoint join (sep : string) (parts : list string) : string :=
  match parts with
  | [] => ""
  | [p] => p
  | p :: ps => p +:+ sep +:+ join sep ps
  end.

(** [s.partition(sep)], for a one-character [sep]: the text before the
    first separator, whether a separator was found, the text after it. *)
Fixpoint partition (sep : ascii) (s : string) : string * bool * string :=
  match s with
  | EmptyString => (EmptyString, false, EmptyString)
  | String c s' =>
      if Ascii.eqb c sep then (EmptyString, true, s')
      else let '(a, found, b) := partition sep s' in (String c a, found, b)
  end.

(** [s[:n]] *)
Definition take_str (n : nat) (s : string) : string := String.substring 0 n s.

Definition upper_char (c : ascii) : ascii :=
  let n := N_of_ascii c in
  if ((97 <=? n) && (n <=? 122))%N then ascii_of_N (n - 32) else c.

Definition lower_char (c : ascii) : ascii :=
  let n := N_of_ascii c in
  if ((65 <=? n) && (n <=? 90))%N then ascii_of_N (n + 32) else c.

Fixpoint map_chars (f : ascii -> ascii) (s : string) : string :=
  match s with
  | EmptyString => EmptyString
  | String c s' => String (f c) (map_chars f s')
  end.

(** [s.upper()] and [s.lower()] *)
Definition upper (s : string) : string := map_chars upper_char s.
Definition lower (s : string) : string := map_chars lower_char s.

(** [s.replace(a, b)], for one-character [a] and [b] *)
Definition replace_char (a b : ascii) (s : string) : string :=
  map_chars (fun c => if Ascii.eqb c a then b else c) s.

(** [len(s)] *)
Definition len (s : string) : Z := Z.of_nat (String.length s).

(** [str(x)] for an [x] that is a [str] or [None] *)
Definition str_opt (x : option string) : string :=
  match x with
  | Some s => s
  | None => "None"
  end.

(** Truthiness of a [str] or [None] *)
Definition truthy (x : option string) : bool :=
  match x with
  | Some s => negb (String.eqb s "")
  | None => false
  end.

End Py.

Export Py.

(** [result] is a monad; stdpp's [x ← r; k] is used for sequencing. *)
#[export] Instance result_ret : MRet result := fun _ a => Ok a.
#[export] Instance result_bind : MBind result := fun _ _ k r => Py.bind r k.

(** *** Lists *)

(** [len(l)] *)
Definition len_list {A} (l : list A) : Z := Z.of_nat (length l).

(** [range(lo, hi)] *)
Definition range (lo hi : Z) : list Z := seqZ lo (hi - lo).

(** [l[i]], with Python's negative indices; [IndexError] out of range. *)
Definition getitem {A} (l : list A) (i : Z) : result A :=
  let j := if i <? 0 then i + len_list l else i in
  if j <? 0 then Raise IndexError
  else match l !! Z.to_nat j with
       | Some x => Ok x
       | None => Raise IndexError
       end.

(** [l[a:b] = [x]] (slice assignment) for [0 <= a <= b <= len(l)] *)
Definition set_slice {A} (l : list A) (a b : Z) (x : A) : list A :=
  take (Z.to_nat a) l ++ x :: drop (Z.to_nat b) l.

(** [n.to_bytes(length, 'big')], for [0 <= n < 256 ** length] *)
Fixpoint to_bytes_big (length : nat) (n : Z) : list Z :=
  match length with
  | O => []
  | S k => Z.land (Z.shiftr n (8 * Z.of_nat k)) 255 :: to_bytes_big k n
  end.

(** [int.from_bytes(bs, 'big')] *)
Definition from_bytes_big (bs : list Z) : Z :=
  foldl (fun acc b => Z.lor (Z.shiftl acc 8) b) 0 bs.

(** [s.zfill(width)]-style padding of ['%0<width>x'] *)
Definition zero_pad (width : nat) (s : string) : string :=
  String.concat "" (repeat "0" (width - String.length s)) +:+ s.

(** ** CPython 3.11 [ipaddress] (Lib/ipaddress.py) *)

Module ipaddress.

(** The two families of classes; [_version], [_max_prefixlen] and
    [_ALL_ONES] are class attributes of [_BaseV4] and [_BaseV6]. *)
Inductive family : Type := V4 | V6.

Definition IPV4LENGTH : Z := 32.
Definition IPV6LENGTH : Z := 128.

Definition _version (ip : family) : Z :=
  match ip with V4 => 4 | V6 => 6 end.

Definition _max_prefixlen (ip : family) : Z :=
  match ip with V4 => IPV4LENGTH | V6 => IPV6LENGTH end.

Definition _ALL_ONES (ip : family) : Z := 2 ^ _max_prefixlen ip - 1.

Definition _HEXTET_COUNT : Z := 8.

(** An [IPv4Address] or [IPv6Address] object. *)
Inductive addr : Type :=
| IPv4Address (ip_int : Z)
| IPv6Address (ip_int : Z) (scope_id : option string).

Definition class_of (a : addr) : family :=
  match a with IPv4Address _ => V4 | IPv6Address _ _ => V6 end.

Definition version (a : addr) : Z := _version (class_of a).

Definition _ip (a : addr) : Z :=
  match a with IPv4Address n => n | IPv6Address n _ => n end.

(** [getattr(a, '_scope_id', None)] *)
Definition _scope_id (a : addr) : option string :=
  match a with IPv4Address _ => None | IPv6Address _ s => s end.

(** An [IPv4Network] or [IPv6Network] object; its class is that of its
    [network_address], its netmask is computed from [prefixlen]. *)
Record network : Type := Network {
  network_address : addr;
  prefixlen : Z
}.

(** An argument of an address constructor: an [int] or a [str]. *)
Inductive addr_arg : Type :=
| AInt (n : Z)
| AStr (s : string).

(** An argument of a network constructor: an [int], a [str], or a tuple
    [(addr, mask)]. *)
Inductive net_arg : Type :=
| NInt (n : Z)
| NStr (s : string)
| NTuple (addr mask : addr_arg).

Definition _count_righthand_zero_bits (number bits : Z) : Z :=
  if number =? 0 then bits
  else Z.min bits (bit_length (Z.land (Z.lnot number) (number - 1))).

Definition _check_int_address (ip : family) (address : Z) : result unit :=
  if address <? 0 then Raise AddressValueError
  else if _ALL_ONES ip <? address then Raise AddressValueError
  else Ok tt.

Definition _ip_int_from_prefix (ip : family) (prefixlen : Z) : Z :=
  Z.lxor (_ALL_ONES ip) (Z.shiftr (_ALL_ONES ip) prefixlen).

Definition _prefix_from_ip_int (ip : family) (ip_int : Z) : result Z :=
  let trailing_zeroes := _count_righthand_zero_bits ip_int (_max_prefixlen ip) in
  let prefixlen := _max_prefixlen ip - trailing_zeroes in
  let leading_ones := Z.shiftr ip_int trailing_zeroes in
  let all_ones := Z.shiftl 1 prefixlen - 1 in
  if negb (leading_ones =? all_ones) then Raise ValueError
  else Ok prefixlen.

(** [sys.int_info.default_max_str_digits]: [int(s)] raises [ValueError] on
    a longer string. *)
Definition max_str_digits : Z := 4300.

Definition _prefix_from_prefix_string (ip : family) (prefixlen_str : string)
  : result Z :=
  if negb (isascii_isdigit prefixlen_str) then Raise NetmaskValueError
  else if max_str_digits <? len prefixlen_str then Raise NetmaskValueError
  else
    let prefixlen := int_digits 10 0 prefixlen_str in
    if negb ((0 <=? prefixlen) && (prefixlen <=? _max_prefixlen ip))
    then Raise NetmaskValueError
    else Ok prefixlen.

(** *** [_BaseV4] *)

Definition _parse_octet (octet_str : string) : result Z :=
  if String.eqb octet_str "" then Raise ValueError
  else if negb (isascii_isdigit octet_str) then Raise ValueError
  else if 3 <? len octet_str then Raise ValueError
  else if negb (String.eqb octet_str "0")
          && String.eqb (take_str 1 octet_str) "0" then Raise ValueError
  else
    let octet_int := int_digits 10 0 octet_str in
    if 255 <? octet_int then Raise ValueError
    else Ok octet_int.

Definition v4_ip_int_from_string (ip_str : string) : result Z :=
  if String.eqb ip_str "" then Raise AddressValueError
  else
    let octets := split "." ip_str in
    if negb (len_list octets =? 4) then Raise AddressValueError
    else
      try_except (bs ← mapM _parse_octet octets; Ok (from_bytes_big bs))
                 is_ValueError (fun _ => Raise AddressValueError).

Definition v4_string_from_ip_int (ip_int : Z) : string :=
  join "." (map str_int (to_bytes_big 4 ip_int)).

(** [IPv4Address(address)] *)
Definition IPv4Address__init__ (address : addr_arg) : result addr :=
  match address with
  | AInt n => _ ← _check_int_address V4 n; Ok (IPv4Address n)
  | AStr addr_str =>
      if contains_char "/" addr_str then Raise AddressValueError
      else n ← v4_ip_int_from_string addr_str; Ok (IPv4Address n)
  end.

Definition _prefix_from_ip_string (ip_str : string) : result Z :=
  ip_int ← try_except (v4_ip_int_from_string ip_str)
             (fun e => match e with AddressValueError => true | _ => false end)
             (fun _ => Raise NetmaskValueError);
  match _prefix_from_ip_int V4 ip_int with
  | Ok p => Ok p
  | Raise e =>
      if is_ValueError e then
        let ip_int := Z.lxor ip_int (_ALL_ONES V4) in
        try_except (_prefix_from_ip_int V4 ip_int) is_ValueError
                   (fun _ => Raise NetmaskValueError)
      else Raise e
  end.

(** *** [_BaseV6] *)

Definition _parse_hextet (hextet_str : string) : result Z :=
  if negb (all_chars is_hex_digit hextet_str) then Raise ValueError
  else if 4 <? len hextet_str then Raise ValueError
  else if String.eqb hextet_str "" then Raise ValueError
  else Ok (int_digits 16 0 hextet_str).

(** The search for ['::'] in [_ip_int_from_string]: the index of the one
    empty part strictly between the endpoints, if any. *)
Definition find_skip_index (parts : list string) : result (option Z) :=
  foldl (fun acc i =>
           skip_index ← acc;
           part ← getitem parts i;
           if String.eqb part "" then
             match skip_index with
             | Some _ => Raise AddressValueError
             | None => Ok (Some i)
             end
           else Ok skip_index)
        (Ok None) (range 1 (len_list parts - 1)).

(** [for i in indices: ip_int <<= 16; ip_int |= _parse_hextet(parts[i])] *)
Definition shift_in_hextets (parts : list string) (indices : list Z)
           (ip_int : Z) : result Z :=
  foldl (fun acc i =>
           ip_int ← acc;
           part ← getitem parts i;
           h ← _parse_hextet part;
           Ok (Z.lor (Z.shiftl ip_int 16) h))
        (Ok ip_int) indices.

Definition v6_ip_int_from_string (ip_str : string) : result Z :=
  if String.eqb ip_str "" then Raise AddressValueError
  else
    let parts := split ":" ip_str in
    let _min_parts := 3 in
    if len_list parts <? _min_parts then Raise AddressValueError
    else
      last_part ← getitem parts (-1);
      parts ← (if contains_char "." last_part then
                 a ← IPv4Address__init__ (AStr last_part);
                 let ipv4_int := _ip a in
                 Ok (removelast parts
                       ++ [hex_int (Z.land (Z.shiftr ipv4_int 16) 65535);
                           hex_int (Z.land ipv4_int 65535)])
               else Ok parts);
      let _max_parts := _HEXTET_COUNT + 1 in
      if _max_parts <? len_list parts then Raise AddressValueError
      else
        skip_index ← find_skip_index parts;
        first_part ← getitem parts 0;
        last_part ← getitem parts (-1);
        '(parts_hi, parts_lo, parts_skipped) ←
          match skip_index with
          | Some skip_index =>
              let parts_hi := skip_index in
              let parts_lo := len_list parts - skip_index - 1 in
              parts_hi ← (if String.eqb first_part "" then
                            let parts_hi := parts_hi - 1 in
                            if negb (parts_hi =? 0) then Raise AddressValueError
                            else Ok parts_hi
                          else Ok parts_hi);
              parts_lo ← (if String.eqb last_part "" then
                            let parts_lo := parts_lo - 1 in
                            if negb (parts_lo =? 0) then Raise AddressValueError
                            else Ok parts_lo
                          else Ok parts_lo);
              let parts_skipped := _HEXTET_COUNT - (parts_hi + parts_lo) in
              if parts_skipped <? 1 then Raise AddressValueError
              else Ok (parts_hi, parts_lo, parts_skipped)
          | None =>
              if negb (len_list parts =? _HEXTET_COUNT) then Raise AddressValueError
              else if String.eqb first_part "" then Raise AddressValueError
              else if String.eqb last_part "" then Raise AddressValueError
              else Ok (len_list parts, 0, 0)
          end;
        try_except
          (ip_int ← shift_in_hextets parts (range 0 parts_hi) 0;
           let ip_int := Z.shiftl ip_int (16 * parts_skipped) in
           shift_in_hextets parts (range (- parts_lo) 0) ip_int)
          is_ValueError (fun _ => Raise AddressValueError).

(** The scan of [_compress_hextets]: the start and length of the first
    longest run of ['0'] hextets ([-1] and [0] if there is none). *)
Definition best_doublecolon (hextets : list string) : Z * Z :=
  let '(best_doublecolon_start, best_doublecolon_len, _, _) :=
    foldl (fun '(best_start, best_len, start, len) '(index, hextet) =>
             if String.eqb hextet "0" then
               let len := len + 1 in
               let start := if start =? -1 then index else start in
               if best_len <? len then (start, len, start, len)
               else (best_start, best_len, start, len)
             else (best_start, best_len, -1, 0))
          (-1, 0, -1, 0)
          (zip (range 0 (len_list hextets)) hextets) in
  (best_doublecolon_start, best_doublecolon_len).

Definition _compress_hextets (hextets : list string) : list string :=
  let '(best_doublecolon_start, best_doublecolon_len) :=
    best_doublecolon hextets in
  if 1 <? best_doublecolon_len then
    let best_doublecolon_end := best_doublecolon_start + best_doublecolon_len in
    let hextets := if best_doublecolon_end =? len_list hextets
                   then hextets ++ [""] else hextets in
    let hextets := set_slice hextets best_doublecolon_start
                             best_doublecolon_end "" in
    if best_doublecolon_start =? 0 then "" :: hextets else hextets
  else hextets.

Definition v6_string_from_ip_int (ip_int : Z) : result string :=
  if _ALL_ONES V6 <? ip_int then Raise ValueError
  else
    let hex_str := zero_pad 32 (hex_int ip_int) in
    let hextets :=
      map (fun x => hex_int (int_digits 16 0 (String.substring (Z.to_nat x) 4 hex_str)))
          [0; 4; 8; 12; 16; 20; 24; 28] in
    let hextets := _compress_hextets hextets in
    Ok (join ":" hextets).

Definition _split_scope_id (ip_str : string) : result (string * option string) :=
  let '(addr, sep, scope_id) := partition "%" ip_str in
  if negb sep then Ok (addr, None)
  else if String.eqb scope_id "" || contains_char "%" scope_id
       then Raise AddressValueError
  else Ok (addr, Some scope_id).

(** [IPv6Address(address)] *)
Definition IPv6Address__init__ (address : addr_arg) : result addr :=
  match address with
  | AInt n => _ ← _check_int_address V6 n; Ok (IPv6Address n None)
  | AStr addr_str =>
      if contains_char "/" addr_str then Raise AddressValueError
      else
        '(addr_str, scope_id) ← _split_scope_id addr_str;
        n ← v6_ip_int_from_string addr_str;
        Ok (IPv6Address n scope_id)
  end.

(** *** Addresses of either family *)

Definition Address__init__ (ip : family) (address : addr_arg) : result addr :=
  match ip with
  | V4 => IPv4Address__init__ address
  | V6 => IPv6Address__init__ address
  end.

(** [_BaseAddress.__eq__], extended by [IPv6Address.__eq__] *)
Definition addr_eq (self other : addr) : bool :=
  let address_equal := (_ip self =? _ip other) && (version self =? version other) in
  match self with
  | IPv4Address _ => address_equal
  | IPv6Address _ scope_id =>
      if negb address_equal then false
      else bool_decide (scope_id = _scope_id other)
  end.

(** [_BaseAddress.__lt__] *)
Definition addr_lt (self other : addr) : result bool :=
  if negb (version self =? version other) then Raise TypeError
  else if negb (_ip self =? _ip other) then Ok (_ip self <? _ip other)
  else Ok false.

(** [__gt__] and [__le__], as [functools.total_ordering] derives them from
    [__lt__] and [__eq__]. *)
Definition addr_gt (self other : addr) : result bool :=
  op_result ← addr_lt self other;
  Ok (negb op_result && negb (addr_eq self other)).

Definition addr_le (self other : addr) : result bool :=
  op_result ← addr_lt self other;
  Ok (op_result || addr_eq self other).

(** [str(a)] *)
Definition addr_str (a : addr) : result string :=
  match a with
  | IPv4Address ip_int => Ok (v4_string_from_ip_int ip_int)
  | IPv6Address ip_int scope_id =>
      ip_str ← v6_string_from_ip_int ip_int;
      if truthy scope_id then Ok (ip_str +:+ "%" +:+ str_opt scope_id)
      else Ok ip_str
  end.

(** [ip_address(address)] *)
Definition ip_address (address : addr_arg) : result addr :=
  match IPv4Address__init__ address with
  | Ok a => Ok a
  | Raise e =>
      if is_Address_or_Netmask_error e then
        match IPv6Address__init__ address with
        | Ok a => Ok a
        | Raise e =>
            if is_Address_or_Netmask_error e then Raise ValueError
            else Raise e
        end
      else Raise e
  end.

(** *** Networks *)

Definition _split_optional_netmask (address : string) : result (list string) :=
  let addr := split "/" address in
  if 2 <? len_list addr then Raise AddressValueError
  else Ok addr.

Definition _split_addr_prefix (ip : family) (address : net_arg)
  : result (addr_arg * addr_arg) :=
  match address with
  | NInt n => Ok (AInt n, AInt (_max_prefixlen ip))
  | NTuple addr mask => Ok (addr, mask)
  | NStr s =>
      address ← _split_optional_netmask s;
      if 1 <? len_list address then
        addr ← getitem address 0;
        mask ← getitem address 1;
        Ok (AStr addr, AStr mask)
      else
        addr ← getitem address 0;
        Ok (AStr addr, AInt (_max_prefixlen ip))
  end.

(** [_make_netmask]: the pair [(netmask, prefixlen)], the netmask as an
    integer.  The class-level cache of the results is not modelled. *)
Definition _make_netmask (ip : family) (arg : addr_arg) : result (Z * Z) :=
  prefixlen ←
    match arg with
    | AInt prefixlen =>
        if negb ((0 <=? prefixlen) && (prefixlen <=? _max_prefixlen ip))
        then Raise NetmaskValueError
        else Ok prefixlen
    | AStr arg =>
        match ip with
        | V4 =>
            try_except (_prefix_from_prefix_string V4 arg)
              (fun e => match e with NetmaskValueError => true | _ => false end)
              (fun _ => _prefix_from_ip_string arg)
        | V6 => _prefix_from_prefix_string V6 arg
        end
    end;
  netmask ← Address__init__ ip (AInt (_ip_int_from_prefix ip prefixlen));
  Ok (_ip netmask, prefixlen).

(** [IPv4Network(address)] and [IPv6Network(address)], with [strict=True] *)
Definition Network__init__ (ip : family) (address : net_arg) : result network :=
  '(addr, mask) ← _split_addr_prefix ip address;
  network_address ← Address__init__ ip addr;
  '(netmask, prefixlen) ← _make_netmask ip mask;
  let packed := _ip network_address in
  if negb (Z.land packed netmask =? packed) then Raise ValueError
  else Ok (Network network_address prefixlen).

(** [net.netmask], as an integer *)
Definition netmask (self : network) : Z :=
  _ip_int_from_prefix (class_of (network_address self)) (prefixlen self).


(** [str(net)] *)
Definition network_str (self : network) : result string :=
  a ← addr_str (network_address self);
  Ok (a +:+ "/" +:+ str_int (prefixlen self)).

(** [ip_network(address)] *)
Definition ip_network (address : net_arg) : result network :=
  match Network__init__ V4 address with
  | Ok n => Ok n
  | Raise e =>
      if is_Address_or_Netmask_error e then
        match Network__init__ V6 address with
        | Ok n => Ok n
        | Raise e =>
            if is_Address_or_Netmask_error e then Raise ValueError
            else Raise e
        end
      else Raise e
  end.

(** *** [summarize_address_range] *)

(** The number of blocks is bounded by twice the address width, far below
    the 2^16 unfoldings this accessibility proof provides before it falls
    back on the proof by measure; closed calls evaluate without computing
    the measure in unary. *)
#[local] Instance Zwf_0_wf : WellFounded (Zwf 0) :=
  Acc_intro_generator 16 (Zwf_well_founded 0).

(** The [while first_int <= last_int] loop of [summarize_address_range],
    collecting the networks it yields. *)
Equations? summarize_loop (ip : family) (first_int last_int : Z)
  : result (list network) by wf (last_int - first_int + 1) (Zwf 0) :=
  summarize_loop ip first_int last_int with decide (first_int <= last_int) => {
    | right _ := Ok [];
    | left _ :=
        let ip_bits := _max_prefixlen ip in
        let nbits := Z.min (_count_righthand_zero_bits first_int ip_bits)
                           (bit_length (last_int - first_int + 1) - 1) in
        match Network__init__ ip (NTuple (AInt first_int) (AInt (ip_bits - nbits))) with
        | Raise e => Raise e
        | Ok net =>
            let first_int' := first_int + Z.shiftl 1 nbits in
            if first_int' - 1 =? _ALL_ONES ip then Ok [net]
            else match summarize_loop ip first_int' last_int with
                 | Raise e => Raise e
                 | Ok rest => Ok (net :: rest)
                 end
        end }.
Proof.
  assert (0 <= nbits) as Hn.
  { subst nbits. apply Z.min_glb.
    - unfold _count_righthand_zero_bits.
      assert (0 <= ip_bits) by (subst ip_bits; destruct ip; unfold _max_prefixlen, IPV4LENGTH, IPV6LENGTH; lia).
      destruct (first_int =? 0); [lia|]. apply Z.min_glb; [lia|].
      unfold bit_length. case (Z.eqb_spec _ 0); intros; [lia|].
      pose proof (Z.log2_nonneg (Z.abs (Z.land (Z.lnot first_int) (first_int - 1)))). lia.
    - unfold bit_length. case (Z.eqb_spec _ 0); intros; [lia|].
      pose proof (Z.log2_nonneg (Z.abs (last_int - first_int + 1))). lia. }
  subst first_int'. rewrite Z.shiftl_1_l.
  pose proof (Z.pow_pos_nonneg 2 nbits). unfold Zwf. lia.
Qed.

Definition summarize_address_range (first last : addr) : result (list network) :=
  if negb (version first =? version last) then Raise TypeError
  else
    gt ← addr_gt first last;
    if (gt : bool) then Raise ValueError
    else summarize_loop (class_of first) (_ip first) (_ip last).

End ipaddress.

(** ** [convert-ip-data.py] *)

Module ConvertIpData.
Import ipaddress.

(** [os.path.join(a, b)] (posixpath) *)
Definition path_join (a b : string) : string :=
  if String.prefix "/" b then b
  else if String.eqb a "" || String.eqb (String.substring (String.length a - 1) 1 a) "/"
       then a +:+ b
  else a +:+ "/" +:+ b.

(** The file system: the records held by each CSV file, by path. *)
Abbreviation filesystem := (gmap string (list (list string))).

(** A file object opened for writing, with the records written to it. *)
Record outfile_t : Type := Outfile {
  path : string;
  written : list (list string)
}.

(** [open(path, 'w')] creates or truncates the file. *)
Definition open_w (path : string) (fs : filesystem) : filesystem :=
  <[path := []]> fs.

(** [f.close()] leaves the written records in the file. *)
Definition close (f : outfile_t) (fs : filesystem) : filesystem :=
  <[path f := written f]> fs.

(** [open(path, 'r')] and reading all records with [csv.reader] *)
Definition read_csv (path : string) (fs : filesystem) : result (list (list string)) :=
  match fs !! path with
  | Some records => Ok records
  | None => Raise FileNotFoundError
  end.

(** [csv.writer.writerow]: the fields of the record written for a list of
    values; [None] is written as the empty string. *)
Definition csv_fields (row_data : list (option string)) : list string :=
  map (fun x => match x with Some s => s | None => "" end) row_data.

(** A row of the input, as [csv.DictReader] with
    [fieldnames = ['ip_start', 'ip_end', 'continent', 'country',
    'stateprov', 'city']] yields it: a missing field is [None]
    ([restval]), further fields go under the key [None] and are not read. *)
Record dbip_row : Type := DbipRow {
  ip_start : option string;
  ip_end : option string;
  continent : option string;
  country : option string;
  stateprov : option string;
  city : option string
}.

Definition DictReader_row (row : list string) : dbip_row :=
  {| ip_start := row !! 0%nat;
     ip_end := row !! 1%nat;
     continent := row !! 2%nat;
     country := row !! 3%nat;
     stateprov := row !! 4%nat;
     city := row !! 5%nat |}.

(** [csv.DictReader(infile, fieldnames=...)] over the records of the input
    file; records without fields (blank lines) are skipped. *)
Definition DictReader (records : list (list string)) : list dbip_row :=
  map DictReader_row (filter (fun r => r ≠ []) records).

Definition ip_range_to_cidrs (start_ip end_ip : option string)
  : result (list string) :=
  try_except
    (start ← ip_address (AStr (str_opt start_ip));
     end_ ← ip_address (AStr (str_opt end_ip));
     cidrs ← summarize_address_range start end_;
     mapM network_str cidrs)
    is_ValueError
    (fun _ => Ok []).

Definition header : list string :=
  ["network"; "continent_code"; "country_code"; "country_name";
   "region_name"; "city_name"].

(** The local variables of [process_csv] that the loop updates, the open
    output file and the file system. *)
Record state : Type := State {
  row_count : Z;
  output_count : Z;
  error_count : Z;
  file_count : Z;
  current_file_size : Z;
  csv_files : list string;
  outfile : outfile_t;
  fs : filesystem
}.

(** [x or None] *)
Definition or_None (x : option string) : option string :=
  if truthy x then x else None.

(** [sum(len(str(x)) if x else 0 for x in row_data) + 10] *)
Definition row_size (row_data : list (option string)) : Z :=
  foldr Z.add 0 (map (fun x => if truthy x then len (str_opt x) else 0) row_data) + 10.

Section process_csv.

(** The module-level table [COUNTRY_NAMES], and the arguments [output_dir]
    and [max_size_mb] of [process_csv]. *)
Variable COUNTRY_NAMES : gmap string string.
Variable output_dir : string.
Variable max_size_mb : Z.

Definition get_country_name (country_code : string) : string :=
  default country_code (COUNTRY_NAMES !! upper country_code).

Definition max_size_bytes : Z := max_size_mb * 1024 * 1024.

Definition get_csv_path (part_num : Z) : string :=
  path_join output_dir ("part" +:+ str_int part_num +:+ ".csv").

Definition single_csv_path : string := path_join output_dir "dbip-full.csv".

Definition open_new_file (part_num : Z) (st : state) : state :=
  let path := get_csv_path part_num in
  {| row_count := row_count st;
     output_count := output_count st;
     error_count := error_count st;
     file_count := file_count st;
     current_file_size := 0;
     csv_files := csv_files st ++ [path];
     outfile := Outfile path (if part_num =? 1 then [header] else []);
     fs := open_w path (fs st) |}.

(** The values of one output row:
    [[cidr, continent_code, country_code, country_name, region_name,
    city_name]]. *)
Definition make_row_data (cidr continent_code country_code country_name : string)
           (region_name city_name : option string) : list (option string) :=
  [Some cidr; Some continent_code; Some country_code; Some country_name;
   region_name; city_name].

(** One iteration of [for cidr in cidrs]: write the row, count it, add its
    estimated size, and start a new file once the size reaches the
    maximum. *)
Definition write_row (row_data : list (option string)) (st : state) : state :=
  let outfile' := Outfile (path (outfile st))
                          (written (outfile st) ++ [csv_fields row_data]) in
  let output_count' := output_count st + 1 in
  let current_file_size' := current_file_size st + row_size row_data in
  let st' := {| row_count := row_count st;
                output_count := output_count';
                error_count := error_count st;
                file_count := file_count st;
                current_file_size := current_file_size';
                csv_files := csv_files st;
                outfile := outfile';
                fs := fs st |} in
  if max_size_bytes <=? current_file_size' then
    let file_count' := file_count st + 1 in
    open_new_file file_count'
      {| row_count := row_count st';
         output_count := output_count st';
         error_count := error_count st';
         file_count := file_count';
         current_file_size := current_file_size st';
         csv_files := csv_files st';
         outfile := outfile st';
         fs := close (outfile st') (fs st') |}
  else st'.

(** The descriptive values of a row:
    [(continent_code, country_code, country_name, region_name, city_name)];
    [None.upper()] raises [AttributeError]. *)
Definition row_values (row : dbip_row)
  : result (string * string * string * option string * option string) :=
  let continent_code :=
    if truthy (continent row) then take_str 2 (str_opt (continent row)) else "" in
  country_code ← match country row with
                 | Some s => Ok (upper s)
                 | None => Raise AttributeError
                 end;
  let country_name :=
    if negb (String.eqb country_code "") then get_country_name country_code else "" in
  let region_name := or_None (stateprov row) in
  let city_name := or_None (city row) in
  Ok (continent_code, country_code, country_name, region_name, city_name).

(** The rows written for one input row and its CIDR blocks. *)
Definition rows_of (cidrs : list string)
           (v : string * string * string * option string * option string)
  : list (list (option string)) :=
  let '(continent_code, country_code, country_name, region_name, city_name) := v in
  map (fun cidr => make_row_data cidr continent_code country_code country_name
                                 region_name city_name) cidrs.

(** One iteration of [for row in reader]; the second component is the
    exception that leaves the loop, if any. *)
Definition process_row (row : dbip_row) (st : state) : state * option exn :=
  let st := {| row_count := row_count st + 1;
               output_count := output_count st;
               error_count := error_count st;
               file_count := file_count st;
               current_file_size := current_file_size st;
               csv_files := csv_files st;
               outfile := outfile st;
               fs := fs st |} in
  match ip_range_to_cidrs (ip_start row) (ip_end row) with
  | Raise e => (st, Some e)
  | Ok [] =>
      ({| row_count := row_count st;
          output_count := output_count st;
          error_count := error_count st + 1;
          file_count := file_count st;
          current_file_size := current_file_size st;
          csv_files := csv_files st;
          outfile := outfile st;
          fs := fs st |}, None)
  | Ok cidrs =>
      match row_values row with
      | Raise e => (st, Some e)
      | Ok v => (foldl (fun st row_data => write_row row_data st) st (rows_of cidrs v), None)
      end
  end.

Fixpoint process_rows (rows : list dbip_row) (st : state) : state * option exn :=
  match rows with
  | [] => (st, None)
  | row :: rows' =>
      match process_row row st with
      | (st', None) => process_rows rows' st'
      | (st', Some e) => (st', Some e)
      end
  end.

(** The merge into [dbip-full.csv]: the records written to the merged file
    and the exception raised while merging, if any. *)
Definition merge_parts (csv_files : list string) (fs : filesystem)
  : list (list string) * option exn :=
  match csv_files with
  | [] => ([], Some IndexError)
  | part1 :: others =>
      match read_csv part1 fs with
      | Raise e => ([], Some e)
      | Ok [] => ([], Some StopIteration)
      | Ok (header :: rest) =>
          foldl (fun '(merged, e) csv_file =>
                   match e with
                   | Some _ => (merged, e)
                   | None =>
                       match read_csv csv_file fs with
                       | Raise e => (merged, Some e)
                       | Ok records => (merged ++ records, None)
                       end
                   end)
                (header :: rest, None) others
      end
  end.

(** The returned dictionary [{'parts': csv_files, 'merged': single_csv_path}]. *)
Record summary : Type := Summary {
  parts : list string;
  merged : string
}.

(** [process_csv(input_path, output_dir, max_size_mb)], on the records
    [input] that [csv.reader] reads from [input_path] and the file system
    [fs0]: the final state and the returned dictionary or the exception
    raised. *)
Definition process_csv (input : list (list string)) (fs0 : filesystem)
  : state * result summary :=
  let st := open_new_file 1
              {| row_count := 0; output_count := 0; error_count := 0;
                 file_count := 1; current_file_size := 0;
                 csv_files := [];
                 outfile := Outfile "" [];
                 fs := fs0 |} in
  let '(st, e) := process_rows (DictReader input) st in
  let fs1 := close (outfile st) (fs st) in
  let st := {| row_count := row_count st;
               output_count := output_count st;
               error_count := error_count st;
               file_count := file_count st;
               current_file_size := current_file_size st;
               csv_files := csv_files st;
               outfile := outfile st;
               fs := fs1 |} in
  match e with
  | Some e => (st, Raise e)
  | None =>
      let fs2 := open_w single_csv_path fs1 in
      let '(records, e) := merge_parts (csv_files st) fs2 in
      let fs3 := close (Outfile single_csv_path records) fs2 in
      let st := {| row_count := row_count st;
                   output_count := output_count st;
                   error_count := error_count st;
                   file_count := file_count st;
                   current_file_size := current_file_size st;
                   csv_files := csv_files st;
                   outfile := outfile st;
                   fs := fs3 |} in
      match e with
      | Some e => (st, Raise e)
      | None => (st, Ok (Summary (csv_files st) single_csv_path))
      end
  end.

End process_csv.

End ConvertIpData.

(** ** JSON values, as [json.load] returns them *)

Module Json.

(** [None], [bool], [int], [float], [str], [list] and [dict]; a [dict]
    keeps its keys in insertion order. *)
#[warnings="-register-all"]
Inductive json : Type :=
| JNull
| JBool (b : bool)
| JInt (n : Z)
| JFloat (f : SpecFloat.spec_float)
| JStr (s : string)
| JList (l : list json)
| JDict (d : list (string * json)).

(** Truthiness of a value *)
Definition truthy_json (v : json) : bool :=
  match v with
  | JNull => false
  | JBool b => b
  | JInt n => negb (n =? 0)
  | JFloat f => match f with SpecFloat.S754_zero _ => false | _ => true end
  | JStr s => negb (String.eqb s "")
  | JList l => match l with [] => false | _ => true end
  | JDict d => match d with [] => false | _ => true end
  end.

(** [v == s] for a [str] [s]: only an equal [str] is equal to it. *)
Definition eq_str (v : json) (s : string) : bool :=
  match v with
  | JStr s' => String.eqb s' s
  | _ => false
  end.

(** [d.get(key)] on the items of a [dict] *)
Fixpoint dict_get (key : string) (d : list (string * json)) : option json :=
  match d with
  | [] => None
  | (k, v) :: d' => if String.eqb k key then Some v else dict_get key d'
  end.

(** [d[key] = value]: an existing key keeps its position, a new key is
    added at the end. *)
Fixpoint dict_set (key : string) (value : json) (d : list (string * json))
  : list (string * json) :=
  match d with
  | [] => [(key, value)]
  | (k, v) :: d' =>
      if String.eqb k key then (k, value) :: d'
      else (k, v) :: dict_set key value d'
  end.

(** [sub in s] for two [str] *)
Fixpoint is_substring (sub s : string) : bool :=
  String.prefix sub s
  || match s with
     | EmptyString => false
     | String _ s' => is_substring sub s'
     end.

(** The one-character strings of [s], as iterating over a [str] yields. *)
Fixpoint chars (s : string) : list string :=
  match s with
  | EmptyString => []
  | String c s' => String c EmptyString :: chars s'
  end.

(** [v.get(key, default)]: only a [dict] has [get]. *)
Definition get (v : json) (key : string) (default : json) : result json :=
  match v with
  | JDict d => Ok (match dict_get key d with Some x => x | None => default end)
  | _ => Raise AttributeError
  end.

(** [iter(v)]: the elements of a [list], the characters of a [str], the
    keys of a [dict]; the other values are not iterable. *)
Definition iterate (v : json) : result (list json) :=
  match v with
  | JList l => Ok l
  | JStr s => Ok (map JStr (chars s))
  | JDict d => Ok (map (fun kv => JStr (fst kv)) d)
  | _ => Raise TypeError
  end.

(** [s in v] for a [str] [s] *)
Definition contains (v : json) (s : string) : result bool :=
  match v with
  | JList l => Ok (existsb (fun a => eq_str a s) l)
  | JStr s' => Ok (is_substring s s')
  | JDict d => Ok (existsb (fun kv => String.eqb (fst kv) s) d)
  | _ => Raise TypeError
  end.

End Json.

(** ** [reset-add-toc.py] *)

Module ResetAddToc.
Import Json.

(** What an [index.json] file holds: a JSON document, or text that
    [json.load] rejects. *)
Inductive content : Type :=
| Document (data : json)
| Malformed.

Abbreviation filesystem := (gmap string content).

(** [json.load(f)] on the file at [index_file] *)
Definition load (index_file : string) (fs : filesystem) : result json :=
  match fs !! index_file with
  | Some (Document data) => Ok data
  | Some Malformed => Raise JSONDecodeError
  | None => Raise FileNotFoundError
  end.

(** The body of the loop up to the two assignments: [None] when the file
    is skipped by [continue], else the updated [data]. *)
Definition reset_data (data : json) : result (option json) :=
  applied ← get data "applied_actions" (JList []);
  found ← contains applied "add_toc";
  if negb found then Ok None
  else
    items ← iterate applied;
    let applied := filter (fun a => negb (eq_str a "add_toc")) items in
    match data with
    | JDict d =>
        let d := dict_set "applied_actions" (JList applied) d in
        let d := dict_set "last_pipeline" (JStr "generate") d in
        Ok (Some (JDict d))
    | _ => Raise TypeError
    end.

(** The variables of the script that the loop updates. *)
Record state : Type := State {
  updated : Z;
  fs : filesystem
}.

(** One iteration of [for index_file in data_root.rglob("index.json")] *)
Definition reset_file (dry_run : bool) (index_file : string) (st : state)
  : result state :=
  data ← load index_file (fs st);
  r ← reset_data data;
  match r with
  | None => Ok st
  | Some data' =>
      let fs' := if dry_run then fs st
                 else <[index_file := Document data']> (fs st) in
      Ok (State (updated st + 1) fs')
  end.

(** The loop over the files that [rglob] yields; the second component is
    the exception that ends the script, if any. *)
Fixpoint reset_files (dry_run : bool) (index_files : list string) (st : state)
  : state * option exn :=
  match index_files with
  | [] => (st, None)
  | index_file :: rest =>
      match reset_file dry_run index_file st with
      | Ok st' => reset_files dry_run rest st'
      | Raise e => (st, Some e)
      end
  end.

(** The script, on the paths [index_files] found under [data_root]. *)
Definition main (dry_run : bool) (index_files : list string) (fs0 : filesystem)
  : state * option exn :=
  reset_files dry_run index_files (State 0 fs0).

End ResetAddToc.

(** ** [convert-ips.py] *)

Module ConvertIps.
Import Json ipaddress.

(** [v[key]] for a [str] [key] *)
Definition subscript (v : json) (key : string) : result json :=
  match v with
  | JDict d => match dict_get key d with
               | Some x => Ok x
               | None => Raise KeyError
               end
  | _ => Raise TypeError
  end.

(** [key in entry] for a [dict] [entry] *)
Definition has_key (d : list (string * json)) (key : string) : bool :=
  match dict_get key d with Some _ => true | None => false end.

(** [parse_ip_ranges(data)] *)
Definition parse_ip_ranges (data : json) : result (list json) :=
  prefixes ← get data "prefixes" (JList []);
  entries ← iterate prefixes;
  Ok (foldl (fun ranges entry =>
               match entry with
               | JStr _ => ranges ++ [entry]
               | JDict d =>
                   let ranges :=
                     match dict_get "ipv4Prefix" d with
                     | Some v => ranges ++ [v]
                     | None => ranges
                     end in
                   match dict_get "ipv6Prefix" d with
                   | Some v => ranges ++ [v]
                   | None => ranges
                   end
               | _ => ranges
               end) [] entries).

(** The argument that [ipaddress.ip_network] sees for a JSON value: an
    [int] (a [bool] is an [int]), or the [str] of the value.  The [str] of a
    [float], a [list] or a [dict] is never an address or a network (no such
    text has four ['.']-separated or three [':']-separated parts of digits
    only), so these values have no argument here and are rejected. *)
Definition net_arg_of (v : json) : option net_arg :=
  match v with
  | JStr s => Some (NStr s)
  | JInt n => Some (NInt n)
  | JBool b => Some (NInt (if b then 1 else 0))
  | JNull => Some (NStr "None")
  | JFloat _ | JList _ | JDict _ => None
  end.

(** [validate_cidr(cidr)] *)
Definition validate_cidr (cidr : json) : result bool :=
  match net_arg_of cidr with
  | Some address =>
      try_except (_ ← ip_network address; Ok true)
                 is_ValueError (fun _ => Ok false)
  | None => Ok false
  end.

(** [[r for r in ranges if validate_cidr(r)]] *)
Fixpoint valid_ranges_of (ranges : list json) : result (list json) :=
  match ranges with
  | [] => Ok []
  | r :: ranges' =>
      ok ← validate_cidr r;
      rest ← valid_ranges_of ranges';
      Ok (if (ok : bool) then r :: rest else rest)
  end.

(** A row of [all_rows]: [{'network': ip_range, 'bot_name': bot_name}] *)
Record row : Type := Row {
  network : json;
  bot_name : string
}.

(** The loop that builds [bot_map] from the list [bots] of
    bot-sources.json *)
Definition add_bot (bot_map : result (gmap string string)) (bot : json)
  : result (gmap string string) :=
  bot_map ← bot_map;
  url ← get bot "ip_ranges_url" JNull;
  if truthy_json url then
    name ← subscript bot "name";
    match name with
    | JStr name =>
        let filename := lower (replace_char " " "-" name) +:+ ".json" in
        Ok (<[filename := name]> bot_map)
    | _ => Raise AttributeError
    end
  else Ok bot_map.

Definition make_bot_map (bots : json) : result (gmap string string) :=
  bots ← iterate bots;
  foldl add_bot (Ok ∅) bots.

(** One iteration of [for json_file in glob.glob(...)], on the base name
    of the file and the outcome of [load_json_file] on it. *)
Definition convert_file (bot_map : gmap string string)
           (all_rows : result (list row)) (file : string * result json)
  : result (list row) :=
  all_rows ← all_rows;
  let '(filename, loaded) := file in
  match bot_map !! filename with
  | None => Ok all_rows
  | Some bot_name =>
      if String.eqb bot_name "" then Ok all_rows
      else
        match loaded with
        | Raise _ => Ok all_rows
        | Ok data =>
            ranges ← parse_ip_ranges data;
            valid_ranges ← valid_ranges_of ranges;
            Ok (all_rows ++ map (fun ip_range => Row ip_range bot_name) valid_ranges)
        end
  end.

(** The text that [csv.DictWriter] writes for a value: [str(v)], and the
    empty string for [None].  Only a [str], an [int] or a [bool] passes
    [validate_cidr]; the other values are never written. *)
Definition csv_text (v : json) : string :=
  match v with
  | JStr s => s
  | JInt n => str_int n
  | JBool true => "True"
  | JBool false => "False"
  | _ => ""
  end.

(** [main()]: the rows collected from the files, and the records written
    to crawler-ips.csv. *)
Definition collect_rows (bots : json) (files : list (string * result json))
  : result (list row) :=
  bot_map ← make_bot_map bots;
  foldl (convert_file bot_map) (Ok []) files.

Definition main (bots : json) (files : list (string * result json))
  : result (list (list string)) :=
  all_rows ← collect_rows bots files;
  Ok (["network"; "bot_name"] :: map (fun r => [csv_text (network r); bot_name r]) all_rows).

End ConvertIps.

(** ** Vocabulary of the statements about [ipaddress] *)

Module IpSpec.
Import ipaddress.

(** The address object that the constructor of class [ip] builds from the
    integer [n]. *)
Definition addr_of_int (ip : family) (n : Z) : addr :=
  match ip with
  | V4 => IPv4Address n
  | V6 => IPv6Address n None
  end.

(** An address object whose integer fits its class. *)
Definition valid_addr (a : addr) : Prop :=
  0 <= _ip a <= _ALL_ONES (class_of a).

(** The number of addresses of a block of class [ip] with the given prefix
    length. *)
Definition block_size (ip : family) (prefixlen : Z) : Z :=
  2 ^ (_max_prefixlen ip - prefixlen).

(** [nets] are aligned blocks of class [ip] that follow one another from
    [lo] up to, and not including, [hi]. *)
Fixpoint tiles (ip : family) (nets : list network) (lo hi : Z) : Prop :=
  match nets with
  | [] => lo = hi
  | n :: nets' =>
      network_address n = addr_of_int ip lo
      /\ 0 <= prefixlen n <= _max_prefixlen ip
      /\ (block_size ip (prefixlen n) | lo)
      /\ tiles ip nets' (lo + block_size ip (prefixlen n)) hi
  end.

(** The number of trailing zero bits of a positive number. *)
Fixpoint trailing_zeros (p : positive) : Z :=
  match p with
  | xO q => 1 + trailing_zeros q
  | _ => 0
  end.

End IpSpec.

(** ** Vocabulary of the statements about [process_csv] *)

Module PipelineSpec.
Import ConvertIpData.

(** The size that [process_csv] estimates for a record, from the fields
    written. *)
Definition record_size (fields : list string) : Z :=
  foldr Z.add 0 (map len fields) + 10.

Definition total_size (records : list (list string)) : Z :=
  foldr Z.add 0 (map record_size records).

(** The records that precede the data in partition [part_num]. *)
Definition part_header (part_num : Z) : list (list string) :=
  if part_num =? 1 then [header] else [].

(** The data of a partition that was closed when its estimated size first
    reached [max]: the whole reaches [max], no shorter non-empty prefix
    does. *)
Definition closed_at_threshold (max : Z) (records : list (list string)) : Prop :=
  records <> []
  /\ max <= total_size records
  /\ forall k, (0 < k < length records)%nat -> total_size (take k records) < max.

(** The data of a partition whose estimated size never reached [max]. *)
Definition below_threshold (max : Z) (records : list (list string)) : Prop :=
  forall k, (0 < k <= length records)%nat -> total_size (take k records) < max.

Section written.

Variable COUNTRY_NAMES : gmap string string.
Variable output_dir : string.
Variable max_size_mb : Z.

(** The rows that one input row contributes to the output, and the
    exception with which it ends the loop, if any. *)
Definition record_rows (row : dbip_row) : list (list (option string)) * option exn :=
  match ip_range_to_cidrs (ip_start row) (ip_end row) with
  | Raise e => ([], Some e)
  | Ok [] => ([], None)
  | Ok cidrs =>
      match row_values COUNTRY_NAMES row with
      | Raise e => ([], Some e)
      | Ok v => (rows_of cidrs v, None)
      end
  end.

(** The rows that the input rows contribute, in order, up to the first
    input row that raises. *)
Fixpoint output_rows (rows : list dbip_row) : list (list (option string)) :=
  match rows with
  | [] => []
  | row :: rows' =>
      match record_rows row with
      | (rs, None) => rs ++ output_rows rows'
      | (rs, Some _) => rs
      end
  end.

(** The exception that ends the loop over the input rows, if any. *)
Fixpoint loop_exception (rows : list dbip_row) : option exn :=
  match rows with
  | [] => None
  | row :: rows' =>
      match record_rows row with
      | (_, None) => loop_exception rows'
      | (_, Some e) => Some e
      end
  end.

(** The number of input rows that yield no block, up to the first input
    row that raises. *)
Fixpoint discarded_rows (rows : list dbip_row) : Z :=
  match rows with
  | [] => 0
  | row :: rows' =>
      match ip_range_to_cidrs (ip_start row) (ip_end row), record_rows row with
      | Ok [], _ => 1 + discarded_rows rows'
      | _, (_, None) => discarded_rows rows'
      | _, (_, Some _) => 0
      end
  end.

(** A state of the loop of [process_csv] in which the partitions closed so
    far hold the data [closed], in order, each closed at the threshold,
    and the open partition has received the data [cur]. *)
Definition writing (closed : list (list (list string))) (cur : list (list string))
           (st : state) : Prop :=
  file_count st = Z.of_nat (length closed) + 1
  /\ csv_files st = map (get_csv_path output_dir) (seqZ 1 (file_count st))
  /\ outfile st = Outfile (get_csv_path output_dir (file_count st))
                          (part_header (file_count st) ++ cur)
  /\ current_file_size st = total_size cur
  /\ (forall (i : nat) P, closed !! i = Some P ->
        fs st !! get_csv_path output_dir (Z.of_nat i + 1)
        = Some (part_header (Z.of_nat i + 1) ++ P)
        /\ closed_at_threshold (max_size_bytes max_size_mb) P)
  /\ below_threshold (max_size_bytes max_size_mb) cur
  /\ Forall (fun r => r <> header) (concat closed ++ cur).

(** Two states of the loop that differ at most in files that are not
    among the partitions. *)
Definition same_outputs (st1 st2 : state) : Prop :=
  row_count st1 = row_count st2
  /\ output_count st1 = output_count st2
  /\ error_count st1 = error_count st2
  /\ file_count st1 = file_count st2
  /\ current_file_size st1 = current_file_size st2
  /\ csv_files st1 = csv_files st2
  /\ outfile st1 = outfile st2
  /\ forall p, p ∈ csv_files st1 -> fs st1 !! p = fs st2 !! p.

End written.

End PipelineSpec.

(** ** Vocabulary of the statements about [reset-add-toc.py] *)

Module ResetSpec.
Import Json ResetAddToc.


(** ["add_toc"] is among the entries. *)
Definition has_add_toc (l : list json) : bool :=
  existsb (fun a => eq_str a "add_toc") l.

(** The entries other than ["add_toc"], in order. *)
Definition without_add_toc (l : list json) : list json :=
  filter (fun a => negb (eq_str a "add_toc")) l.




End ResetSpec.

(** ** Vocabulary of the statements about [convert-ips.py] *)

Module ConvertIpsSpec.
Import Json ConvertIps.

(** The names of the bots of bot-sources.json that have an
    [ip_ranges_url]. *)
Definition configured_names (bots : list json) : list string :=
  omap (fun bot =>
          match bot with
          | JDict d =>
              match dict_get "ip_ranges_url" d, dict_get "name" d with
              | Some url, Some (JStr name) =>
                  if truthy_json url then Some name else None
              | _, _ => None
              end
          | _ => None
          end) bots.

End ConvertIpsSpec.

(** ** Vocabulary of the statements about whole runs of [reset-add-toc.py] *)

Module ResetRunSpec.
Import Json ResetAddToc.

(** A file that the loop body handles without an exception: it holds a
    JSON object whose [applied_actions], if present, is a value that
    [in] and iteration accept (a list, a string or an object). *)
Definition processable (c : option content) : bool :=
  match c with
  | Some (Document (JDict d)) =>
      match dict_get "applied_actions" d with
      | None | Some (JList _) | Some (JStr _) | Some (JDict _) => true
      | Some _ => false
      end
  | _ => false
  end.

(** A file for which ["add_toc" in applied] holds. *)
Definition mentions_add_toc (c : option content) : bool :=
  match c with
  | Some (Document (JDict d)) =>
      match dict_get "applied_actions" d with
      | Some applied =>
          match contains applied "add_toc" with
          | Ok found => found
          | Raise _ => false
          end
      | None => false
      end
  | _ => false
  end.

End ResetRunSpec.

(** ** Vocabulary of the statements about whole runs of [process_csv] *)

Module PipelineRunSpec.
Import ipaddress ConvertIpData.

(** An input row for which [ip_range_to_cidrs] returns no block: the
    loop counts it as an error and goes on. *)
Definition discarded (row : dbip_row) : bool :=
  match ip_range_to_cidrs (ip_start row) (ip_end row) with
  | Ok [] => true
  | _ => false
  end.



End PipelineRunSpec.

(** ** [convert-ip-data.py]: the country table *)

Module CountryNames.
Import ConvertIpData.

(** [c.isspace()] on ASCII: the characters from tab to carriage return,
    the four information separators, and the space. *)
Definition is_space (c : ascii) : bool :=
  let n := N_of_ascii c in
  (((9 <=? n) && (n <=? 13)) || ((28 <=? n) && (n <=? 32)))%N.

(** [s.lstrip()], [s.rstrip()] and [s.strip()] *)
Fixpoint lstrip (s : string) : string :=
  match s with
  | EmptyString => EmptyString
  | String c s' => if is_space c then lstrip s' else s
  end.

Fixpoint rstrip (s : string) : string :=
  match s with
  | EmptyString => EmptyString
  | String c s' =>
      match rstrip s' with
      | EmptyString => if is_space c then EmptyString else String c EmptyString
      | t => String c t
      end
  end.

Definition strip (s : string) : string := rstrip (lstrip s).

(** The dictionary that [csv.DictReader] yields for a record, under the
    field names read from the first record of the file:
    [dict(zip(fieldnames, row))], then [restval], which is [None], under
    every field name beyond the length of the record.  The further values
    of a longer record go under the key [None], which no [get] of the
    script reads. *)
Definition row_dict (fieldnames row : list string) : gmap string (option string) :=
  let d := foldl (fun d kv => <[fst kv := Some (snd kv)]> d) ∅ (zip fieldnames row) in
  foldl (fun d key => <[key := None]> d) d (drop (length row) fieldnames).

(** [row.get(key)] *)
Definition row_get (d : gmap string (option string)) (key : string) : option string :=
  default None (d !! key).

(** The body of the loop of [load_country_names] *)
Definition add_country (fieldnames : list string) (mapping : gmap string string)
           (row : list string) : gmap string string :=
  let d := row_dict fieldnames row in
  let code := row_get d "Code" in
  let name := row_get d "Name" in
  if truthy code && truthy name
  then <[upper (strip (str_opt code)) := strip (str_opt name)]> mapping
  else mapping.

(** [load_country_names(csv_path)], on the records that [csv.reader]
    reads from the file: the first record gives the field names, records
    without fields are skipped. *)
Definition load_country_names (records : list (list string)) : gmap string string :=
  match records with
  | [] => ∅
  | fieldnames :: rows =>
      foldl (add_country fieldnames) ∅ (filter (fun r => r ≠ []) rows)
  end.

End CountryNames.

(** ** Vocabulary of the statements about whole runs of [convert-ips.py] *)

Module ConvertIpsRunSpec.
Import Json ConvertIps.


(** The ranges that one entry of [prefixes] contributes. *)
Definition entry_ranges (entry : json) : list json :=
  match entry with
  | JStr _ => [entry]
  | JDict d => option_list (dict_get "ipv4Prefix" d) ++ option_list (dict_get "ipv6Prefix" d)
  | _ => []
  end.




End ConvertIpsRunSpec.

(** * Part II: properties of the scripts *)

Section BitOperations.
Import ipaddress IpSpec.

Lemma trailing_zeros_nonneg p : 0 <= trailing_zeros p.
Proof. induction p; simpl; lia. Qed.

Lemma bit_length_nonneg n : 0 <= bit_length n.
Proof.
  unfold bit_length. case (Z.eqb_spec _ 0); intros; [lia|].
  pose proof (Z.log2_nonneg (Z.abs n)). lia.
Qed.

Lemma bit_length_bounds n : 0 < n -> 2 ^ (bit_length n - 1) <= n < 2 ^ bit_length n.
Proof.
  intros Hn. unfold bit_length. rewrite Z.abs_eq by lia.
  case (Z.eqb_spec n 0); intros; [lia|].
  replace (Z.log2 n + 1 - 1) with (Z.log2 n) by lia.
  replace (Z.log2 n + 1) with (Z.succ (Z.log2 n)) by lia.
  apply Z.log2_spec. lia.
Qed.

Lemma bit_length_ones t : 0 <= t -> bit_length (Z.ones t) = t.
Proof.
  intros Ht. unfold bit_length. rewrite Z.ones_equiv.
  assert (0 < 2 ^ t) by (apply Z.pow_pos_nonneg; lia).
  rewrite Z.abs_eq by lia.
  case (Z.eqb_spec _ 0); intros He.
  - assert (2 ^ t = 1) by lia. destruct (Z.eq_dec t 0); [lia|].
    assert (2 ^ 1 <= 2 ^ t) by (apply Z.pow_le_mono_r; lia). lia.
  - destruct (Z.eq_dec t 0) as [->|]; [simpl in He; lia|].
    rewrite Z.log2_pred_pow2 by lia. lia.
Qed.

Lemma land_lnot_pred p : Z.land (Z.lnot (Zpos p)) (Zpos p - 1) = Z.ones (trailing_zeros p).
Proof.
  induction p.
  - (* xI: odd *) simpl trailing_zeros. change (Z.ones 0) with 0.
    apply Z.bits_inj'. intros n Hn. rewrite Z.land_spec, Z.lnot_spec, Z.bits_0 by lia.
    destruct (Z.eq_dec n 0) as [->|].
    + simpl. reflexivity.
    + replace (Z.pos p~1 - 1) with (2 * Z.pos p) by lia.
      replace (Z.pos p~1) with (2 * Z.pos p + 1) by lia.
      replace n with (Z.succ (n - 1)) by lia.
      rewrite Z.testbit_odd_succ, Z.testbit_even_succ by lia.
      destruct (Z.testbit (Z.pos p) (n - 1)); reflexivity.
  - (* xO *) simpl trailing_zeros.
    apply Z.bits_inj'. intros n Hn.
    rewrite Z.land_spec, Z.lnot_spec by lia.
    replace (Z.pos p~0 - 1) with (2 * (Z.pos p - 1) + 1) by lia.
    replace (Z.pos p~0) with (2 * Z.pos p) by lia.
    pose proof (trailing_zeros_nonneg p).
    destruct (Z.eq_dec n 0) as [->|].
    + rewrite Z.testbit_even_0, Z.testbit_odd_0. rewrite Z.ones_spec_low by lia. reflexivity.
    + replace n with (Z.succ (n - 1)) at 1 2 by lia.
      rewrite Z.testbit_odd_succ, Z.testbit_even_succ by lia.
      rewrite <- Z.lnot_spec, <- Z.land_spec by lia. rewrite IHp.
      destruct (Z_lt_dec (n - 1) (trailing_zeros p)).
      * rewrite !Z.ones_spec_low by lia. reflexivity.
      * rewrite !Z.ones_spec_high by lia. reflexivity.
  - reflexivity.
Qed.

Lemma trailing_zeros_divide p : (2 ^ trailing_zeros p | Zpos p).
Proof.
  induction p; simpl trailing_zeros.
  - apply Z.divide_1_l.
  - pose proof (trailing_zeros_nonneg p). rewrite Z.pow_add_r by lia.
    change (2 ^ 1) with 2. replace (Z.pos p~0) with (2 * Z.pos p) by lia.
    apply Z.mul_divide_mono_l. exact IHp.
  - apply Z.divide_1_l.
Qed.

Lemma count_righthand_zero_bits_pos p bits :
  _count_righthand_zero_bits (Zpos p) bits = Z.min bits (trailing_zeros p).
Proof.
  unfold _count_righthand_zero_bits. simpl (Z.pos p =? 0).
  rewrite land_lnot_pred, bit_length_ones by apply trailing_zeros_nonneg. reflexivity.
Qed.

Lemma count_righthand_zero_bits_range number bits :
  0 <= bits -> 0 <= number -> 0 <= _count_righthand_zero_bits number bits <= bits.
Proof.
  intros Hb Hn. destruct number as [|p|p]; [unfold _count_righthand_zero_bits; simpl; lia| |lia].
  rewrite count_righthand_zero_bits_pos. pose proof (trailing_zeros_nonneg p). lia.
Qed.

Lemma count_righthand_zero_bits_divide number bits :
  0 <= bits -> 0 <= number -> (2 ^ _count_righthand_zero_bits number bits | number).
Proof.
  intros Hb Hn. destruct number as [|p|p]; [apply Z.divide_0_r| |lia].
  rewrite count_righthand_zero_bits_pos.
  apply Z.divide_trans with (2 ^ trailing_zeros p); [|apply trailing_zeros_divide].
  pose proof (trailing_zeros_nonneg p).
  replace (trailing_zeros p) with (Z.min bits (trailing_zeros p) + (trailing_zeros p - Z.min bits (trailing_zeros p))) at 2 by lia.
  rewrite Z.pow_add_r by lia. apply Z.divide_factor_l.
Qed.

Lemma max_prefixlen_pos ip : 0 < _max_prefixlen ip.
Proof. destruct ip; reflexivity. Qed.

Lemma ALL_ONES_ones ip : _ALL_ONES ip = Z.ones (_max_prefixlen ip).
Proof. unfold _ALL_ONES. rewrite Z.ones_equiv. lia. Qed.

Lemma ip_int_from_prefix_shiftl ip p :
  0 <= p <= _max_prefixlen ip ->
  _ip_int_from_prefix ip p = Z.shiftl (Z.ones p) (_max_prefixlen ip - p).
Proof.
  intros Hp. unfold _ip_int_from_prefix. rewrite ALL_ONES_ones.
  set (b := _max_prefixlen ip) in *.
  apply Z.bits_inj'. intros n Hn.
  rewrite Z.lxor_spec, Z.shiftr_spec, Z.shiftl_spec by lia.
  destruct (Z_lt_dec n (b - p)).
  - rewrite (Z.testbit_neg_r _ (n - (b - p))) by lia.
    rewrite !Z.ones_spec_low by lia. reflexivity.
  - destruct (Z_lt_dec n b).
    + rewrite (Z.ones_spec_low b n) by lia.
      rewrite (Z.ones_spec_high b (n + p)) by lia.
      rewrite Z.ones_spec_low by lia. reflexivity.
    + rewrite (Z.ones_spec_high b n) by lia.
      rewrite (Z.ones_spec_high b (n + p)) by lia.
      rewrite Z.ones_spec_high by lia. reflexivity.
Qed.

Lemma ip_int_from_prefix_value ip p :
  0 <= p <= _max_prefixlen ip ->
  _ip_int_from_prefix ip p = 2 ^ _max_prefixlen ip - 2 ^ (_max_prefixlen ip - p).
Proof.
  intros Hp. rewrite ip_int_from_prefix_shiftl by lia.
  rewrite Z.shiftl_mul_pow2 by lia. rewrite Z.ones_equiv.
  replace (_max_prefixlen ip) with (p + (_max_prefixlen ip - p)) at 2 by lia.
  rewrite Z.pow_add_r by lia. lia.
Qed.

Lemma land_netmask ip p x :
  0 <= p <= _max_prefixlen ip -> 0 <= x <= _ALL_ONES ip ->
  Z.land x (_ip_int_from_prefix ip p) = x - x mod 2 ^ (_max_prefixlen ip - p).
Proof.
  intros Hp Hx. rewrite ip_int_from_prefix_shiftl by lia.
  set (b := _max_prefixlen ip) in *. set (k := b - p).
  assert (Hxb : x < 2 ^ b) by (unfold _ALL_ONES in Hx; fold b in Hx; lia).
  transitivity (Z.ldiff x (Z.ones k)).
  - apply Z.bits_inj'. intros n Hn.
    rewrite Z.land_spec, Z.ldiff_spec, Z.shiftl_spec by lia.
    destruct (Z_lt_dec n k).
    + rewrite (Z.testbit_neg_r _ (n - k)) by lia.
      rewrite Z.ones_spec_low by lia. reflexivity.
    + rewrite (Z.ones_spec_high k n) by lia.
      destruct (Z_lt_dec n b).
      * rewrite Z.ones_spec_low by lia. reflexivity.
      * rewrite Z.ones_spec_high by lia.
        assert (Z.testbit x n = false) as ->; [|reflexivity].
        destruct (Z.eq_dec x 0) as [->|]; [apply Z.bits_0|].
        apply Z.bits_above_log2; [lia|].
        apply Z.lt_le_trans with b; [|lia].
        apply Z.log2_lt_pow2; lia.
  - rewrite Z.ldiff_ones_r by lia.
    rewrite Z.shiftl_mul_pow2, Z.shiftr_div_pow2 by lia.
    assert (0 < 2 ^ k) by (apply Z.pow_pos_nonneg; lia).
    pose proof (Z.div_mod x (2 ^ k)). lia.
Qed.

Lemma land_netmask_eq ip p base x :
  0 <= p <= _max_prefixlen ip -> 0 <= x <= _ALL_ONES ip ->
  (2 ^ (_max_prefixlen ip - p) | base) ->
  Z.land x (_ip_int_from_prefix ip p) = base <->
  base <= x < base + 2 ^ (_max_prefixlen ip - p).
Proof.
  intros Hp Hx [q Hq]. rewrite land_netmask by assumption.
  set (k := _max_prefixlen ip - p) in *.
  assert (0 < 2 ^ k) by (apply Z.pow_pos_nonneg; lia).
  pose proof (Z.mod_pos_bound x (2 ^ k)).
  split.
  - intros He. lia.
  - intros Hr. assert (x mod 2 ^ k = x - base); [|lia].
    symmetry. apply Z.mod_unique_pos with q; lia.
Qed.

Lemma Address_init_int ip n :
  0 <= n <= _ALL_ONES ip -> Address__init__ ip (AInt n) = Ok (addr_of_int ip n).
Proof.
  intros Hn. destruct ip; simpl; unfold _check_int_address;
    (case (Z.ltb_spec n 0); intros; [lia|]);
    (case (Z.ltb_spec _ n); intros; [lia|]); reflexivity.
Qed.

Lemma ip_addr_of_int ip n : _ip (addr_of_int ip n) = n.
Proof. destruct ip; reflexivity. Qed.


Lemma block_size_pos ip p : p <= _max_prefixlen ip -> 0 < block_size ip p.
Proof. intros. apply Z.pow_pos_nonneg; lia. Qed.

(** The network constructor accepts an aligned block. *)
Lemma Network_init_tuple ip base p :
  0 <= base <= _ALL_ONES ip -> 0 <= p <= _max_prefixlen ip ->
  (block_size ip p | base) ->
  Network__init__ ip (NTuple (AInt base) (AInt p))
  = Ok (Network (addr_of_int ip base) p).
Proof.
  intros Hb Hp Hd. unfold Network__init__. simpl.
  rewrite Address_init_int by assumption. simpl.
  unfold _make_netmask.
  assert ((0 <=? p) && (p <=? _max_prefixlen ip) = true) as ->
    by (apply andb_true_iff; split; apply Z.leb_le; lia).
  simpl.
  assert (0 < block_size ip p) by (apply block_size_pos; lia).
  assert (0 < 2 ^ _max_prefixlen ip) by (apply Z.pow_pos_nonneg; pose proof (max_prefixlen_pos ip); lia).
  assert (block_size ip p <= 2 ^ _max_prefixlen ip).
  { unfold block_size. apply Z.pow_le_mono_r; lia. }
  rewrite Address_init_int
    by (rewrite ip_int_from_prefix_value by lia; unfold _ALL_ONES; fold (block_size ip p); lia).
  simpl. rewrite !ip_addr_of_int.
  assert (Z.land base (_ip_int_from_prefix ip p) = base) as ->.
  { apply land_netmask_eq; [lia|lia|exact Hd|]. fold (block_size ip p). lia. }
  rewrite Z.eqb_refl. reflexivity.
Qed.

Lemma summarize_loop_unfold ip first_int last_int :
  summarize_loop ip first_int last_int =
  if decide (first_int <= last_int) then
    let ip_bits := _max_prefixlen ip in
    let nbits := Z.min (_count_righthand_zero_bits first_int ip_bits)
                       (bit_length (last_int - first_int + 1) - 1) in
    match Network__init__ ip (NTuple (AInt first_int) (AInt (ip_bits - nbits))) with
    | Raise e => Raise e
    | Ok net =>
        let first_int' := first_int + Z.shiftl 1 nbits in
        if first_int' - 1 =? _ALL_ONES ip then Ok [net]
        else match summarize_loop ip first_int' last_int with
             | Raise e => Raise e
             | Ok rest => Ok (net :: rest)
             end
    end
  else Ok [].
Proof.
  rewrite summarize_loop_equation_1.
  destruct (decide (first_int <= last_int)); reflexivity.
Qed.

Lemma summarize_loop_tiles ip (n : nat) : forall first_int last_int,
  Z.to_nat (last_int - first_int) = n ->
  0 <= first_int -> first_int <= last_int -> last_int <= _ALL_ONES ip ->
  exists nets, summarize_loop ip first_int last_int = Ok nets
               /\ nets <> [] /\ tiles ip nets first_int (last_int + 1).
Proof.
  induction n as [n IH] using lt_wf_ind. intros first_int last_int Hm H0 Hle Hmax.
  rewrite summarize_loop_unfold. rewrite decide_True by assumption.
  cbv zeta.
  set (ip_bits := _max_prefixlen ip).
  set (nbits := Z.min _ _).
  pose proof (max_prefixlen_pos ip) as Hbits. fold ip_bits in Hbits.
  pose proof (count_righthand_zero_bits_range first_int ip_bits ltac:(lia) H0) as Hc.
  pose proof (count_righthand_zero_bits_divide first_int ip_bits ltac:(lia) H0) as Hdiv.
  pose proof (bit_length_bounds (last_int - first_int + 1) ltac:(lia)) as Hbl.
  pose proof (bit_length_nonneg (last_int - first_int + 1)) as Hbl0.
  assert (Hbl1 : 1 <= bit_length (last_int - first_int + 1)).
  { destruct (Z.eq_dec (bit_length (last_int - first_int + 1)) 0) as [E|]; [|lia].
    rewrite E in Hbl. simpl in Hbl. lia. }
  assert (Hn : 0 <= nbits <= ip_bits) by (subst nbits; lia).
  assert (Hsz : block_size ip (ip_bits - nbits) = 2 ^ nbits).
  { unfold block_size. fold ip_bits. f_equal. lia. }
  assert (Hpow : 0 < 2 ^ nbits) by (apply Z.pow_pos_nonneg; lia).
  assert (Hfit : 2 ^ nbits <= last_int - first_int + 1).
  { apply Z.le_trans with (2 ^ (bit_length (last_int - first_int + 1) - 1)); [|lia].
    apply Z.pow_le_mono_r; subst nbits; lia. }
  assert (Hal : (2 ^ nbits | first_int)).
  { apply Z.divide_trans with (2 ^ _count_righthand_zero_bits first_int ip_bits); [|exact Hdiv].
    replace (_count_righthand_zero_bits first_int ip_bits)
      with (nbits + (_count_righthand_zero_bits first_int ip_bits - nbits)) by lia.
    rewrite Z.pow_add_r by (subst nbits; lia). apply Z.divide_factor_l. }
  rewrite Network_init_tuple; [|lia|lia|rewrite Hsz; exact Hal].
  rewrite Z.shiftl_1_l.
  assert (Htile : forall rest, tiles ip rest (first_int + 2 ^ nbits) (last_int + 1) ->
                    tiles ip (Network (addr_of_int ip first_int) (ip_bits - nbits) :: rest)
                          first_int (last_int + 1)).
  { intros rest Hr. simpl. rewrite Hsz. fold ip_bits. repeat split; try lia; assumption. }
  case (Z.eqb_spec (first_int + 2 ^ nbits - 1) (_ALL_ONES ip)); intros Hall.
  - eexists; split; [reflexivity|]. split; [discriminate|].
    apply (Htile []). simpl. lia.
  - destruct (Z_le_dec (first_int + 2 ^ nbits) last_int) as [Hmore|Hdone].
    + destruct (IH (Z.to_nat (last_int - (first_int + 2 ^ nbits))) ltac:(lia)
                   (first_int + 2 ^ nbits) last_int eq_refl ltac:(lia) Hmore Hmax)
        as (rest & -> & _ & Hrest).
      eexists; split; [reflexivity|]. split; [discriminate|]. apply Htile, Hrest.
    + rewrite summarize_loop_unfold, decide_False by lia.
      eexists; split; [reflexivity|]. split; [discriminate|].
      apply (Htile []). simpl. lia.
Qed.

End BitOperations.

Section Tilings.
Import ipaddress IpSpec.

Lemma tiles_le ip nets : forall lo hi, tiles ip nets lo hi -> lo <= hi.
Proof.
  induction nets as [|n nets IH]; simpl; intros lo hi H; [lia|].
  destruct H as (_ & Hp & _ & Ht). apply IH in Ht.
  pose proof (block_size_pos ip (prefixlen n)). lia.
Qed.

(** Every block of a tiling lies inside the tiled interval, and is
    followed by a tiling of what remains. *)
Lemma tiles_lookup ip nets : forall lo hi i n,
  tiles ip nets lo hi -> nets !! i = Some n ->
  exists base,
    network_address n = addr_of_int ip base
    /\ 0 <= prefixlen n <= _max_prefixlen ip
    /\ (block_size ip (prefixlen n) | base)
    /\ lo <= base
    /\ tiles ip (drop (S i) nets) (base + block_size ip (prefixlen n)) hi.
Proof.
  induction nets as [|m nets IH]; intros lo hi i n H Hi; [discriminate|].
  destruct H as (Ha & Hp & Hd & Ht).
  destruct i as [|i]; simpl in Hi.
  - injection Hi as <-. exists lo. simpl. repeat split; try assumption; lia.
  - destruct (IH _ _ _ _ Ht Hi) as (base & ? & ? & ? & ? & ?).
    exists base. simpl. repeat split; try assumption; try lia.
    pose proof (block_size_pos ip (prefixlen m)). lia.
Qed.

Lemma tiles_lookup_bounds ip nets lo hi i n :
  tiles ip nets lo hi -> nets !! i = Some n ->
  exists base,
    network_address n = addr_of_int ip base
    /\ 0 <= prefixlen n <= _max_prefixlen ip
    /\ (block_size ip (prefixlen n) | base)
    /\ lo <= base /\ base + block_size ip (prefixlen n) <= hi.
Proof.
  intros H Hi. destruct (tiles_lookup _ _ _ _ _ _ H Hi) as (base & ? & ? & ? & ? & Ht).
  apply tiles_le in Ht. exists base. repeat split; solve [assumption | lia].
Qed.



Lemma version_class a b : version a = version b <-> class_of a = class_of b.
Proof.
  unfold version. destruct (class_of a), (class_of b); simpl; split; intros; congruence || lia.
Qed.


End Tilings.

Section ParsingIPv4.
Import ipaddress IpSpec.

(** *** The result monad *)

Lemma bind_Ok {A B} (r : result A) (k : A -> result B) (b : B) :
  (r ≫= k) = Ok b -> exists a, r = Ok a /\ k a = Ok b.
Proof. destruct r as [a|e]; [eauto|discriminate]. Qed.

Lemma mapM_Ok {A B} (f : A -> result B) (l : list A) (bs : list B) :
  mapM f l = Ok bs -> Forall2 (fun x y => f x = Ok y) l bs.
Proof.
  revert bs. induction l as [|x l IH]; intros bs H.
  - injection H as <-. constructor.
  - cbn in H. apply bind_Ok in H as (y & Hy & H).
    apply bind_Ok in H as (k & Hk & H). injection H as <-.
    constructor; auto.
Qed.

Lemma mapM_Ok_intro {A B} (f : A -> result B) (l : list A) (bs : list B) :
  Forall2 (fun x y => f x = Ok y) l bs -> mapM f l = Ok bs.
Proof.
  induction 1 as [|x y l bs Hxy _ IH]; [reflexivity|].
  cbn. rewrite Hxy. cbn. rewrite IH. reflexivity.
Qed.

Lemma try_except_Ok {A} (r : result A) c h (a : A) :
  r = Ok a -> try_except r c h = Ok a.
Proof. intros ->. reflexivity. Qed.

(** *** Digits *)

Lemma digit_value_bounds c : 0 <= digit_value c <= 15.
Proof.
  unfold digit_value.
  repeat match goal with
         | |- context [if ?b then _ else _] => destruct b eqn:?
         end; try lia;
  repeat match goal with
         | H : _ && _ = true |- _ => apply andb_true_iff in H as [? ?]
         end; lia.
Qed.

Lemma int_digits_nonneg base s : forall acc,
  0 <= base -> 0 <= acc -> 0 <= int_digits base acc s.
Proof.
  induction s as [|c s IH]; simpl; intros acc Hb Ha; [lia|].
  apply IH; [lia|]. pose proof (digit_value_bounds c). nia.
Qed.

Lemma int_digits_16_bound s : forall acc,
  0 <= acc -> int_digits 16 acc s < (acc + 1) * 16 ^ len s.
Proof.
  unfold len. induction s as [|c s IH]; intros acc Ha.
  - simpl. lia.
  - cbn [int_digits String.length]. rewrite Nat2Z.inj_succ, Z.pow_succ_r by lia.
    pose proof (digit_value_bounds c).
    specialize (IH (acc * 16 + digit_value c) ltac:(lia)).
    assert (0 < 16 ^ Z.of_nat (String.length s)) by (apply Z.pow_pos_nonneg; lia).
    nia.
Qed.

Lemma parse_octet_range s n : _parse_octet s = Ok n -> 0 <= n <= 255.
Proof.
  unfold _parse_octet. intros H.
  repeat match type of H with
         | (if ?b then _ else _) = _ => destruct b eqn:?; [discriminate|]
         end.
  cbv zeta in H.
  destruct (255 <? int_digits 10 0 s) eqn:E; [discriminate|].
  injection H as <-. apply Z.ltb_ge in E.
  split; [apply int_digits_nonneg; lia|exact E].
Qed.

Lemma parse_hextet_range s n : _parse_hextet s = Ok n -> 0 <= n < 65536.
Proof.
  unfold _parse_hextet. intros H.
  repeat match type of H with
         | (if ?b then _ else _) = _ => destruct b eqn:?; [discriminate|]
         end.
  injection H as <-.
  match goal with E : (4 <? len s) = false |- _ => apply Z.ltb_ge in E; rename E into Hl end.
  split; [apply int_digits_nonneg; lia|].
  pose proof (int_digits_16_bound s 0 ltac:(lia)) as Hb.
  assert (16 ^ len s <= 16 ^ 4) by (apply Z.pow_le_mono_r; unfold len in *; lia).
  change (16 ^ 4) with 65536 in *. lia.
Qed.

(** *** Shifting a digit in *)

Lemma lor_shiftl_bound acc b m k :
  0 <= m -> 0 <= k -> 0 <= acc < 2 ^ m -> 0 <= b < 2 ^ k ->
  0 <= Z.lor (Z.shiftl acc k) b < 2 ^ (m + k).
Proof.
  intros Hm Hk Ha Hb.
  assert (0 <= Z.shiftl acc k) by (apply Z.shiftl_nonneg; lia).
  split; [apply Z.lor_nonneg; lia|].
  pose proof (Z.add_lor_land (Z.shiftl acc k) b) as Hs.
  assert (0 <= Z.land (Z.shiftl acc k) b) by (apply Z.land_nonneg; lia).
  rewrite Z.shiftl_mul_pow2 in * by lia.
  rewrite Z.pow_add_r by lia.
  assert (0 < 2 ^ k) by (apply Z.pow_pos_nonneg; lia).
  nia.
Qed.

Lemma from_bytes_big_bound bs : 
  Forall (fun b => 0 <= b <= 255) bs ->
  0 <= from_bytes_big bs < 2 ^ (8 * len_list bs).
Proof.
  unfold from_bytes_big, len_list. intros H.
  assert (forall acc m, 0 <= m -> 0 <= acc < 2 ^ m ->
            0 <= foldl (fun acc b => Z.lor (Z.shiftl acc 8) b) acc bs
              < 2 ^ (m + 8 * Z.of_nat (length bs))) as G.
  { induction H as [|b bs Hb _ IH]; intros acc m Hm Ha.
    - simpl. rewrite Z.add_0_r. exact Ha.
    - cbn [foldl length]. rewrite Nat2Z.inj_succ.
      replace (m + 8 * Z.succ (Z.of_nat (length bs)))
        with ((m + 8) + 8 * Z.of_nat (length bs)) by lia.
      apply IH; [lia|]. apply lor_shiftl_bound; lia. }
  apply (G 0 0); simpl; lia.
Qed.

Lemma v4_ip_int_from_string_range s n :
  v4_ip_int_from_string s = Ok n -> 0 <= n <= _ALL_ONES V4.
Proof.
  unfold v4_ip_int_from_string. intros H.
  destruct (String.eqb s ""); [discriminate|].
  cbv zeta in H.
  destruct (len_list (split "." s) =? 4) eqn:El; [|discriminate]. simpl in H.
  apply Z.eqb_eq in El.
  destruct (mapM _parse_octet (split "." s)) as [bs|e] eqn:Em.
  - cbn in H. injection H as <-.
    apply mapM_Ok in Em.
    assert (len_list bs = 4) as Hl.
    { unfold len_list in *. rewrite <- (Forall2_length _ _ _ Em). exact El. }
    pose proof (from_bytes_big_bound bs) as Hb. rewrite Hl in Hb.
    unfold _ALL_ONES. change (_max_prefixlen V4) with 32. change (8 * 4) with 32 in Hb.
    assert (Forall (fun b => 0 <= b <= 255) bs) as Hf.
    { clear -Em. induction Em; constructor; eauto using parse_octet_range. }
    specialize (Hb Hf). lia.
  - cbn in H. destruct (is_ValueError e); discriminate.
Qed.

Lemma IPv4Address_init_str_valid s a :
  IPv4Address__init__ (AStr s) = Ok a -> class_of a = V4 /\ valid_addr a.
Proof.
  unfold IPv4Address__init__. destruct (contains_char "/" s); [discriminate|].
  intros H. apply bind_Ok in H as (n & Hn & H). injection H as <-.
  split; [reflexivity|]. apply v4_ip_int_from_string_range in Hn. exact Hn.
Qed.

End ParsingIPv4.

Section ParsingIPv6.
Import ipaddress IpSpec.

Lemma length_range lo hi : Z.of_nat (length (range lo hi)) = Z.max 0 (hi - lo).
Proof. unfold range. rewrite length_seqZ. lia. Qed.

Lemma shift_in_hextets_bound parts indices : forall ip_int m r,
  0 <= m -> 0 <= ip_int < 2 ^ m ->
  shift_in_hextets parts indices ip_int = Ok r ->
  0 <= r < 2 ^ (m + 16 * Z.of_nat (length indices)).
Proof.
  unfold shift_in_hextets.
  induction indices as [|i indices IH]; intros ip_int m r Hm Ha H.
  - simpl in H. injection H as <-. rewrite Z.add_0_r. exact Ha.
  - cbn [foldl] in H.
    destruct (getitem parts i) as [part|e] eqn:Eg.
    2:{ cbn in H. exfalso. clear -H. induction indices; [discriminate|]. simpl in H. auto. }
    destruct (_parse_hextet part) as [h|e] eqn:Eh.
    2:{ cbn in H. rewrite Eh in H. cbn in H.
        exfalso. clear -H. induction indices; [discriminate|]. simpl in H. auto. }
    cbn in H. rewrite Eh in H. cbn in H.
    apply parse_hextet_range in Eh.
    cbn [length]. rewrite Nat2Z.inj_succ.
    replace (m + 16 * Z.succ (Z.of_nat (length indices)))
      with ((m + 16) + 16 * Z.of_nat (length indices)) by lia.
    eapply IH; [| |exact H]; [lia|].
    apply lor_shiftl_bound; try lia.
Qed.

Lemma find_skip_index_step_elem parts l : forall acc i,
  foldl (fun acc i =>
           skip_index ← acc;
           part ← getitem parts i;
           if String.eqb part "" then
             match skip_index with
             | Some _ => Raise AddressValueError
             | None => Ok (Some i)
             end
           else Ok skip_index) acc l = Ok (Some i) ->
  acc = Ok (Some i) \/ i ∈ l.
Proof.
  induction l as [|x l IH]; intros acc i H; [left; exact H|].
  cbn [foldl] in H. apply IH in H as [H|H]; [|right; apply list_elem_of_further, H].
  destruct acc as [sk|e]; [|discriminate]. cbn in H.
  destruct (getitem parts x) as [part|e]; [|discriminate]. cbn in H.
  destruct (String.eqb part "").
  - destruct sk; [discriminate|]. injection H as <-. right. apply list_elem_of_here.
  - left. exact H.
Qed.

Lemma find_skip_index_range parts i :
  find_skip_index parts = Ok (Some i) -> 1 <= i < len_list parts - 1.
Proof.
  unfold find_skip_index. intros H.
  apply find_skip_index_step_elem in H as [H|H]; [discriminate|].
  unfold range in H. apply elem_of_seqZ in H. lia.
Qed.

Lemma v6_ip_int_from_string_range s n :
  v6_ip_int_from_string s = Ok n -> 0 <= n <= _ALL_ONES V6.
Proof.
  unfold v6_ip_int_from_string. intros H.
  destruct (String.eqb s ""); [discriminate|]. cbv zeta in H.
  destruct (len_list (split ":" s) <? 3); [discriminate|].
  apply bind_Ok in H as (last_part & _ & H).
  apply bind_Ok in H as (parts & _ & H).
  destruct (_HEXTET_COUNT + 1 <? len_list parts); [discriminate|].
  apply bind_Ok in H as (skip_index & Hskip & H).
  apply bind_Ok in H as (first_part & _ & H).
  apply bind_Ok in H as (last_part' & _ & H).
  apply bind_Ok in H as ([[parts_hi parts_lo] parts_skipped] & Hc & H).
  assert (0 <= parts_hi /\ 0 <= parts_lo /\ 0 <= parts_skipped
          /\ parts_hi + parts_skipped + parts_lo = 8) as (Hhi & Hlo & Hsk & Hsum).
  { destruct skip_index as [i|].
    - apply find_skip_index_range in Hskip.
      apply bind_Ok in Hc as (hi & Hh & Hc).
      apply bind_Ok in Hc as (lo & Hl & Hc).
      cbv zeta in Hc. unfold _HEXTET_COUNT in Hc.
      destruct (8 - (hi + lo) <? 1) eqn:E; [discriminate|]. apply Z.ltb_ge in E.
      injection Hc as <- <- <-.
      assert (0 <= hi).
      { destruct (String.eqb first_part ""); [|injection Hh as <-; lia].
        cbv zeta in Hh. destruct (i - 1 =? 0) eqn:E0; [|discriminate].
        injection Hh as <-. apply Z.eqb_eq in E0. lia. }
      assert (0 <= lo).
      { destruct (String.eqb last_part' ""); [|injection Hl as <-; lia].
        cbv zeta in Hl. destruct (len_list parts - i - 1 - 1 =? 0) eqn:E0; [|discriminate].
        injection Hl as <-. apply Z.eqb_eq in E0. lia. }
      lia.
    - unfold _HEXTET_COUNT in Hc.
      destruct (len_list parts =? 8) eqn:E; [|discriminate]. apply Z.eqb_eq in E.
      simpl in Hc.
      destruct (String.eqb first_part ""); [discriminate|].
      destruct (String.eqb last_part' ""); [discriminate|].
      injection Hc as <- <- <-. lia. }
  destruct (shift_in_hextets parts (range 0 parts_hi) 0) as [ip1|e] eqn:E1.
  2:{ cbn in H. destruct (is_ValueError e); discriminate. }
  cbn in H.
  destruct (shift_in_hextets parts (range (- parts_lo) 0) _) as [ip3|e] eqn:E3.
  2:{ cbn in H. destruct (is_ValueError e); discriminate. }
  cbn in H. injection H as <-.
  apply (shift_in_hextets_bound _ _ _ 0) in E1; [|lia|simpl; lia].
  pose proof (length_range 0 parts_hi) as L1. rewrite L1 in E1.
  replace (0 + 16 * Z.max 0 (parts_hi - 0)) with (16 * parts_hi) in E1 by lia.
  apply (shift_in_hextets_bound _ _ _ (16 * parts_hi + 16 * parts_skipped)) in E3; [|lia|].
  - pose proof (length_range (- parts_lo) 0) as L3. rewrite L3 in E3.
    replace (16 * parts_hi + 16 * parts_skipped + 16 * Z.max 0 (0 - - parts_lo))
      with 128 in E3 by lia.
    unfold _ALL_ONES. change (_max_prefixlen V6) with 128. lia.
  - rewrite Z.shiftl_mul_pow2 by lia. rewrite Z.pow_add_r by lia.
    assert (0 < 2 ^ (16 * parts_skipped)) by (apply Z.pow_pos_nonneg; lia).
    nia.
Qed.

Lemma IPv6Address_init_str_valid s a :
  IPv6Address__init__ (AStr s) = Ok a -> class_of a = V6 /\ valid_addr a.
Proof.
  unfold IPv6Address__init__. destruct (contains_char "/" s); [discriminate|].
  intros H. apply bind_Ok in H as ([addr_str scope_id] & _ & H).
  apply bind_Ok in H as (n & Hn & H). injection H as <-.
  split; [reflexivity|]. apply v6_ip_int_from_string_range in Hn. exact Hn.
Qed.

(** An address that [ip_address] returns for a string fits its class. *)
Lemma ip_address_valid s a : ip_address (AStr s) = Ok a -> valid_addr a.
Proof.
  unfold ip_address. intros H.
  destruct (IPv4Address__init__ (AStr s)) as [a4|e4] eqn:E4.
  - injection H as <-. apply IPv4Address_init_str_valid in E4. tauto.
  - destruct (is_Address_or_Netmask_error e4); [|discriminate].
    destruct (IPv6Address__init__ (AStr s)) as [a6|e6] eqn:E6.
    + injection H as <-. apply IPv6Address_init_str_valid in E6. tauto.
    + destruct (is_Address_or_Netmask_error e6); discriminate.
Qed.

End ParsingIPv6.

Section SummarizeAddressRange.
Import ipaddress IpSpec ConvertIpData.

Lemma network_eta (n : network) a :
  network_address n = a -> n = Network a (prefixlen n).
Proof. destruct n; simpl; intros ->; reflexivity. Qed.

Lemma network_str_block ip base p :
  0 <= base <= _ALL_ONES ip ->
  exists s, network_str (Network (addr_of_int ip base) p) = Ok s.
Proof.
  intros Hb. unfold network_str. destruct ip; simpl.
  - eexists; reflexivity.
  - unfold v6_string_from_ip_int.
    case (Z.ltb_spec (_ALL_ONES V6) base); intros; [lia|]. cbn. eexists; reflexivity.
Qed.

Lemma tiles_network_str ip nets : forall lo hi,
  0 <= lo -> hi <= _ALL_ONES ip + 1 -> tiles ip nets lo hi ->
  exists cidrs, mapM network_str nets = Ok cidrs
                /\ Forall2 (fun n s => network_str n = Ok s) nets cidrs.
Proof.
  induction nets as [|n nets IH]; intros lo hi Hlo Hhi H.
  - exists []. split; [reflexivity|constructor].
  - pose proof (tiles_le _ _ _ _ H) as Hle.
    destruct H as (Ha & Hp & Hd & Ht).
    pose proof (block_size_pos ip (prefixlen n) ltac:(lia)) as Hs.
    pose proof (tiles_le _ _ _ _ Ht) as Hle'.
    destruct (IH (lo + block_size ip (prefixlen n)) hi ltac:(lia) Hhi Ht) as (cidrs & Hm & Hf).
    destruct (network_str_block ip lo (prefixlen n) ltac:(lia)) as (s & Hstr).
    rewrite <- (network_eta n _ Ha) in Hstr.
    exists (s :: cidrs). split; [|constructor; assumption].
    cbn. rewrite Hstr. cbn. rewrite Hm. reflexivity.
Qed.

Lemma addr_le_spec a b :
  addr_le a b = Ok true -> version a = version b /\ _ip a <= _ip b /\ addr_gt a b = Ok false.
Proof.
  unfold addr_le, addr_gt, addr_lt.
  case (Z.eqb_spec (version a) (version b)); intros Hv; [|discriminate]. simpl.
  case (Z.eqb_spec (_ip a) (_ip b)); intros Hi; simpl.
  - intros H. injection H as H. rewrite H. split; [assumption|]. split; [lia|reflexivity].
  - case (Z.ltb_spec (_ip a) (_ip b)); intros Hl; simpl.
    + intros _. split; [assumption|]. split; [lia|reflexivity].
    + intros H. injection H as H.
      exfalso. unfold addr_eq in H.
      assert ((_ip a =? _ip b) = false) as E by (apply Z.eqb_neq; assumption).
      rewrite E in H. simpl in H. destruct a; discriminate.
Qed.

(** [summarize_address_range] on two valid addresses in order: the blocks
    tile the closed interval between them. *)
Lemma summarize_address_range_tiles a b :
  valid_addr a -> valid_addr b -> addr_le a b = Ok true ->
  exists nets, summarize_address_range a b = Ok nets
               /\ nets <> [] /\ tiles (class_of a) nets (_ip a) (_ip b + 1).
Proof.
  intros Va Vb Hle. apply addr_le_spec in Hle as (Hv & Hi & Hgt).
  unfold summarize_address_range. rewrite Hv, Z.eqb_refl. simpl.
  rewrite Hgt. cbn.
  apply (summarize_loop_tiles _ _ _ _ eq_refl); [apply Va|exact Hi|].
  apply version_class in Hv. rewrite Hv. apply Vb.
Qed.

End SummarizeAddressRange.

Section IpRangeToCidrs.
Import ipaddress IpSpec ConvertIpData.

Lemma ip_range_to_cidrs_Ok start_ip end_ip a b nets cidrs :
  ip_address (AStr (str_opt start_ip)) = Ok a ->
  ip_address (AStr (str_opt end_ip)) = Ok b ->
  summarize_address_range a b = Ok nets ->
  mapM network_str nets = Ok cidrs ->
  ip_range_to_cidrs start_ip end_ip = Ok cidrs.
Proof.
  intros Ha Hb Hs Hm. unfold ip_range_to_cidrs.
  rewrite Ha. cbn. rewrite Hb. cbn. rewrite Hs. cbn. rewrite Hm. reflexivity.
Qed.



End IpRangeToCidrs.

Section StringsAndPaths.
Import ipaddress ConvertIpData.

Lemma append_nil (b : string) : "" +:+ b = b.
Proof. reflexivity. Qed.

Lemma append_cons c (a b : string) : String c a +:+ b = String c (a +:+ b).
Proof. reflexivity. Qed.

Lemma append_length (a b : string) :
  String.length (a +:+ b) = (String.length a + String.length b)%nat.
Proof.
  induction a as [|c a IH]; [reflexivity|].
  rewrite append_cons. simpl. rewrite IH. reflexivity.
Qed.

Lemma append_inj_r (s a b : string) : a +:+ s = b +:+ s -> a = b.
Proof.
  revert b. induction a as [|c a IH]; intros [|d b] H.
  - reflexivity.
  - apply (f_equal String.length) in H. rewrite !append_length in H. simpl in H. lia.
  - apply (f_equal String.length) in H. rewrite !append_length in H. simpl in H. lia.
  - rewrite !append_cons in H. injection H as -> H. f_equal. apply IH, H.
Qed.

Lemma append_assoc (a b c : string) : (a +:+ b) +:+ c = a +:+ b +:+ c.
Proof.
  induction a as [|d a IH]; [reflexivity|].
  rewrite !append_cons. f_equal. exact IH.
Qed.

Lemma contains_char_append c (a b : string) :
  contains_char c (a +:+ b) = contains_char c a || contains_char c b.
Proof.
  induction a as [|d a IH]; [reflexivity|].
  rewrite append_cons. simpl. rewrite IH. apply orb_assoc.
Qed.

(** [str] of an integer determines the integer. *)
Lemma str_int_inj n m : str_int n = str_int m -> n = m.
Proof.
  unfold str_int. intros H.
  assert (forall z, DecimalString.NilZero.int_of_string
                      (DecimalString.NilZero.string_of_int (Z.to_int z))
                    = Some (Z.to_int z)) as R.
  { intros z. apply DecimalString.NilZero.isi; destruct z; simpl; try discriminate;
      intros E; injection E; apply DecimalPos.Unsigned.to_uint_nonnil. }
  pose proof (R n) as Rn. rewrite H, R in Rn. injection Rn as Rn.
  rewrite <- (DecimalZ.of_to n), <- (DecimalZ.of_to m). congruence.
Qed.

Lemma path_join_relative a b :
  String.prefix "/" b = false ->
  exists dir, forall b', String.prefix "/" b' = false -> path_join a b' = dir +:+ b'.
Proof.
  intros _. unfold path_join.
  destruct (String.eqb a "" || String.eqb (String.substring (String.length a - 1) 1 a) "/").
  - exists a. intros b' ->. reflexivity.
  - exists (a +:+ "/"). intros b' ->. symmetry. apply append_assoc.
Qed.

Lemma path_join_inj a b c :
  String.prefix "/" b = false -> String.prefix "/" c = false ->
  path_join a b = path_join a c -> b = c.
Proof.
  intros Hb Hc. destruct (path_join_relative a b Hb) as (dir & Hd).
  rewrite (Hd b Hb), (Hd c Hc). apply String.app_inj.
Qed.

(** Distinct part numbers name distinct files. *)
Lemma get_csv_path_inj output_dir n m :
  get_csv_path output_dir n = get_csv_path output_dir m -> n = m.
Proof.
  unfold get_csv_path. intros H.
  apply path_join_inj in H; [|reflexivity|reflexivity].
  apply String.app_inj in H.
  apply append_inj_r in H. apply str_int_inj, H.
Qed.

(** The merged file is none of the parts. *)
Lemma single_csv_path_not_part output_dir n :
  single_csv_path output_dir <> get_csv_path output_dir n.
Proof.
  unfold single_csv_path, get_csv_path. intros H.
  apply path_join_inj in H; [|reflexivity|reflexivity]. discriminate.
Qed.

Lemma get_csv_path_ne output_dir n m :
  n <> m -> get_csv_path output_dir n <> get_csv_path output_dir m.
Proof. intros Hn H. apply Hn. eapply get_csv_path_inj, H. Qed.

End StringsAndPaths.

Section PartitionWriter.
Import ipaddress ConvertIpData PipelineSpec.

Variable COUNTRY_NAMES : gmap string string.
Variable output_dir : string.
Variable max_size_mb : Z.

Local Abbreviation max := (max_size_bytes max_size_mb).
Local Abbreviation part := (get_csv_path output_dir).

Lemma row_size_record_size rd : row_size rd = record_size (csv_fields rd).
Proof.
  unfold row_size, record_size, csv_fields. f_equal.
  induction rd as [|x rd IH]; [reflexivity|]. cbn [map foldr]. rewrite IH. f_equal.
  destruct x as [s|]; simpl; [|reflexivity].
  destruct s; reflexivity.
Qed.

Lemma total_size_app a b : total_size (a ++ b) = total_size a + total_size b.
Proof.
  unfold total_size. induction a as [|r a IH]; [simpl; lia|].
  cbn [app map foldr]. rewrite IH. lia.
Qed.

Lemma total_size_single r : total_size [r] = record_size r.
Proof. unfold total_size. simpl. lia. Qed.

Lemma below_threshold_nil : below_threshold max [].
Proof. intros k Hk. simpl in Hk. lia. Qed.

Lemma below_threshold_snoc cur r :
  below_threshold max cur -> total_size (cur ++ [r]) < max ->
  below_threshold max (cur ++ [r]).
Proof.
  intros Hb Hs k Hk. rewrite length_app in Hk. simpl in Hk.
  destruct (decide (k <= length cur)%nat) as [Hle|Hgt].
  - rewrite take_app_le by lia. apply Hb. lia.
  - rewrite take_ge by (rewrite length_app; simpl; lia). exact Hs.
Qed.

Lemma closed_at_threshold_snoc cur r :
  below_threshold max cur -> max <= total_size (cur ++ [r]) ->
  closed_at_threshold max (cur ++ [r]).
Proof.
  intros Hb Hs. split; [|split; [exact Hs|]].
  - intros E. apply (f_equal length) in E. rewrite length_app in E. simpl in E. lia.
  - intros k Hk. rewrite length_app in Hk. simpl in Hk.
    rewrite take_app_le by lia. apply Hb. lia.
Qed.

Lemma seqZ_snoc n : 0 <= n -> seqZ 1 (n + 1) = seqZ 1 n ++ [n + 1].
Proof.
  intros Hn. rewrite seqZ_app by lia. f_equal.
  replace (1 + n) with (n + 1) by lia. reflexivity.
Qed.

(** The first file is opened in a state that [writing] describes. *)
Lemma open_first_file st0 :
  file_count st0 = 1 -> csv_files st0 = [] ->
  writing output_dir max_size_mb [] [] (open_new_file output_dir 1 st0).
Proof.
  intros Hfc Hfiles. unfold writing, open_new_file. simpl.
  rewrite Hfc, Hfiles. split_and!; try reflexivity.
  - intros i P Hi. discriminate.
  - apply below_threshold_nil.
  - constructor.
Qed.

(** One written row: the open partition receives it, and is closed, with
    a new one opened, exactly when its estimated size reaches the
    maximum. *)
Lemma write_row_writing closed cur st rd :
  writing output_dir max_size_mb closed cur st ->
  csv_fields rd <> header ->
  let st' := write_row output_dir max_size_mb rd st in
  let cur' := cur ++ [csv_fields rd] in
  row_count st' = row_count st
  /\ error_count st' = error_count st
  /\ output_count st' = output_count st + 1
  /\ if decide (max <= total_size cur')
     then writing output_dir max_size_mb (closed ++ [cur']) [] st'
     else writing output_dir max_size_mb closed cur' st'.
Proof.
  intros (Hfc & Hfiles & Hout & Hsize & Hclosed & Hbelow & Hdata) Hrd.
  cbv zeta. unfold write_row. cbn [current_file_size file_count csv_files outfile
    fs row_count output_count error_count].
  rewrite Hout. cbn [path written]. rewrite Hsize, row_size_record_size.
  assert (total_size (cur ++ [csv_fields rd]) = total_size cur + record_size (csv_fields rd)) as Htot
    by (rewrite total_size_app, total_size_single; reflexivity).
  rewrite <- Htot.
  assert (Forall (fun r => r <> header) (concat closed ++ cur ++ [csv_fields rd])) as Hdata'.
  { rewrite app_assoc. apply Forall_app. split; [exact Hdata|]. constructor; [exact Hrd|constructor]. }
  destruct (decide (max <= total_size (cur ++ [csv_fields rd]))) as [Hfull|Hroom].
  - rewrite (proj2 (Z.leb_le _ _) Hfull).
    unfold writing, open_new_file. cbn [current_file_size file_count csv_files outfile
      fs row_count output_count error_count path written].
    split_and!; try reflexivity.
    + rewrite length_app. simpl. lia.
    + rewrite Hfiles, Hfc.
      rewrite (seqZ_snoc (Z.of_nat (length closed) + 1)) by lia.
      rewrite map_app. reflexivity.
    + unfold part_header. rewrite app_nil_r. reflexivity.
    + intros i P Hi. unfold open_w, close. cbn [path written].
      apply lookup_app_Some in Hi as [Hi|[Hlen Hi]].
      * rewrite lookup_insert_ne
          by (apply get_csv_path_ne; apply lookup_lt_Some in Hi; lia).
        rewrite lookup_insert_ne
          by (apply get_csv_path_ne; apply lookup_lt_Some in Hi; lia).
        apply Hclosed, Hi.
      * destruct (i - length closed)%nat as [|j] eqn:Ej; [|destruct j; discriminate].
        injection Hi as <-.
        assert (Z.of_nat i + 1 = file_count st) as -> by lia.
        rewrite lookup_insert_ne by (apply get_csv_path_ne; lia).
        rewrite lookup_insert_eq. rewrite app_assoc.
        split; [reflexivity|]. apply closed_at_threshold_snoc; assumption.
    + apply below_threshold_nil.
    + rewrite concat_app. simpl. rewrite !app_nil_r. exact Hdata'.
  - assert ((max <=? total_size (cur ++ [csv_fields rd])) = false) as ->
      by (apply Z.leb_gt; lia).
    unfold writing. cbn [current_file_size file_count csv_files outfile
      fs row_count output_count error_count path written].
    split_and!; try assumption; try reflexivity.
    + rewrite app_assoc. reflexivity.
    + apply below_threshold_snoc; [assumption|lia].
Qed.

End PartitionWriter.

Section ProcessCsv.
Import ipaddress ConvertIpData PipelineSpec.

Variable COUNTRY_NAMES : gmap string string.
Variable output_dir : string.
Variable max_size_mb : Z.

Local Abbreviation max := (max_size_bytes max_size_mb).
Local Abbreviation part := (get_csv_path output_dir).
Local Abbreviation writing := (writing output_dir max_size_mb).

(** Every CIDR string has a ['/']. *)
Lemma network_str_slash n s : network_str n = Ok s -> contains_char "/" s = true.
Proof.
  unfold network_str. intros H. apply bind_Ok in H as (a & _ & H). injection H as <-.
  rewrite !contains_char_append. simpl. apply orb_true_r.
Qed.

Lemma ip_range_to_cidrs_slash start_ip end_ip cidrs :
  ip_range_to_cidrs start_ip end_ip = Ok cidrs ->
  Forall (fun c => contains_char "/" c = true) cidrs.
Proof.
  unfold ip_range_to_cidrs, try_except. intros H.
  match type of H with
  | match ?r with _ => _ end = _ => destruct r as [l|e] eqn:E
  end.
  - injection H as <-.
    apply bind_Ok in E as (a & _ & E). apply bind_Ok in E as (b & _ & E).
    apply bind_Ok in E as (nets & _ & E). apply mapM_Ok in E.
    induction E; constructor; eauto using network_str_slash.
  - destruct (is_ValueError e); [|discriminate]. injection H as <-. constructor.
Qed.

Lemma rows_of_data cidrs v :
  Forall (fun c => contains_char "/" c = true) cidrs ->
  Forall (fun rd => csv_fields rd <> header) (rows_of cidrs v).
Proof.
  destruct v as [[[[cc co] cn] rn] ci]. unfold rows_of.
  intros H. apply Forall_map. eapply Forall_impl; [exact H|].
  intros c Hc E. simpl in E. injection E as -> _. discriminate.
Qed.

(** The rows written for one input row. *)
Lemma write_rows_writing rds : forall closed cur st,
  writing closed cur st ->
  Forall (fun rd => csv_fields rd <> header) rds ->
  let st' := foldl (fun st rd => write_row output_dir max_size_mb rd st) st rds in
  row_count st' = row_count st
  /\ error_count st' = error_count st
  /\ output_count st' = output_count st + Z.of_nat (length rds)
  /\ exists closed' cur',
       writing closed' cur' st'
       /\ concat closed' ++ cur' = concat closed ++ cur ++ map csv_fields rds.
Proof.
  induction rds as [|rd rds IH]; intros closed cur st Hw Hd; cbv zeta.
  - simpl. split_and!; try lia. exists closed, cur. rewrite app_nil_r. auto.
  - apply Forall_cons in Hd as [Hrd Hd]. cbn [foldl length map].
    destruct (write_row_writing output_dir max_size_mb closed cur st rd Hw Hrd)
      as (Hr & He & Ho & Hw').
    destruct (decide _) in Hw'.
    + destruct (IH _ _ _ Hw' Hd) as (Hr' & He' & Ho' & closed' & cur' & Hw'' & Hc).
      split_and!; try lia. exists closed', cur'. split; [exact Hw''|].
      rewrite Hc, concat_app. simpl. rewrite !app_nil_r, <- !app_assoc. reflexivity.
    + destruct (IH _ _ _ Hw' Hd) as (Hr' & He' & Ho' & closed' & cur' & Hw'' & Hc).
      split_and!; try lia. exists closed', cur'. split; [exact Hw''|].
      rewrite Hc, <- !app_assoc. reflexivity.
Qed.

Lemma writing_counts closed cur st st' :
  writing closed cur st ->
  file_count st' = file_count st -> current_file_size st' = current_file_size st ->
  csv_files st' = csv_files st -> outfile st' = outfile st -> fs st' = fs st ->
  writing closed cur st'.
Proof.
  unfold PipelineSpec.writing. intros H -> -> -> -> ->. exact H.
Qed.

(** One input row. *)
Lemma process_row_writing row closed cur st :
  writing closed cur st ->
  let '(st', e) := process_row COUNTRY_NAMES output_dir max_size_mb row st in
  e = snd (record_rows COUNTRY_NAMES row)
  /\ row_count st' = row_count st + 1
  /\ error_count st' = error_count st
                       + match ip_range_to_cidrs (ip_start row) (ip_end row) with
                         | Ok [] => 1
                         | _ => 0
                         end
  /\ output_count st' = output_count st
                        + Z.of_nat (length (fst (record_rows COUNTRY_NAMES row)))
  /\ exists closed' cur',
       writing closed' cur' st'
       /\ concat closed' ++ cur'
          = concat closed ++ cur ++ map csv_fields (fst (record_rows COUNTRY_NAMES row)).
Proof.
  intros Hw. unfold process_row, record_rows.
  destruct (ip_range_to_cidrs (ip_start row) (ip_end row)) as [cidrs|e] eqn:Ec.
  - destruct cidrs as [|c cidrs].
    + simpl. split_and!; try reflexivity; try lia.
      exists closed, cur. rewrite app_nil_r. split; [|reflexivity].
      eapply writing_counts; [exact Hw|reflexivity..].
    + destruct (row_values COUNTRY_NAMES row) as [v|e] eqn:Ev.
      * match goal with
        | |- context [foldl ?f ?s ?l] =>
            pose proof (write_rows_writing l closed cur s) as Hrows
        end.
        cbv zeta in Hrows.
        destruct Hrows as (Hr & He & Ho & closed' & cur' & Hw' & Hc).
        { eapply writing_counts; [exact Hw|reflexivity..]. }
        { apply rows_of_data. eapply ip_range_to_cidrs_slash, Ec. }
        cbn [fst snd]. simpl in Hr, He, Ho.
        split_and!; try reflexivity; try lia.
        exists closed', cur'. auto.
      * simpl. split_and!; try reflexivity; try lia.
        exists closed, cur. rewrite app_nil_r. split; [|reflexivity].
        eapply writing_counts; [exact Hw|reflexivity..].
  - simpl. split_and!; try reflexivity; try lia.
    exists closed, cur. rewrite app_nil_r. split; [|reflexivity].
    eapply writing_counts; [exact Hw|reflexivity..].
Qed.

(** The loop over the input rows. *)
Lemma process_rows_writing rows : forall closed cur st,
  writing closed cur st ->
  let '(st', e) := process_rows COUNTRY_NAMES output_dir max_size_mb rows st in
  e = loop_exception COUNTRY_NAMES rows
  /\ error_count st' = error_count st + discarded_rows COUNTRY_NAMES rows
  /\ output_count st' = output_count st
                        + Z.of_nat (length (output_rows COUNTRY_NAMES rows))
  /\ exists closed' cur',
       writing closed' cur' st'
       /\ concat closed' ++ cur'
          = concat closed ++ cur ++ map csv_fields (output_rows COUNTRY_NAMES rows).
Proof.
  induction rows as [|row rows IH]; intros closed cur st Hw.
  - simpl. split_and!; try reflexivity; try lia.
    exists closed, cur. rewrite app_nil_r. auto.
  - cbn [process_rows output_rows loop_exception discarded_rows].
    pose proof (process_row_writing row closed cur st Hw) as Hrow.
    destruct (process_row COUNTRY_NAMES output_dir max_size_mb row st) as [st1 e1].
    destruct Hrow as (He1 & Hr1 & Herr1 & Ho1 & closed1 & cur1 & Hw1 & Hc1).
    destruct (record_rows COUNTRY_NAMES row) as [rs oe] eqn:Er.
    cbn [fst snd] in *. subst e1. destruct oe as [e|].
    + split_and!; try reflexivity.
      * unfold record_rows in Er.
        destruct (ip_range_to_cidrs (ip_start row) (ip_end row)) as [[|c cs]|e'];
          [discriminate|lia|lia].
      * lia.
      * exists closed1, cur1. auto.
    + specialize (IH closed1 cur1 st1 Hw1).
      destruct (process_rows COUNTRY_NAMES output_dir max_size_mb rows st1) as [st2 e2].
      destruct IH as (He2 & Herr2 & Ho2 & closed2 & cur2 & Hw2 & Hc2).
      split_and!; [exact He2| | |].
      * destruct (ip_range_to_cidrs (ip_start row) (ip_end row)) as [[|]|]; lia.
      * rewrite length_app. lia.
      * exists closed2, cur2. split; [exact Hw2|].
        rewrite Hc2, app_assoc, Hc1, map_app, <- !app_assoc. reflexivity.
Qed.

End ProcessCsv.

Section Partitions.
Import ipaddress ConvertIpData PipelineSpec.

Variable COUNTRY_NAMES : gmap string string.
Variable output_dir : string.
Variable max_size_mb : Z.

Local Abbreviation max := (max_size_bytes max_size_mb).
Local Abbreviation part := (get_csv_path output_dir).
Local Abbreviation single := (single_csv_path output_dir).

Lemma part_header_1 : part_header 1 = [header].
Proof. reflexivity. Qed.

Lemma part_header_above k : 1 < k -> part_header k = [].
Proof. intros Hk. unfold part_header. case (Z.eqb_spec k 1); [lia|reflexivity]. Qed.

Lemma read_csv_Some (fs : filesystem) p records :
  fs !! p = Some records -> read_csv p fs = Ok records.
Proof. unfold read_csv. intros ->. reflexivity. Qed.

(** Reading the parts after the first one appends their records. *)
Lemma merge_rest (fs : filesystem) Ps : forall k acc,
  1 < k ->
  (forall (i : nat) P, Ps !! i = Some P -> fs !! part (k + Z.of_nat i) = Some P) ->
  foldl (fun '(merged, e) csv_file =>
           match e with
           | Some _ => (merged, e)
           | None =>
               match read_csv csv_file fs with
               | Raise e => (merged, Some e)
               | Ok records => (merged ++ records, None)
               end
           end)
        (acc, None) (map part (seqZ k (Z.of_nat (length Ps))))
  = (acc ++ concat Ps, None).
Proof.
  induction Ps as [|P Ps IH]; intros k acc Hk Hfs.
  - simpl. rewrite app_nil_r. reflexivity.
  - cbn [length]. rewrite Nat2Z.inj_succ, seqZ_cons by lia.
    cbn [map foldl].
    pose proof (Hfs 0%nat P eq_refl) as H0. rewrite Z.add_0_r in H0.
    rewrite (read_csv_Some _ _ _ H0).
    replace (Z.pred (Z.succ (Z.of_nat (length Ps)))) with (Z.of_nat (length Ps)) by lia.
    rewrite IH.
    + simpl. rewrite <- app_assoc. reflexivity.
    + lia.
    + intros i Q Hi. specialize (Hfs (S i) Q Hi).
      replace (Z.succ k + Z.of_nat i) with (k + Z.of_nat (S i)) by lia. exact Hfs.
Qed.

(** The merge of parts that hold [Ps]: the header, then all the data. *)
Lemma merge_parts_partitions (fs : filesystem) Ps :
  Ps <> [] ->
  (forall (i : nat) P, Ps !! i = Some P ->
     fs !! part (Z.of_nat i + 1) = Some (part_header (Z.of_nat i + 1) ++ P)) ->
  merge_parts (map part (seqZ 1 (Z.of_nat (length Ps)))) fs
  = (header :: concat Ps, None).
Proof.
  destruct Ps as [|P0 Ps]; [congruence|]. intros _ Hfs.
  cbn [length]. rewrite Nat2Z.inj_succ, seqZ_cons by lia.
  cbn [map]. unfold merge_parts.
  pose proof (Hfs 0%nat P0 eq_refl) as H0. change (Z.of_nat 0 + 1) with 1 in H0.
  rewrite (read_csv_Some _ _ _ H0), part_header_1. cbn [app].
  replace (Z.pred (Z.succ (Z.of_nat (length Ps)))) with (Z.of_nat (length Ps)) by lia.
  change (Z.succ 1) with 2.
  rewrite merge_rest; [reflexivity|lia|].
  intros i P Hi. specialize (Hfs (S i) P Hi).
  rewrite part_header_above in Hfs by lia.
  replace (2 + Z.of_nat i) with (Z.of_nat (S i) + 1) by lia. exact Hfs.
Qed.

(** What a run of [process_csv] leaves behind: the parts hold the data
    [Ps]; all but the last were closed at the threshold; together they
    hold the output rows in order; after a loop without exception the
    merged file holds the header and all the data. *)
Lemma process_csv_partitions input fs0 :
  let '(st, r) := process_csv COUNTRY_NAMES output_dir max_size_mb input fs0 in
  exists Ps : list (list (list string)),
    Ps <> []
    /\ file_count st = Z.of_nat (length Ps)
    /\ csv_files st = map part (seqZ 1 (Z.of_nat (length Ps)))
    /\ (forall (i : nat) P, Ps !! i = Some P ->
          fs st !! part (Z.of_nat i + 1) = Some (part_header (Z.of_nat i + 1) ++ P))
    /\ (forall (i : nat) P, Ps !! i = Some P -> (S i < length Ps)%nat ->
          closed_at_threshold max P)
    /\ (forall P, last Ps = Some P -> below_threshold max P)
    /\ concat Ps = map csv_fields (output_rows COUNTRY_NAMES (DictReader input))
    /\ Forall (fun r => r <> header) (concat Ps)
    /\ error_count st = discarded_rows COUNTRY_NAMES (DictReader input)
    /\ output_count st = Z.of_nat (length (output_rows COUNTRY_NAMES (DictReader input)))
    /\ match loop_exception COUNTRY_NAMES (DictReader input) with
       | Some e => r = Raise e
       | None => r = Ok (Summary (csv_files st) single)
                 /\ fs st !! single = Some (header :: concat Ps)
       end.
Proof.
  unfold process_csv.
  match goal with
  | |- context [process_rows _ _ _ ?rows ?s] =>
      pose proof (process_rows_writing COUNTRY_NAMES output_dir max_size_mb rows [] [] s) as Hloop
  end.
  destruct (process_rows _ _ _ _ _) as [st1 e1].
  destruct Hloop as (He & Herr & Hout & closed & cur & Hw & Hc).
  { apply open_first_file; reflexivity. }
  simpl in Herr, Hout, Hc.
  destruct Hw as (Hfc & Hfiles & Hof & Hsize & Hclosed & Hbelow & Hdata).
  set (Ps := closed ++ [cur]).
  assert (HlenPs : Z.of_nat (length Ps) = file_count st1)
    by (unfold Ps; rewrite length_app; simpl; lia).
  set (fs1 := close (outfile st1) (fs st1)).
  assert (Hparts : forall (i : nat) P, Ps !! i = Some P ->
            fs1 !! part (Z.of_nat i + 1) = Some (part_header (Z.of_nat i + 1) ++ P)).
  { intros i P Hi. unfold fs1, close. rewrite Hof. cbn [path written].
    apply lookup_app_Some in Hi as [Hi|[Hlen Hi]].
    - rewrite lookup_insert_ne
        by (apply get_csv_path_ne; apply lookup_lt_Some in Hi; lia).
      apply Hclosed, Hi.
    - destruct (i - length closed)%nat as [|j] eqn:Ej; [|destruct j; discriminate].
      injection Hi as <-.
      assert (Z.of_nat i + 1 = file_count st1) as -> by lia.
      apply lookup_insert_eq. }
  assert (Hthr : forall (i : nat) P, Ps !! i = Some P -> (S i < length Ps)%nat ->
            closed_at_threshold max P).
  { intros i P Hi Hlt. unfold Ps in Hi, Hlt. rewrite length_app in Hlt. simpl in Hlt.
    rewrite lookup_app_l in Hi by lia. apply Hclosed in Hi. apply Hi. }
  assert (Hlast : forall P, last Ps = Some P -> below_threshold max P).
  { intros P HP. unfold Ps in HP. rewrite last_snoc in HP. injection HP as <-. exact Hbelow. }
  assert (Hconcat : concat Ps = map csv_fields (output_rows COUNTRY_NAMES (DictReader input))).
  { unfold Ps. rewrite concat_app. simpl. rewrite app_nil_r. exact Hc. }
  assert (Hne : Ps <> []).
  { unfold Ps. intros E. apply (f_equal length) in E. rewrite length_app in E. simpl in E. lia. }
  assert (Hdata' : Forall (fun r => r <> header) (concat Ps)).
  { unfold Ps. rewrite concat_app. simpl. rewrite app_nil_r. exact Hdata. }
  rewrite <- He. destruct e1 as [e|].
  - exists Ps. cbn [file_count csv_files fs error_count output_count].
    rewrite HlenPs. split_and!; try assumption; try reflexivity; try lia.
  - cbn [file_count csv_files fs error_count output_count].
    fold fs1. rewrite Hfiles, <- HlenPs.
    rewrite merge_parts_partitions; [|exact Hne|].
    2:{ intros i P Hi. unfold open_w. rewrite lookup_insert_ne
          by apply single_csv_path_not_part. apply Hparts, Hi. }
    exists Ps. cbn [file_count csv_files fs error_count output_count].
    split_and!; try assumption; try reflexivity; try lia.
    + intros i P Hi. unfold close, open_w. cbn [path written].
      rewrite !lookup_insert_ne by apply single_csv_path_not_part.
      apply Hparts, Hi.
    + unfold close. cbn [path written]. apply lookup_insert_eq.
Qed.

End Partitions.

Section PartitionClaims.
Import ipaddress ConvertIpData PipelineSpec.

Variable COUNTRY_NAMES : gmap string string.
Variable output_dir : string.
Variable max_size_mb : Z.

Local Abbreviation max := (max_size_bytes max_size_mb).
Local Abbreviation part := (get_csv_path output_dir).
Local Abbreviation single := (single_csv_path output_dir).
Local Abbreviation run := (process_csv COUNTRY_NAMES output_dir max_size_mb).

(** C3.  After any run of [process_csv] the part files [part1.csv],
    [part2.csv], ... hold, after the header of the first, consecutive
    segments [Ps] of the sequence of output rows, each row whole in one
    part; the data of every part but the last reaches the maximum
    [max_size_mb * 1024 * 1024] and no shorter non-empty prefix of it
    does (it was closed exactly when the estimate first reached the
    maximum); no non-empty prefix of the data of the last part reaches the
    maximum. *)
Theorem C3_parts_closed_exactly_at_threshold (input : list (list string))
        (fs0 : filesystem) :
  let st := fst (run input fs0) in
  exists Ps : list (list (list string)),
    Ps <> []
    /\ csv_files st = map part (seqZ 1 (Z.of_nat (length Ps)))
    /\ (forall (i : nat) P, Ps !! i = Some P ->
          fs st !! part (Z.of_nat i + 1) = Some (part_header (Z.of_nat i + 1) ++ P))
    /\ concat Ps = map csv_fields (output_rows COUNTRY_NAMES (DictReader input))
    /\ (forall (i : nat) P, Ps !! i = Some P -> (S i < length Ps)%nat ->
          closed_at_threshold (max_size_mb * 1024 * 1024) P)
    /\ (forall P, last Ps = Some P ->
          below_threshold (max_size_mb * 1024 * 1024) P).
Proof.
  cbv zeta. pose proof (process_csv_partitions COUNTRY_NAMES output_dir max_size_mb input fs0) as H.
  destruct (run input fs0) as [st r].
  destruct H as (Ps & Hne & _ & Hfiles & Hparts & Hthr & Hlast & Hconcat & _).
  exists Ps. simpl. split_and!; assumption.
Qed.

Lemma length_concat_sum {A} (Ps : list (list A)) :
  length (concat Ps) = sum_list_with length Ps.
Proof.
  induction Ps as [|P Ps IH]; [reflexivity|].
  simpl. rewrite length_app, IH. reflexivity.
Qed.

Lemma elem_of_concat {A} (x : A) P (Ps : list (list A)) :
  x ∈ P -> P ∈ Ps -> x ∈ concat Ps.
Proof.
  intros Hx HP. induction HP as [P Ps|P Q Ps _ IH]; simpl.
  - apply elem_of_app. left. exact Hx.
  - apply elem_of_app. right. apply IH, Hx.
Qed.

(** C4.  After a run of [process_csv] that returns, the header is the
    first record of [part1.csv] and occurs nowhere else in the parts: the
    other parts hold data only.  The merged file holds the header, once,
    and then the data of all the parts in ascending order of their
    numbers; the number of its data rows is the sum of the numbers of
    data rows of the parts. *)
Theorem C4_header_once_and_merged_concatenation (input : list (list string))
        (fs0 : filesystem) (st : state) (s : summary) :
  run input fs0 = (st, Ok s) ->
  exists Ps : list (list (list string)),
    Ps <> []
    /\ parts s = map part (seqZ 1 (Z.of_nat (length Ps)))
    /\ merged s = single
    /\ (forall (i : nat) P, Ps !! i = Some P ->
          fs st !! part (Z.of_nat i + 1)
          = Some ((if decide (i = 0%nat) then [header] else []) ++ P)
          /\ (header ∉ P))
    /\ fs st !! single = Some (header :: concat Ps)
    /\ (header ∉ concat Ps)
    /\ length (concat Ps) = sum_list_with length Ps.
Proof.
  intros Hrun.
  pose proof (process_csv_partitions COUNTRY_NAMES output_dir max_size_mb input fs0) as H.
  rewrite Hrun in H.
  destruct H as (Ps & Hne & _ & Hfiles & Hparts & _ & _ & _ & Hdata & _ & _ & Hres).
  destruct (loop_exception _ _); [discriminate|].
  destruct Hres as (Hs & Hmerged). injection Hs as ->.
  assert (Hnot : header ∉ (concat Ps)).
  { intros Hin. rewrite Forall_forall in Hdata. apply (Hdata _ Hin). reflexivity. }
  exists Ps. cbn [parts merged]. split_and!; try assumption; try reflexivity.
  - intros i P Hi. split.
    + rewrite (Hparts i P Hi). f_equal. f_equal. unfold part_header.
      destruct i as [|i]; [reflexivity|].
      rewrite decide_False by lia.
      case (Z.eqb_spec (Z.of_nat (S i) + 1) 1); [lia|reflexivity].
    + intros Hin. apply Hnot. eapply elem_of_concat; [exact Hin|].
      eapply list_elem_of_lookup_2, Hi.
  - apply length_concat_sum.
Qed.

(** C9.  The rows of one input record need not stay in one part: when the
    row of the first CIDR block of a record alone reaches the maximum, the
    run on that record leaves the row of its first block in [part1.csv],
    which is closed after it, and the row of its second block at the start
    of [part2.csv]. *)
Theorem C9_rows_of_one_record_split_across_parts (r : list string)
        (cidr1 cidr2 : string) (cidrs : list string)
        (continent_code country_code country_name : string)
        (region_name city_name : option string) (fs0 : filesystem) :
  let v := (continent_code, country_code, country_name, region_name, city_name) in
  r <> [] ->
  ip_range_to_cidrs (r !! 0%nat) (r !! 1%nat) = Ok (cidr1 :: cidr2 :: cidrs) ->
  row_values COUNTRY_NAMES (DictReader_row r) = Ok v ->
  max_size_mb * 1024 * 1024
  <= row_size (make_row_data cidr1 continent_code country_code country_name
                             region_name city_name) ->
  let st := fst (run [r] fs0) in
  exists row1 row2 others rest,
    map csv_fields (rows_of (cidr1 :: cidr2 :: cidrs) v) = row1 :: row2 :: others
    /\ fs st !! part 1 = Some [header; row1]
    /\ fs st !! part 2 = Some (row2 :: rest).
Proof.
  cbv zeta. intros Hr Hc Hv Hmax.
  pose proof (process_csv_partitions COUNTRY_NAMES output_dir max_size_mb [r] fs0) as H.
  destruct (run [r] fs0) as [st res].
  destruct H as (Ps & Hne & _ & _ & Hparts & Hthr & Hlast & Hconcat & _).
  assert (DictReader [r] = [DictReader_row r]) as HD.
  { unfold DictReader. rewrite filter_cons_True by exact Hr. reflexivity. }
  rewrite HD in Hconcat. cbn [output_rows] in Hconcat. unfold record_rows in Hconcat.
  change (ip_start (DictReader_row r)) with (r !! 0%nat) in Hconcat.
  change (ip_end (DictReader_row r)) with (r !! 1%nat) in Hconcat.
  rewrite Hc, Hv, app_nil_r in Hconcat.
  cbn [rows_of map] in Hconcat |- *.
  rewrite row_size_record_size in Hmax.
  set (row1 := csv_fields (make_row_data cidr1 _ _ _ _ _)) in *.
  set (row2 := csv_fields (make_row_data cidr2 _ _ _ _ _)) in *.
  set (others := map csv_fields _) in *.
  assert (Hpos : forall l, 0 <= total_size l).
  { clear. induction l as [|x l IH]; unfold total_size in *; simpl; [lia|].
    assert (0 <= record_size x); [|lia]. unfold record_size.
    assert (0 <= foldr Z.add 0 (map len x)); [|lia].
    clear. induction x; simpl; [lia|]. unfold len at 1. lia. }
  assert (Hsz : forall P, record_size row1 <= total_size (take 1 (row1 :: P))).
  { intros P. cbn [take]. unfold total_size. simpl. lia. }
  unfold max_size_bytes in Hthr, Hlast.
  destruct Ps as [|P0 Ps1]; [congruence|].
  assert (P0 = [row1]) as ->.
  { destruct Ps1 as [|P1 Ps2].
    - simpl in Hconcat. rewrite app_nil_r in Hconcat. subst P0.
      specialize (Hlast _ eq_refl 1%nat ltac:(simpl; lia)).
      specialize (Hsz (row2 :: others)). lia.
    - destruct (Hthr 0%nat P0 eq_refl ltac:(simpl; lia)) as (Hn0 & _ & Hpre).
      destruct P0 as [|x P0']; [congruence|].
      simpl in Hconcat. injection Hconcat as -> Hconcat.
      destruct P0' as [|y P0'']; [reflexivity|].
      specialize (Hpre 1%nat ltac:(simpl; lia)).
      specialize (Hsz (y :: P0'')). lia. }
  simpl in Hconcat. injection Hconcat as Hconcat.
  destruct Ps1 as [|P1 Ps2]; [discriminate|].
  assert (exists rest, P1 = row2 :: rest) as (rest & ->).
  { destruct Ps2 as [|P2 Ps3].
    - simpl in Hconcat. rewrite app_nil_r in Hconcat. subst P1. eauto.
    - destruct (Hthr 1%nat P1 eq_refl ltac:(simpl; lia)) as (Hn1 & _ & _).
      destruct P1 as [|x P1']; [congruence|].
      simpl in Hconcat. injection Hconcat as -> _. eauto. }
  exists row1, row2, others, rest. split; [reflexivity|]. split.
  - apply (Hparts 0%nat [row1] eq_refl).
  - apply (Hparts 1%nat (row2 :: rest) eq_refl).
Qed.

End PartitionClaims.

Section Scenarios.
Import ipaddress IpSpec ConvertIpData PipelineSpec.

Lemma C4_witness :
  let COUNTRY_NAMES : gmap string string := {["US" := "United States"]} in
  let input := [["1.0.0.0"; "1.0.0.255"; "NA"; "US"; "California"; "Los Angeles"];
                ["1.0.0.5"; "1.0.0.9"; "OC"; "AU"; ""; ""]] in
  let s := Summary ["out/part1.csv"; "out/part2.csv"; "out/part3.csv";
                    "out/part4.csv"; "out/part5.csv"] "out/dbip-full.csv" in
  let st := fst (process_csv COUNTRY_NAMES "out" 0 input ∅) in
  process_csv COUNTRY_NAMES "out" 0 input ∅ = (st, Ok s)
  /\ exists Ps : list (list (list string)),
       Ps <> []
       /\ parts s = map (get_csv_path "out") (seqZ 1 (Z.of_nat (length Ps)))
       /\ merged s = single_csv_path "out"
       /\ (forall (i : nat) P, Ps !! i = Some P ->
             fs st !! get_csv_path "out" (Z.of_nat i + 1)
             = Some ((if decide (i = 0%nat) then [header] else []) ++ P)
             /\ (header ∉ P))
       /\ fs st !! single_csv_path "out" = Some (header :: concat Ps)
       /\ (header ∉ concat Ps)
       /\ length (concat Ps) = sum_list_with length Ps.
Proof.
  cbv zeta.
  assert (process_csv {["US" := "United States"]} "out" 0
            [["1.0.0.0"; "1.0.0.255"; "NA"; "US"; "California"; "Los Angeles"];
             ["1.0.0.5"; "1.0.0.9"; "OC"; "AU"; ""; ""]] ∅
          = (fst (process_csv {["US" := "United States"]} "out" 0
                    [["1.0.0.0"; "1.0.0.255"; "NA"; "US"; "California"; "Los Angeles"];
                     ["1.0.0.5"; "1.0.0.9"; "OC"; "AU"; ""; ""]] ∅),
             Ok (Summary ["out/part1.csv"; "out/part2.csv"; "out/part3.csv";
                          "out/part4.csv"; "out/part5.csv"] "out/dbip-full.csv"))) as Hrun
    by (vm_compute; reflexivity).
  split; [exact Hrun|].
  exact (C4_header_once_and_merged_concatenation _ _ _ _ _ _ _ Hrun).
Defined.

Lemma C9_witness :
  let COUNTRY_NAMES : gmap string string := {["AU" := "Australia"]} in
  let r := ["1.0.0.5"; "1.0.0.9"; "OC"; "AU"; "Queensland"; "Brisbane"] in
  let v := ("OC", "AU", "Australia", Some "Queensland", Some "Brisbane") in
  r <> []
  /\ ip_range_to_cidrs (r !! 0%nat) (r !! 1%nat)
     = Ok ["1.0.0.5/32"; "1.0.0.6/31"; "1.0.0.8/31"]
  /\ row_values COUNTRY_NAMES (DictReader_row r) = Ok v
  /\ 0 * 1024 * 1024
     <= row_size (make_row_data "1.0.0.5/32" "OC" "AU" "Australia"
                                (Some "Queensland") (Some "Brisbane"))
  /\ exists row1 row2 others rest,
       map csv_fields (rows_of ["1.0.0.5/32"; "1.0.0.6/31"; "1.0.0.8/31"] v)
       = row1 :: row2 :: others
       /\ fs (fst (process_csv COUNTRY_NAMES "out" 0 [r] ∅)) !! get_csv_path "out" 1
          = Some [header; row1]
       /\ fs (fst (process_csv COUNTRY_NAMES "out" 0 [r] ∅)) !! get_csv_path "out" 2
          = Some (row2 :: rest).
Proof.
  cbv zeta. split; [discriminate|]. split; [vm_compute; reflexivity|].
  split; [vm_compute; reflexivity|]. split; [vm_compute; discriminate|].
  apply (C9_rows_of_one_record_split_across_parts
           {["AU" := "Australia"]} "out" 0
           ["1.0.0.5"; "1.0.0.9"; "OC"; "AU"; "Queensland"; "Brisbane"]
           "1.0.0.5/32" "1.0.0.6/31" ["1.0.0.8/31"]
           "OC" "AU" "Australia" (Some "Queensland") (Some "Brisbane") ∅).
  - discriminate.
  - vm_compute; reflexivity.
  - vm_compute; reflexivity.
  - vm_compute; discriminate.
Defined.



End Scenarios.

Section Determinism.
Import ipaddress ConvertIpData PipelineSpec.

Variable COUNTRY_NAMES : gmap string string.
Variable output_dir : string.
Variable max_size_mb : Z.

Local Abbreviation run := (process_csv COUNTRY_NAMES output_dir max_size_mb).

Lemma same_outputs_open_new_file part_num st1 st2 :
  same_outputs st1 st2 ->
  same_outputs (open_new_file output_dir part_num st1)
               (open_new_file output_dir part_num st2).
Proof.
  intros (Hr & Ho & He & Hf & Hs & Hc & Hof & Hfs).
  unfold same_outputs, open_new_file. simpl.
  split_and!; try congruence.
  intros p Hp. unfold open_w.
  destruct (decide (get_csv_path output_dir part_num = p)) as [<-|Hne].
  - rewrite !lookup_insert_eq. reflexivity.
  - rewrite !lookup_insert_ne by exact Hne.
    apply elem_of_app in Hp as [Hp|Hp]; [apply Hfs, Hp|].
    apply list_elem_of_singleton in Hp. congruence.
Qed.

Lemma same_outputs_write_row rd st1 st2 :
  same_outputs st1 st2 ->
  same_outputs (write_row output_dir max_size_mb rd st1)
               (write_row output_dir max_size_mb rd st2).
Proof.
  intros (Hr & Ho & He & Hf & Hs & Hc & Hof & Hfs).
  unfold write_row. simpl. rewrite Hs.
  destruct (max_size_bytes max_size_mb <=? current_file_size st2 + row_size rd).
  - rewrite Hf. apply same_outputs_open_new_file.
    unfold same_outputs. simpl. split_and!; try congruence.
    intros p Hp. unfold close. simpl. rewrite Hof.
    destruct (decide (path (outfile st2) = p)) as [<-|Hne].
    + rewrite !lookup_insert_eq. reflexivity.
    + rewrite !lookup_insert_ne by exact Hne. apply Hfs, Hp.
  - unfold same_outputs. simpl. split_and!; congruence || assumption.
Qed.

Lemma same_outputs_write_rows rds : forall st1 st2,
  same_outputs st1 st2 ->
  same_outputs (foldl (fun st rd => write_row output_dir max_size_mb rd st) st1 rds)
               (foldl (fun st rd => write_row output_dir max_size_mb rd st) st2 rds).
Proof.
  induction rds as [|rd rds IH]; intros st1 st2 H; [exact H|].
  simpl. apply IH, same_outputs_write_row, H.
Qed.

Lemma same_outputs_process_row row st1 st2 :
  same_outputs st1 st2 ->
  same_outputs (fst (process_row COUNTRY_NAMES output_dir max_size_mb row st1))
               (fst (process_row COUNTRY_NAMES output_dir max_size_mb row st2))
  /\ snd (process_row COUNTRY_NAMES output_dir max_size_mb row st1)
     = snd (process_row COUNTRY_NAMES output_dir max_size_mb row st2).
Proof.
  intros H. pose proof H as (Hr & Ho & He & Hf & Hs & Hc & Hof & Hfs).
  unfold process_row.
  destruct (ip_range_to_cidrs (ip_start row) (ip_end row)) as [[|c cidrs]|e].
  - simpl. split; [|reflexivity].
    unfold same_outputs. simpl. split_and!; congruence || assumption.
  - destruct (row_values COUNTRY_NAMES row) as [v|e].
    + simpl. split; [|reflexivity]. apply same_outputs_write_rows.
      unfold same_outputs. simpl. split_and!; congruence || assumption.
    + simpl. split; [|reflexivity].
      unfold same_outputs. simpl. split_and!; congruence || assumption.
  - simpl. split; [|reflexivity].
    unfold same_outputs. simpl. split_and!; congruence || assumption.
Qed.

Lemma same_outputs_process_rows rows : forall st1 st2,
  same_outputs st1 st2 ->
  same_outputs (fst (process_rows COUNTRY_NAMES output_dir max_size_mb rows st1))
               (fst (process_rows COUNTRY_NAMES output_dir max_size_mb rows st2))
  /\ snd (process_rows COUNTRY_NAMES output_dir max_size_mb rows st1)
     = snd (process_rows COUNTRY_NAMES output_dir max_size_mb rows st2).
Proof.
  induction rows as [|row rows IH]; intros st1 st2 H; [split; [exact H|reflexivity]|].
  cbn [process_rows].
  destruct (same_outputs_process_row row st1 st2 H) as (H' & He).
  destruct (process_row COUNTRY_NAMES output_dir max_size_mb row st1) as [st1' e1].
  destruct (process_row COUNTRY_NAMES output_dir max_size_mb row st2) as [st2' e2].
  simpl in H', He. subst e2. destruct e1 as [e|].
  - split; [exact H'|reflexivity].
  - apply IH, H'.
Qed.

Lemma read_csv_agree p (fsa fsb : filesystem) :
  fsa !! p = fsb !! p -> read_csv p fsa = read_csv p fsb.
Proof. unfold read_csv. intros ->. reflexivity. Qed.

(** The merge reads the parts only. *)
Lemma merge_parts_agree csv_files (fsa fsb : filesystem) :
  (forall p, p ∈ csv_files -> fsa !! p = fsb !! p) ->
  merge_parts csv_files fsa = merge_parts csv_files fsb.
Proof.
  intros H. unfold merge_parts. destruct csv_files as [|part1 others]; [reflexivity|].
  rewrite (read_csv_agree part1 fsa fsb) by (apply H, list_elem_of_here).
  destruct (read_csv part1 fsb) as [[|hd rest]|]; try reflexivity.
  assert (forall p, p ∈ others -> fsa !! p = fsb !! p) as H'
    by (intros p Hp; apply H, list_elem_of_further, Hp).
  generalize (hd :: rest, @None exn). clear H.
  induction others as [|x others IH]; intros acc; [reflexivity|].
  cbn [foldl]. rewrite IH by (intros p Hp; apply H', list_elem_of_further, Hp).
  f_equal. destruct acc as [m [e|]]; [reflexivity|].
  rewrite (read_csv_agree x fsa fsb) by (apply H', list_elem_of_here). reflexivity.
Qed.

Lemma lookup_merged_ne (fs : filesystem) records p :
  single_csv_path output_dir <> p ->
  close (Outfile (single_csv_path output_dir) records)
        (open_w (single_csv_path output_dir) fs) !! p = fs !! p.
Proof.
  intros Hne. unfold close, open_w. simpl.
  rewrite !lookup_insert_ne by exact Hne. reflexivity.
Qed.

(** C6.  Two runs of [process_csv] on the same input records with the
    same country table, output directory and maximum size, started on any
    two file systems, raise the same exception or return the same
    dictionary, write the same list of part files with the same contents,
    and, when they return, the same merged file; their counters are the
    same. *)
Theorem C6_process_csv_deterministic (input : list (list string))
        (fs1 fs2 : filesystem) :
  let '(st1, r1) := process_csv COUNTRY_NAMES output_dir max_size_mb input fs1 in
  let '(st2, r2) := process_csv COUNTRY_NAMES output_dir max_size_mb input fs2 in
  r1 = r2
  /\ csv_files st1 = csv_files st2
  /\ (forall p, p ∈ csv_files st1 -> fs st1 !! p = fs st2 !! p)
  /\ (forall s, r1 = Ok s -> fs st1 !! merged s = fs st2 !! merged s)
  /\ row_count st1 = row_count st2
  /\ output_count st1 = output_count st2
  /\ error_count st1 = error_count st2.
Proof.
  unfold process_csv.
  assert (same_outputs
            (open_new_file output_dir 1 (State 0 0 0 1 0 [] (Outfile "" []) fs1))
            (open_new_file output_dir 1 (State 0 0 0 1 0 [] (Outfile "" []) fs2))) as H0.
  { unfold same_outputs, open_new_file. simpl. split_and!; try reflexivity.
    intros p Hp. apply list_elem_of_singleton in Hp as ->.
    unfold open_w. rewrite !lookup_insert_eq. reflexivity. }
  apply (same_outputs_process_rows (DictReader input)) in H0 as (H & He).
  destruct (process_rows _ _ _ _ (open_new_file _ _ (State _ _ _ _ _ _ _ fs1))) as [st1 e1].
  destruct (process_rows _ _ _ _ (open_new_file _ _ (State _ _ _ _ _ _ _ fs2))) as [st2 e2].
  simpl in H, He. subst e2.
  destruct H as (Hr & Ho & Herr & Hf & Hs & Hc & Hof & Hfs).
  assert (Hclosed : forall p, p ∈ csv_files st1 ->
            close (outfile st1) (fs st1) !! p = close (outfile st2) (fs st2) !! p).
  { intros p Hp. unfold close. rewrite Hof.
    destruct (decide (path (outfile st2) = p)) as [<-|Hne].
    - rewrite !lookup_insert_eq. reflexivity.
    - rewrite !lookup_insert_ne by exact Hne. apply Hfs, Hp. }
  destruct e1 as [e|].
  - simpl. split_and!; try congruence; try assumption.
  - cbn [row_count output_count error_count file_count current_file_size
           csv_files outfile fs].
    rewrite <- Hc.
    rewrite (merge_parts_agree (csv_files st1)
               (open_w (single_csv_path output_dir) (close (outfile st1) (fs st1)))
               (open_w (single_csv_path output_dir) (close (outfile st2) (fs st2)))).
    2:{ intros p Hp. unfold open_w.
        destruct (decide (single_csv_path output_dir = p)) as [<-|Hne].
        - rewrite !lookup_insert_eq. reflexivity.
        - rewrite !lookup_insert_ne by exact Hne. apply Hclosed, Hp. }
    destruct (merge_parts (csv_files st1) _) as [records [e|]].
    + simpl. split_and!; try congruence; try assumption.
      intros p Hp.
      destruct (decide (single_csv_path output_dir = p)) as [<-|Hne].
      * unfold close at 1 3. simpl. rewrite !lookup_insert_eq. reflexivity.
      * rewrite !lookup_merged_ne by exact Hne. apply Hclosed, Hp.
    + simpl. split_and!; try congruence; try assumption.
      * intros p Hp.
        destruct (decide (single_csv_path output_dir = p)) as [<-|Hne].
        -- unfold close at 1 3. simpl. rewrite !lookup_insert_eq. reflexivity.
        -- rewrite !lookup_merged_ne by exact Hne. apply Hclosed, Hp.
      * intros s Hs'. injection Hs' as <-. simpl. unfold close. simpl.
        rewrite !lookup_insert_eq. reflexivity.
Qed.

End Determinism.

Section RecordErrors.
Import ipaddress ConvertIpData PipelineSpec.

Variable COUNTRY_NAMES : gmap string string.
Variable output_dir : string.
Variable max_size_mb : Z.

Local Abbreviation run := (process_csv COUNTRY_NAMES output_dir max_size_mb).

(** A start or an end that [ip_address] rejects yields no block. *)
Lemma ip_range_to_cidrs_invalid_start start_ip end_ip e :
  ip_address (AStr (str_opt start_ip)) = Raise e -> is_ValueError e = true ->
  ip_range_to_cidrs start_ip end_ip = Ok [].
Proof.
  intros Hs He. unfold ip_range_to_cidrs. rewrite Hs. cbn. rewrite He. reflexivity.
Qed.

Lemma ip_range_to_cidrs_invalid_end start_ip end_ip a e :
  ip_address (AStr (str_opt start_ip)) = Ok a ->
  ip_address (AStr (str_opt end_ip)) = Raise e -> is_ValueError e = true ->
  ip_range_to_cidrs start_ip end_ip = Ok [].
Proof.
  intros Hs Hend He. unfold ip_range_to_cidrs. rewrite Hs. cbn. rewrite Hend. cbn.
  rewrite He. reflexivity.
Qed.

(** A start above the end yields no block. *)
Lemma ip_range_to_cidrs_reversed start_ip end_ip a b :
  ip_address (AStr (str_opt start_ip)) = Ok a ->
  ip_address (AStr (str_opt end_ip)) = Ok b ->
  addr_gt a b = Ok true ->
  ip_range_to_cidrs start_ip end_ip = Ok [].
Proof.
  intros Hs Hend Hgt. unfold ip_range_to_cidrs. rewrite Hs. cbn. rewrite Hend. cbn.
  unfold summarize_address_range.
  assert (version a = version b) as Hv.
  { unfold addr_gt, addr_lt in Hgt.
    destruct (Z.eqb_spec (version a) (version b)); [assumption|discriminate]. }
  rewrite Hv, Z.eqb_refl. cbn. rewrite Hgt. reflexivity.
Qed.

(** A start and an end of different families: [summarize_address_range]
    raises [TypeError], which [ip_range_to_cidrs] does not catch. *)
Lemma ip_range_to_cidrs_mixed_families start_ip end_ip a b :
  ip_address (AStr (str_opt start_ip)) = Ok a ->
  ip_address (AStr (str_opt end_ip)) = Ok b ->
  version a <> version b ->
  ip_range_to_cidrs start_ip end_ip = Raise TypeError.
Proof.
  intros Hs Hend Hv. unfold ip_range_to_cidrs. rewrite Hs. cbn. rewrite Hend. cbn.
  unfold summarize_address_range.
  destruct (Z.eqb_spec (version a) (version b)); [contradiction|]. reflexivity.
Qed.

(** An input row that yields no block is counted and nothing is written
    for it; the loop goes on. *)
Lemma process_row_discarded row st :
  ip_range_to_cidrs (ip_start row) (ip_end row) = Ok [] ->
  process_row COUNTRY_NAMES output_dir max_size_mb row st
  = (State (row_count st + 1) (output_count st) (error_count st + 1)
           (file_count st) (current_file_size st) (csv_files st)
           (outfile st) (fs st), None).
Proof. intros H. unfold process_row. rewrite H. reflexivity. Qed.

(** An input row whose range raises ends the loop with that exception. *)
Lemma process_row_raises row st e :
  ip_range_to_cidrs (ip_start row) (ip_end row) = Raise e ->
  process_row COUNTRY_NAMES output_dir max_size_mb row st
  = (State (row_count st + 1) (output_count st) (error_count st)
           (file_count st) (current_file_size st) (csv_files st)
           (outfile st) (fs st), Some e).
Proof. intros H. unfold process_row. rewrite H. reflexivity. Qed.

(** C2.  The claim fails on the code for a record whose start and end are
    valid addresses of different families: for the input records
    [1.0.0.0,::1,EU,DE,,] and [1.0.0.0,1.0.0.255,NA,US,,] the conversion of
    the first range raises [TypeError], [process_csv] ends with this
    exception after the first record, the discarded-record counter stays
    at 0, the second record is not read, and no merged file is written. *)
Theorem C2_mixed_families_abort_the_run (fs0 : filesystem) :
  let input := [["1.0.0.0"; "::1"; "EU"; "DE"; ""; ""];
                ["1.0.0.0"; "1.0.0.255"; "NA"; "US"; ""; ""]] in
  ip_address (AStr "1.0.0.0") = Ok (IPv4Address 16777216)
  /\ ip_address (AStr "::1") = Ok (IPv6Address 1 None)
  /\ ip_range_to_cidrs (Some "1.0.0.0") (Some "::1") = Raise TypeError
  /\ snd (run input fs0) = Raise TypeError
  /\ error_count (fst (run input fs0)) = 0
  /\ row_count (fst (run input fs0)) = 1
  /\ output_count (fst (run input fs0)) = 0
  /\ fs (fst (run input fs0)) !! single_csv_path output_dir
     = fs0 !! single_csv_path output_dir.
Proof.
  cbv zeta.
  assert (ip_range_to_cidrs (Some "1.0.0.0") (Some "::1") = Raise TypeError) as Hmixed
    by (vm_compute; reflexivity).
  split; [vm_compute; reflexivity|]. split; [vm_compute; reflexivity|].
  split; [exact Hmixed|].
  unfold process_csv, DictReader.
  rewrite !filter_cons_True by discriminate. rewrite filter_nil.
  cbn [map process_rows]. rewrite (process_row_raises _ _ TypeError) by exact Hmixed.
  cbn [fst snd row_count output_count error_count fs csv_files outfile file_count
       current_file_size open_new_file].
  split_and!; try reflexivity.
  unfold close, open_w. cbn [path written].
  rewrite !lookup_insert_ne by (apply not_eq_sym, single_csv_path_not_part).
  reflexivity.
Qed.

Lemma upper_char_idem c : upper_char (upper_char c) = upper_char c.
Proof.
  destruct c as [[] [] [] [] [] [] [] []]; reflexivity.
Qed.

Lemma upper_idem s : upper (upper s) = upper s.
Proof.
  unfold upper. induction s as [|c s IH]; [reflexivity|].
  simpl. rewrite upper_char_idem, IH. reflexivity.
Qed.

(** The rows written for an input row that has a country field and whose
    range yields blocks: one row per block, with the continent cut to two
    characters, the country in upper case, the name of the country from
    the table, or the code itself when the table has no entry for it, and
    the region and city with the empty string turned into [None]. *)
Lemma process_row_enriched row st country cidr cidrs :
  ip_range_to_cidrs (ip_start row) (ip_end row) = Ok (cidr :: cidrs) ->
  ConvertIpData.country row = Some country ->
  let continent_code :=
    if truthy (continent row) then take_str 2 (str_opt (continent row)) else "" in
  let country_code := upper country in
  let country_name :=
    if String.eqb country_code "" then ""
    else default country_code (COUNTRY_NAMES !! country_code) in
  process_row COUNTRY_NAMES output_dir max_size_mb row st
  = (foldl (fun st row_data => write_row output_dir max_size_mb row_data st)
           (State (row_count st + 1) (output_count st) (error_count st)
                  (file_count st) (current_file_size st) (csv_files st)
                  (outfile st) (fs st))
           (map (fun cidr => [Some cidr; Some continent_code; Some country_code;
                              Some country_name;
                              or_None (stateprov row); or_None (city row)])
                (cidr :: cidrs)),
     None).
Proof.
  intros Hc Hco. cbv zeta. unfold process_row, row_values. rewrite Hc, Hco. cbn.
  unfold get_country_name. rewrite upper_idem.
  destruct (String.eqb (upper country) ""); reflexivity.
Qed.

(** C5.  The claim fails on the code for a record without a country
    field: for the input record [1.0.0.0,1.0.0.255,NA], whose range
    converts to the block 1.0.0.0/24, the country is [None], taking its
    upper case raises [AttributeError], and [process_csv] ends with this
    exception without writing a row for the block. *)
Theorem C5_missing_country_aborts_the_run (fs0 : filesystem) :
  let record := ["1.0.0.0"; "1.0.0.255"; "NA"] in
  ip_range_to_cidrs (ip_start (DictReader_row record)) (ip_end (DictReader_row record))
  = Ok ["1.0.0.0/24"]
  /\ ConvertIpData.country (DictReader_row record) = None
  /\ row_values COUNTRY_NAMES (DictReader_row record) = Raise AttributeError
  /\ snd (run [record] fs0) = Raise AttributeError
  /\ output_count (fst (run [record] fs0)) = 0
  /\ fs (fst (run [record] fs0)) !! get_csv_path output_dir 1 = Some [header].
Proof.
  cbv zeta.
  assert (ip_range_to_cidrs (Some "1.0.0.0") (Some "1.0.0.255") = Ok ["1.0.0.0/24"]) as Hc
    by (vm_compute; reflexivity).
  split; [exact Hc|]. split; [reflexivity|]. split; [reflexivity|].
  unfold process_csv, DictReader.
  rewrite !filter_cons_True by discriminate. rewrite filter_nil.
  cbn [map process_rows]. unfold process_row.
  change (ip_start (DictReader_row ["1.0.0.0"; "1.0.0.255"; "NA"])) with (Some "1.0.0.0").
  change (ip_end (DictReader_row ["1.0.0.0"; "1.0.0.255"; "NA"])) with (Some "1.0.0.255").
  rewrite Hc.
  change (row_values COUNTRY_NAMES (DictReader_row ["1.0.0.0"; "1.0.0.255"; "NA"]))
    with (@Raise (string * string * string * option string * option string) AttributeError).
  cbn [fst snd row_count output_count error_count fs csv_files outfile file_count
       current_file_size open_new_file].
  split_and!; try reflexivity.
  unfold close, open_w. cbn [path written]. apply lookup_insert_eq.
Qed.

End RecordErrors.

Section ResetAddTocFacts.
Import Json ResetAddToc ResetSpec.

Lemma dict_get_set_eq key value d : dict_get key (dict_set key value d) = Some value.
Proof.
  induction d as [|[k v] d IH]; simpl.
  - rewrite String.eqb_refl. reflexivity.
  - destruct (String.eqb_spec k key) as [->|Hne]; simpl.
    + rewrite String.eqb_refl. reflexivity.
    + rewrite (proj2 (String.eqb_neq _ _) Hne). exact IH.
Qed.

Lemma dict_get_set_ne key key' value d :
  key <> key' -> dict_get key' (dict_set key value d) = dict_get key' d.
Proof.
  intros Hne. induction d as [|[k v] d IH]; simpl.
  - rewrite (proj2 (String.eqb_neq _ _) Hne). reflexivity.
  - destruct (String.eqb_spec k key) as [->|Hk]; simpl.
    + rewrite (proj2 (String.eqb_neq _ _) Hne). reflexivity.
    + destruct (String.eqb k key'); [reflexivity|exact IH].
Qed.


Lemma has_add_toc_without l : has_add_toc (without_add_toc l) = false.
Proof.
  unfold has_add_toc, without_add_toc. induction l as [|a l IH]; [reflexivity|].
  destruct (eq_str a "add_toc") eqn:E.
  - rewrite filter_cons_False by (rewrite E; simpl; tauto). exact IH.
  - rewrite filter_cons_True by (rewrite E; simpl; tauto).
    simpl. rewrite E. exact IH.
Qed.



(** One file of the run changes no other file. *)
Lemma reset_file_other dry_run index_file st st' p :
  reset_file dry_run index_file st = Ok st' -> index_file <> p ->
  fs st' !! p = fs st !! p.
Proof.
  unfold reset_file. intros H Hne.
  destruct (load index_file (fs st)) as [data|e]; [|discriminate]. cbn in H.
  destruct (reset_data data) as [[data'|]|e]; try discriminate; cbn in H;
    injection H as <-; [|reflexivity].
  simpl. destruct dry_run; [reflexivity|]. apply lookup_insert_ne, Hne.
Qed.




End ResetAddTocFacts.

Section ResetAddTocScenarios.
Import Json ResetAddToc ResetSpec.



End ResetAddTocScenarios.

Section ConvertIpsFacts.
Import Json ipaddress ConvertIps ConvertIpsSpec.

Lemma foldl_Raise {A B} (f : result A -> B -> result A) (l : list B) e :
  (forall b e, f (Raise e) b = Raise e) -> foldl f (Raise e) l = Raise e.
Proof. intros Hf. induction l as [|b l IH]; simpl; [reflexivity|]. rewrite Hf. exact IH. Qed.

(** Only ranges that pass [validate_cidr] are kept. *)
Lemma valid_ranges_of_valid ranges : forall valid_ranges,
  valid_ranges_of ranges = Ok valid_ranges ->
  Forall (fun r => validate_cidr r = Ok true) valid_ranges.
Proof.
  induction ranges as [|r ranges IH]; intros vs H.
  - injection H as <-. constructor.
  - cbn [valid_ranges_of] in H.
    apply bind_Ok in H as (ok & Hok & H). apply bind_Ok in H as (rest & Hrest & H).
    injection H as <-. specialize (IH rest Hrest).
    destruct ok; [constructor; assumption|exact IH].
Qed.

(** A file whose name maps to no bot contributes no row. *)
Lemma convert_file_unmapped bot_map all_rows filename loaded :
  bot_map !! filename = None ->
  convert_file bot_map (Ok all_rows) (filename, loaded) = Ok all_rows.
Proof. intros H. unfold convert_file. cbn. rewrite H. reflexivity. Qed.

(** A file that fails to load contributes no row, and the loop goes on. *)
Lemma convert_file_load_error bot_map all_rows filename e :
  convert_file bot_map (Ok all_rows) (filename, Raise e) = Ok all_rows.
Proof.
  unfold convert_file. cbn. destruct (bot_map !! filename) as [bot_name|]; [|reflexivity].
  destruct (String.eqb bot_name ""); reflexivity.
Qed.

(** The rows added for one file carry ranges that pass [validate_cidr]
    and the name that [bot_map] has for the file. *)
Lemma convert_file_rows bot_map all_rows file rows :
  convert_file bot_map (Ok all_rows) file = Ok rows ->
  exists added, rows = all_rows ++ added
    /\ Forall (fun r => validate_cidr (network r) = Ok true
                        /\ bot_map !! fst file = Some (bot_name r)) added.
Proof.
  destruct file as [filename loaded]. unfold convert_file. cbn. intros H.
  destruct (bot_map !! filename) as [name|] eqn:Eb.
  2:{ injection H as <-. exists []. rewrite app_nil_r. split; [reflexivity|constructor]. }
  destruct (String.eqb name "").
  { injection H as <-. exists []. rewrite app_nil_r. split; [reflexivity|constructor]. }
  destruct loaded as [data|e].
  2:{ injection H as <-. exists []. rewrite app_nil_r. split; [reflexivity|constructor]. }
  apply bind_Ok in H as (ranges & _ & H). apply bind_Ok in H as (vs & Hvs & H).
  injection H as <-. eexists. split; [reflexivity|].
  apply valid_ranges_of_valid in Hvs. apply Forall_map.
  eapply Forall_impl; [exact Hvs|]. intros r Hr. simpl. auto.
Qed.

Lemma convert_files_rows bot_map files : forall all_rows rows,
  foldl (convert_file bot_map) (Ok all_rows) files = Ok rows ->
  exists added, rows = all_rows ++ added
    /\ Forall (fun r => validate_cidr (network r) = Ok true
                        /\ exists file, file ∈ files
                                        /\ bot_map !! fst file = Some (bot_name r)) added.
Proof.
  induction files as [|file files IH]; intros all_rows rows H.
  - injection H as <-. exists []. rewrite app_nil_r. split; [reflexivity|constructor].
  - cbn [foldl] in H.
    destruct (convert_file bot_map (Ok all_rows) file) as [rows1|e] eqn:E.
    2:{ rewrite foldl_Raise in H by reflexivity. discriminate. }
    apply convert_file_rows in E as (added1 & -> & H1).
    apply IH in H as (added2 & -> & H2).
    exists (added1 ++ added2). rewrite app_assoc. split; [reflexivity|].
    apply Forall_app. split.
    + eapply Forall_impl; [exact H1|]. intros r (Hv & Hb). split; [exact Hv|].
      exists file. split; [apply list_elem_of_here|exact Hb].
    + eapply Forall_impl; [exact H2|]. intros r (Hv & f & Hf & Hb). split; [exact Hv|].
      exists f. split; [apply list_elem_of_further, Hf|exact Hb].
Qed.

(** The names in [bot_map] are names of configured bots. *)
Lemma make_bot_map_names bots : forall m m',
  foldl add_bot (Ok m) bots = Ok m' ->
  forall filename name, m' !! filename = Some name ->
    m !! filename = Some name \/ name ∈ configured_names bots.
Proof.
  induction bots as [|bot bots IH]; intros m m' H filename name Hn.
  - injection H as <-. left. exact Hn.
  - cbn [foldl] in H.
    destruct (add_bot (Ok m) bot) as [m1|e] eqn:E.
    2:{ rewrite foldl_Raise in H by reflexivity. discriminate. }
    destruct (IH m1 m' H filename name Hn) as [H1|H1].
    2:{ right. unfold configured_names in *.
        apply list_elem_of_omap in H1 as (x & Hx & Hfx). apply list_elem_of_omap.
        exists x. split; [apply list_elem_of_further, Hx|exact Hfx]. }
    unfold add_bot in E. cbn in E.
    destruct bot as [ |b|n|f|s|l|d]; try discriminate. cbn in E.
    destruct (dict_get "ip_ranges_url" d) as [url|] eqn:Eu.
    2:{ cbn in E. injection E as <-. left. exact H1. }
    destruct (truthy_json url) eqn:Et.
    2:{ injection E as <-. left. exact H1. }
    destruct (dict_get "name" d) as [[ |b|n|f|s|l|d']|] eqn:En; try discriminate.
    cbn in E. injection E as <-.
    destruct (decide (lower (replace_char " " "-" s) +:+ ".json" = filename)) as [<-|Hne].
    + rewrite lookup_insert_eq in H1. injection H1 as <-.
      right. unfold configured_names. apply list_elem_of_omap.
      exists (JDict d). split; [apply list_elem_of_here|]. rewrite Eu, En, Et. reflexivity.
    + rewrite lookup_insert_ne in H1 by exact Hne. left. exact H1.
Qed.

(** The rows that [main] collects: their ranges pass [validate_cidr], and
    their names are names of bots of the configuration that have an
    [ip_ranges_url]. *)
Lemma collect_rows_valid bots files rows :
  collect_rows (JList bots) files = Ok rows ->
  Forall (fun r => validate_cidr (network r) = Ok true
                   /\ bot_name r ∈ configured_names bots) rows.
Proof.
  unfold collect_rows, make_bot_map. cbn. intros H.
  apply bind_Ok in H as (bot_map & Hm & H).
  apply convert_files_rows in H as (added & -> & H). simpl.
  eapply Forall_impl; [exact H|]. intros r (Hv & f & _ & Hb). split; [exact Hv|].
  destruct (make_bot_map_names bots ∅ bot_map Hm _ _ Hb) as [He|Hin]; [|exact Hin].
  rewrite lookup_empty in He. discriminate.
Qed.

(** What [main] writes: the header, then one record per collected row.
    The range of a row passed [validate_cidr] as the JSON value it is;
    where that value is a string, the text written is that string, and
    it passes [validate_cidr] again. *)
Lemma main_written bots files out :
  main (JList bots) files = Ok out ->
  exists rows,
    out = ["network"; "bot_name"] :: map (fun r => [csv_text (network r); bot_name r]) rows
    /\ Forall (fun r => validate_cidr (network r) = Ok true
                        /\ bot_name r ∈ configured_names bots
                        /\ (forall s, network r = JStr s ->
                              validate_cidr (JStr (csv_text (network r))) = Ok true)) rows.
Proof.
  unfold main. intros H. apply bind_Ok in H as (rows & Hrows & H). injection H as <-.
  exists rows. split; [reflexivity|].
  apply collect_rows_valid in Hrows.
  eapply Forall_impl; [exact Hrows|]. intros r (Hv & Hn). split_and!; [exact Hv|exact Hn|].
  intros s Hs. rewrite Hs in *. exact Hv.
Qed.

(** C10.  The claim fails on the code for a prefix that is a number: for
    the bot GPTBot and the file gptbot.json with the entry
    [{"ipv4Prefix": 3232235777}], [validate_cidr] accepts the integer
    (an integer below 2^32 is an IPv4 network for [ip_network]), and the
    row [3232235777,GPTBot] is written; its network field is not a CIDR
    text, [validate_cidr] rejects it. *)
Theorem C10_integer_prefix_is_written :
  let bots := JList [JDict [("name", JStr "GPTBot");
                            ("ip_ranges_url", JStr "https://openai.com/gptbot.json")]] in
  let data := JDict [("prefixes", JList [JDict [("ipv4Prefix", JInt 3232235777)]])] in
  validate_cidr (JInt 3232235777) = Ok true
  /\ main bots [("gptbot.json", Ok data)]
     = Ok [["network"; "bot_name"]; ["3232235777"; "GPTBot"]]
  /\ validate_cidr (JStr "3232235777") = Ok false.
Proof. cbv zeta. split_and!; vm_compute; reflexivity. Qed.

End ConvertIpsFacts.

Section ResetAddTocRuns.
Import Json ResetAddToc ResetSpec ResetRunSpec.

(** The outcome of [reset_file] depends on the file system only through
    what [index_file] holds. *)
Lemma reset_file_frame dry_run index_file st :
  match reset_file dry_run index_file st with
  | Ok st' => forall p, index_file <> p -> fs st' !! p = fs st !! p
  | Raise _ => True
  end.
Proof.
  destruct (reset_file dry_run index_file st) as [st'|e] eqn:E; [|exact I].
  intros p Hp. exact (reset_file_other _ _ _ _ _ E Hp).
Qed.

Lemma reset_files_frame dry_run index_files : forall st p,
  p ∉ index_files ->
  fs (fst (reset_files dry_run index_files st)) !! p = fs st !! p.
Proof.
  induction index_files as [|q rest IH]; intros st p Hp; [reflexivity|].
  cbn [reset_files]. apply not_elem_of_cons in Hp as (Hne & Hp).
  destruct (reset_file dry_run q st) as [st1|e] eqn:E; [|reflexivity].
  rewrite IH by exact Hp. apply (reset_file_other _ _ _ _ _ E). congruence.
Qed.

(** A document that the loop body rewrites is skipped when read again. *)
Lemma reset_data_settled data data' :
  reset_data data = Ok (Some data') -> reset_data data' = Ok None.
Proof.
  unfold reset_data. intros H.
  destruct data as [ |b|n|f|s|l|d]; try discriminate. cbn in H.
  destruct (contains _ _) as [found|e]; [|discriminate]. cbn in H.
  destruct found; [|discriminate]. cbn in H.
  destruct (iterate _) as [items|e]; [|discriminate]. cbn in H.
  injection H as <-. cbn.
  rewrite dict_get_set_ne by discriminate. rewrite dict_get_set_eq. cbn.
  change (existsb _ _) with (has_add_toc (without_add_toc items)).
  rewrite has_add_toc_without. reflexivity.
Qed.

Lemma reset_file_settles index_file st st' :
  reset_file false index_file st = Ok st' ->
  exists data, fs st' !! index_file = Some (Document data) /\ reset_data data = Ok None.
Proof.
  unfold reset_file, load. intros H.
  destruct (fs st !! index_file) as [[data|]|] eqn:E; try discriminate. cbn in H.
  destruct (reset_data data) as [[data'|]|e] eqn:Er; try discriminate; cbn in H;
    injection H as <-.
  - exists data'. cbn. rewrite lookup_insert_eq. split; [reflexivity|].
    exact (reset_data_settled _ _ Er).
  - exists data. split; assumption.
Qed.

Lemma reset_file_skips dry_run index_file st data :
  fs st !! index_file = Some (Document data) -> reset_data data = Ok None ->
  reset_file dry_run index_file st = Ok st.
Proof. intros E Er. unfold reset_file, load. rewrite E. cbn. rewrite Er. reflexivity. Qed.

Lemma reset_files_settle index_files : forall st st',
  reset_files false index_files st = (st', None) ->
  forall p,
    p ∈ index_files
    \/ (exists data, fs st !! p = Some (Document data) /\ reset_data data = Ok None) ->
    exists data, fs st' !! p = Some (Document data) /\ reset_data data = Ok None.
Proof.
  induction index_files as [|q rest IH]; intros st st' H p Hp.
  - injection H as <-. destruct Hp as [Hp|Hp]; [|exact Hp]. inversion Hp.
  - cbn [reset_files] in H.
    destruct (reset_file false q st) as [st1|e] eqn:E; [|discriminate].
    apply (IH _ _ H).
    destruct (decide (q = p)) as [->|Hne].
    + right. exact (reset_file_settles _ _ _ E).
    + destruct Hp as [Hp|(data & Hd & Hr)].
      * apply elem_of_cons in Hp as [->|Hp]; [congruence|]. left. exact Hp.
      * right. exists data. split; [|exact Hr].
        rewrite (reset_file_other _ _ _ _ _ E Hne). exact Hd.
Qed.

Lemma reset_files_skip_all dry_run index_files st :
  (forall p, p ∈ index_files ->
     exists data, fs st !! p = Some (Document data) /\ reset_data data = Ok None) ->
  reset_files dry_run index_files st = (st, None).
Proof.
  induction index_files as [|q rest IH]; intros H; [reflexivity|].
  cbn [reset_files].
  destruct (H q (list_elem_of_here _ _)) as (data & Hd & Hr).
  rewrite (reset_file_skips _ _ _ _ Hd Hr). apply IH.
  intros p Hp. apply H, list_elem_of_further, Hp.
Qed.

(** What one iteration does, by what the file holds. *)
Lemma reset_file_outcome dry_run index_file st :
  if processable (fs st !! index_file)
  then exists st',
         reset_file dry_run index_file st = Ok st'
         /\ updated st' = updated st
                          + (if mentions_add_toc (fs st !! index_file) then 1 else 0)
  else exists e, reset_file dry_run index_file st = Raise e.
Proof.
  unfold reset_file, load, processable, mentions_add_toc.
  destruct (fs st !! index_file) as [[data|]|]; try (eexists; reflexivity).
  destruct data as [ |b|n|f|s|l|d]; try (eexists; reflexivity).
  unfold reset_data. cbn.
  destruct (dict_get "applied_actions" d) as [[ |b|n|f|s|l|d']|]; cbn;
    try (eexists; reflexivity).
  - destruct (is_substring "add_toc" s); cbn; eexists; (split; [reflexivity|cbn; lia]).
  - destruct (existsb _ l); cbn; eexists; (split; [reflexivity|cbn; lia]).
  - destruct (existsb _ d'); cbn; eexists; (split; [reflexivity|cbn; lia]).
  - eexists. split; [reflexivity|lia].
Qed.

Lemma reset_files_outcome dry_run (fs0 : filesystem) index_files : forall st,
  NoDup index_files ->
  (forall p, p ∈ index_files -> fs st !! p = fs0 !! p) ->
  (snd (reset_files dry_run index_files st) = None
   <-> Forall (fun p => processable (fs0 !! p) = true) index_files)
  /\ (snd (reset_files dry_run index_files st) = None ->
      updated (fst (reset_files dry_run index_files st))
      = updated st
        + Z.of_nat (length (List.filter (fun p => mentions_add_toc (fs0 !! p))
                                        index_files))).
Proof.
  induction index_files as [|q rest IH]; intros st Hnd Hfs.
  - cbn. split; [split; [constructor|reflexivity]|lia].
  - apply NoDup_cons in Hnd as (Hq & Hnd). cbn [reset_files List.filter].
    pose proof (reset_file_outcome dry_run q st) as Hout.
    rewrite (Hfs q (list_elem_of_here _ _)) in Hout.
    destruct (processable (fs0 !! q)) eqn:Ep.
    + destruct Hout as (st1 & E & Hup). rewrite E.
      destruct (IH st1 Hnd) as (Hiff & Hcount).
      { intros p Hp. rewrite <- (Hfs p (list_elem_of_further _ _ _ Hp)).
        apply (reset_file_other _ _ _ _ _ E). intros ->. contradiction. }
      split.
      * rewrite Hiff. split; [intros H; constructor; assumption|].
        intros H. apply Forall_cons in H as (_ & H). exact H.
      * intros He. rewrite (Hcount He), Hup.
        destruct (mentions_add_toc (fs0 !! q)); cbn [length]; lia.
    + destruct Hout as (e & E). rewrite E. cbn. split; [|discriminate].
      split; [discriminate|]. intros H. apply Forall_cons in H as (H & _). congruence.
Qed.

(** X14.  Running the script again after a run that ended
    without exception changes nothing: every listed file is skipped, no
    file is rewritten, and the count of updated articles is 0. *)
Theorem reset_again_changes_nothing (dry_run : bool) (index_files : list string)
        (fs0 : filesystem) (st : state) :
  main false index_files fs0 = (st, None) ->
  main dry_run index_files (fs st) = (State 0 (fs st), None).
Proof.
  unfold main. intros H. apply reset_files_skip_all. cbn [fs].
  intros p Hp. apply (reset_files_settle _ _ _ H). left. exact Hp.
Qed.

(** X15.  The script, with or without [--dry-run], and
    whether it ends with an exception or not, leaves every file that is
    not among the [index.json] files of the run as it was. *)
Theorem reset_leaves_unlisted_files (dry_run : bool) (index_files : list string)
        (fs0 : filesystem) (p : string) :
  p ∉ index_files ->
  fs (fst (main dry_run index_files fs0)) !! p = fs0 !! p.
Proof. intros Hp. unfold main. rewrite reset_files_frame by exact Hp. reflexivity. Qed.


(** X17.  On distinct paths, in a run that ends without
    exception, with or without [--dry-run], the number of articles
    reported as updated is the number of listed files for which
    ["add_toc" in applied_actions] holds. *)
Theorem reset_counts_files_with_add_toc (dry_run : bool) (index_files : list string)
        (fs0 : filesystem) (st : state) :
  NoDup index_files ->
  main dry_run index_files fs0 = (st, None) ->
  updated st
  = Z.of_nat (length (List.filter (fun p => mentions_add_toc (fs0 !! p)) index_files)).
Proof.
  intros Hnd H. unfold main in H.
  destruct (reset_files_outcome dry_run fs0 index_files (State 0 fs0) Hnd) as (_ & Hc);
    [reflexivity|].
  rewrite H in Hc. cbn [fst snd updated] in Hc. rewrite Hc by reflexivity. lia.
Qed.

End ResetAddTocRuns.

Section ResetAddTocRunScenarios.
Import Json ResetAddToc ResetSpec ResetRunSpec.

Lemma reset_again_changes_nothing_witness :
  let intro := "posts/intro/index.json" in
  let guide := "posts/guide/index.json" in
  let fs0 : filesystem :=
    {[intro := Document (JDict [("applied_actions", JList [JStr "add_toc"; JStr "add_links"]);
                                ("last_pipeline", JStr "enhance")]);
      guide := Document (JDict [("title", JStr "Guide")])]} in
  let fs1 : filesystem :=
    {[intro := Document (JDict [("applied_actions", JList [JStr "add_links"]);
                                ("last_pipeline", JStr "generate")]);
      guide := Document (JDict [("title", JStr "Guide")])]} in
  main false [intro; guide] fs0 = (State 1 fs1, None)
  /\ main false [intro; guide] fs1 = (State 0 fs1, None).
Proof.
  cbv zeta. split; [vm_compute; reflexivity|].
  refine (reset_again_changes_nothing false
           ["posts/intro/index.json"; "posts/guide/index.json"]
           {["posts/intro/index.json" :=
               Document (JDict [("applied_actions",
                                 JList [JStr "add_toc"; JStr "add_links"]);
                                ("last_pipeline", JStr "enhance")]);
             "posts/guide/index.json" := Document (JDict [("title", JStr "Guide")])]}
           (State 1 {["posts/intro/index.json" :=
                        Document (JDict [("applied_actions", JList [JStr "add_links"]);
                                         ("last_pipeline", JStr "generate")]);
                      "posts/guide/index.json" :=
                        Document (JDict [("title", JStr "Guide")])]}) _).
  vm_compute. reflexivity.
Defined.

Lemma reset_leaves_unlisted_files_witness :
  let intro := "posts/intro/index.json" in
  let notes := "posts/intro/notes.json" in
  let fs0 : filesystem :=
    {[intro := Document (JDict [("applied_actions", JList [JStr "add_toc"])]);
      notes := Document (JDict [("applied_actions", JList [JStr "add_toc"])])]} in
  fs (fst (main false [intro] fs0)) !! notes = fs0 !! notes.
Proof.
  cbv zeta.
  apply (reset_leaves_unlisted_files false ["posts/intro/index.json"]).
  apply (bool_decide_unpack _). vm_compute. exact I.
Defined.


Lemma reset_counts_files_with_add_toc_witness :
  let intro := "posts/intro/index.json" in
  let guide := "posts/guide/index.json" in
  let fs0 : filesystem :=
    {[intro := Document (JDict [("applied_actions", JList [JStr "add_toc"; JStr "add_links"]);
                                ("last_pipeline", JStr "enhance")]);
      guide := Document (JDict [("title", JStr "Guide")])]} in
  updated (fst (main true [intro; guide] fs0))
  = Z.of_nat (length (List.filter (fun p => mentions_add_toc (fs0 !! p)) [intro; guide])).
Proof.
  cbv zeta.
  apply (reset_counts_files_with_add_toc true
           ["posts/intro/index.json"; "posts/guide/index.json"]).
  - apply (bool_decide_unpack _). vm_compute. exact I.
  - vm_compute. reflexivity.
Defined.

End ResetAddTocRunScenarios.

Section ExceptionsOfIpaddress.
Import ipaddress IpSpec.

Lemma bind_Raise {A B} (r : result A) (k : A -> result B) e :
  (r ≫= k) = Raise e -> r = Raise e \/ exists a, r = Ok a /\ k a = Raise e.
Proof. destruct r as [a|e']; cbn; intros H; [right; eauto|left; congruence]. Qed.

Lemma mapM_Raise {A B} (f : A -> result B) (l : list A) e :
  mapM f l = Raise e -> exists x, x ∈ l /\ f x = Raise e.
Proof.
  induction l as [|x l IH]; cbn; intros H; [discriminate|].
  apply bind_Raise in H as [H|(y & Hy & H)].
  - exists x. split; [apply list_elem_of_here|exact H].
  - apply bind_Raise in H as [H|(ys & _ & H)]; [|discriminate].
    destruct (IH H) as (z & Hz & Hfz). exists z. split; [apply list_elem_of_further, Hz|exact Hfz].
Qed.

Lemma try_except_Raise {A} (r : result A) c h e :
  try_except r c h = Raise e ->
  (r = Raise e /\ c e = false) \/ exists e', r = Raise e' /\ c e' = true /\ h e' = Raise e.
Proof.
  destruct r as [a|e']; cbn; [discriminate|].
  destruct (c e') eqn:Ec; intros H.
  - right. eauto.
  - left. injection H as <-. auto.
Qed.

Lemma parse_octet_raises s e : _parse_octet s = Raise e -> e = ValueError.
Proof.
  unfold _parse_octet. intros H.
  repeat match type of H with
         | (if ?c then _ else _) = _ => destruct c
         end; congruence.
Qed.

Lemma v4_ip_int_from_string_raises s e :
  v4_ip_int_from_string s = Raise e -> e = AddressValueError.
Proof.
  unfold v4_ip_int_from_string. intros H.
  destruct (String.eqb s ""); [congruence|].
  destruct (negb _); [congruence|].
  apply try_except_Raise in H as [(H & Hc)|(e' & _ & _ & H)]; [|congruence].
  apply bind_Raise in H as [H|(bs & _ & H)]; [|discriminate].
  apply mapM_Raise in H as (x & _ & H). apply parse_octet_raises in H. subst e. discriminate.
Qed.

Lemma check_int_address_raises ip n e :
  _check_int_address ip n = Raise e -> e = AddressValueError.
Proof.
  unfold _check_int_address. destruct (n <? 0); [congruence|].
  destruct (_ <? n); congruence.
Qed.

Lemma IPv4Address_init_raises a e :
  IPv4Address__init__ a = Raise e -> e = AddressValueError.
Proof.
  destruct a as [n|s]; cbn; intros H.
  - apply bind_Raise in H as [H|(? & _ & H)]; [|discriminate].
    exact (check_int_address_raises _ _ _ H).
  - destruct (contains_char "/" s); [congruence|].
    apply bind_Raise in H as [H|(? & _ & H)]; [|discriminate].
    exact (v4_ip_int_from_string_raises _ _ H).
Qed.

(** [l[i]] for an index within the list, counted from either end. *)
Lemma getitem_Ok {A} (l : list A) i :
  - len_list l <= i < len_list l -> exists x, getitem l i = Ok x.
Proof.
  unfold getitem, len_list. intros Hi.
  destruct (Z.ltb_spec i 0).
  - destruct (Z.ltb_spec (i + Z.of_nat (length l)) 0); [lia|].
    destruct (l !! Z.to_nat (i + Z.of_nat (length l))) as [x|] eqn:E; [eauto|].
    apply lookup_ge_None in E. lia.
  - destruct (Z.ltb_spec i 0); [lia|].
    destruct (l !! Z.to_nat i) as [x|] eqn:E; [eauto|].
    apply lookup_ge_None in E. lia.
Qed.

Lemma parse_hextet_raises s e : _parse_hextet s = Raise e -> e = ValueError.
Proof.
  unfold _parse_hextet. intros H.
  repeat match type of H with
         | (if ?c then _ else _) = _ => destruct c
         end; congruence.
Qed.

Lemma elem_of_range i lo hi : i ∈ range lo hi <-> lo <= i < hi.
Proof. unfold range. rewrite elem_of_seqZ. lia. Qed.

Lemma find_skip_index_step_raises parts l : forall acc e,
  (forall i, i ∈ l -> - len_list parts <= i < len_list parts) ->
  (forall e, acc = Raise e -> e = AddressValueError) ->
  foldl (fun acc i =>
           skip_index ← acc;
           part ← getitem parts i;
           if String.eqb part "" then
             match skip_index with
             | Some _ => Raise AddressValueError
             | None => Ok (Some i)
             end
           else Ok skip_index) acc l = Raise e ->
  e = AddressValueError.
Proof.
  induction l as [|i l IH]; intros acc e Hl Hacc H; [exact (Hacc _ H)|].
  cbn [foldl] in H. apply (IH _ _ (fun j Hj => Hl j (list_elem_of_further _ _ _ Hj))) in H;
    [exact H|].
  intros e' He'. apply bind_Raise in He' as [He'|(sk & _ & He')]; [exact (Hacc _ He')|].
  destruct (getitem_Ok parts i (Hl i (list_elem_of_here _ _))) as (part & Hp).
  rewrite Hp in He'. cbn in He'.
  destruct (String.eqb part ""); [|discriminate]. destruct sk; congruence.
Qed.

Lemma find_skip_index_raises parts e :
  find_skip_index parts = Raise e -> e = AddressValueError.
Proof.
  apply find_skip_index_step_raises; [|discriminate].
  intros i Hi. apply elem_of_range in Hi. lia.
Qed.

Lemma shift_in_hextets_raises parts indices : forall ip_int e,
  (forall i, i ∈ indices -> - len_list parts <= i < len_list parts) ->
  shift_in_hextets parts indices ip_int = Raise e -> e = ValueError.
Proof.
  unfold shift_in_hextets.
  assert (forall acc e,
    (forall i, i ∈ indices -> - len_list parts <= i < len_list parts) ->
    (forall e, acc = Raise e -> e = ValueError) ->
    foldl (fun acc i =>
             ip_int ← acc;
             part ← getitem parts i;
             h ← _parse_hextet part;
             Ok (Z.lor (Z.shiftl ip_int 16) h)) acc indices = Raise e ->
    e = ValueError) as Hgen.
  { induction indices as [|i l IH]; intros acc e Hl Hacc H; [exact (Hacc _ H)|].
    cbn [foldl] in H.
    apply (IH _ _ (fun j Hj => Hl j (list_elem_of_further _ _ _ Hj))) in H; [exact H|].
    intros e' He'. apply bind_Raise in He' as [He'|(n & _ & He')]; [exact (Hacc _ He')|].
    destruct (getitem_Ok parts i (Hl i (list_elem_of_here _ _))) as (part & Hp).
    rewrite Hp in He'. cbn in He'.
    apply bind_Raise in He' as [He'|(h & _ & He')]; [|discriminate].
    exact (parse_hextet_raises _ _ He'). }
  intros ip_int e Hl. apply Hgen; [exact Hl|discriminate].
Qed.

Lemma v6_ip_int_from_string_raises s e :
  v6_ip_int_from_string s = Raise e -> e = AddressValueError.
Proof.
  unfold v6_ip_int_from_string. intros H.
  destruct (String.eqb s ""); [congruence|]. cbv zeta in H.
  destruct (len_list (split ":" s) <? 3) eqn:E3; [congruence|]. apply Z.ltb_ge in E3.
  apply bind_Raise in H as [H|(last_part & _ & H)].
  { destruct (getitem_Ok (split ":" s) (-1)) as (x & Hx); [lia|congruence]. }
  apply bind_Raise in H as [H|(parts & Hparts & H)].
  { destruct (contains_char "." last_part); [|discriminate].
    apply bind_Raise in H as [H|(a & _ & H)]; [|discriminate].
    exact (IPv4Address_init_raises _ _ H). }
  assert (3 <= len_list parts) as Hlen.
  { destruct (contains_char "." last_part); [|injection Hparts as <-; exact E3].
    apply bind_Ok in Hparts as (a & _ & Hparts). injection Hparts as <-.
    unfold len_list in *. rewrite length_app, removelast_firstn_len, length_take.
    cbn [length]. lia. }
  destruct (_HEXTET_COUNT + 1 <? len_list parts); [congruence|].
  apply bind_Raise in H as [H|(skip_index & Hskip & H)];
    [exact (find_skip_index_raises _ _ H)|].
  apply bind_Raise in H as [H|(first_part & _ & H)].
  { destruct (getitem_Ok parts 0) as (x & Hx); [lia|congruence]. }
  apply bind_Raise in H as [H|(last_part' & _ & H)].
  { destruct (getitem_Ok parts (-1)) as (x & Hx); [lia|congruence]. }
  apply bind_Raise in H as [H|([[parts_hi parts_lo] parts_skipped] & Hc & H)].
  { destruct skip_index as [i|].
    - apply bind_Raise in H as [H|(hi & _ & H)].
      { destruct (String.eqb first_part ""); [|discriminate].
        cbv zeta in H. destruct (negb _); congruence. }
      apply bind_Raise in H as [H|(lo & _ & H)].
      { destruct (String.eqb last_part' ""); [|discriminate].
        cbv zeta in H. destruct (negb _); congruence. }
      cbv zeta in H. destruct (_ <? 1); congruence.
    - destruct (negb _); [congruence|].
      destruct (String.eqb first_part ""); [congruence|].
      destruct (String.eqb last_part' ""); congruence. }
  assert (parts_hi <= len_list parts /\ parts_lo <= len_list parts) as (Hhi & Hlo).
  { destruct skip_index as [i|].
    - apply find_skip_index_range in Hskip.
      apply bind_Ok in Hc as (hi & Hh & Hc).
      apply bind_Ok in Hc as (lo & Hl & Hc).
      cbv zeta in Hc. destruct (_ <? 1); [discriminate|].
      injection Hc as <- <- <-. split.
      + destruct (String.eqb first_part ""); [|injection Hh as <-; lia].
        cbv zeta in Hh. destruct (negb (i - 1 =? 0)); [discriminate|].
        injection Hh as <-. lia.
      + destruct (String.eqb last_part' ""); [|injection Hl as <-; lia].
        cbv zeta in Hl. destruct (negb (len_list parts - i - 1 - 1 =? 0)); [discriminate|].
        injection Hl as <-. lia.
    - destruct (negb _); [discriminate|].
      destruct (String.eqb first_part ""); [discriminate|].
      destruct (String.eqb last_part' ""); [discriminate|].
      injection Hc as <- <- <-. lia. }
  apply try_except_Raise in H as [(H & Hc')|(e' & _ & _ & H)]; [|congruence].
  assert (e = ValueError) as ->; [|discriminate].
  apply bind_Raise in H as [H|(ip_int & _ & H)].
  - apply shift_in_hextets_raises in H; [exact H|].
    intros i Hi. apply elem_of_range in Hi. lia.
  - cbv zeta in H. apply shift_in_hextets_raises in H; [exact H|].
    intros i Hi. apply elem_of_range in Hi. lia.
Qed.

Lemma IPv6Address_init_raises a e :
  IPv6Address__init__ a = Raise e -> e = AddressValueError.
Proof.
  destruct a as [n|s]; cbn; intros H.
  - apply bind_Raise in H as [H|(? & _ & H)]; [|discriminate].
    exact (check_int_address_raises _ _ _ H).
  - destruct (contains_char "/" s); [congruence|].
    apply bind_Raise in H as [H|([addr_str scope_id] & _ & H)].
    + unfold _split_scope_id in H. destruct (partition "%" s) as [[a sep] sc].
      destruct (negb sep); [discriminate|]. destruct (_ || _); congruence.
    + apply bind_Raise in H as [H|(? & _ & H)]; [|discriminate].
      exact (v6_ip_int_from_string_raises _ _ H).
Qed.


(** [ip_address] raises nothing but [ValueError]. *)
Lemma ip_address_raises a e : ip_address a = Raise e -> e = ValueError.
Proof.
  unfold ip_address. intros H.
  destruct (IPv4Address__init__ a) as [x|e4] eqn:E4; [discriminate|].
  apply IPv4Address_init_raises in E4 as ->. cbn in H.
  destruct (IPv6Address__init__ a) as [x|e6] eqn:E6; [discriminate|].
  apply IPv6Address_init_raises in E6 as ->. cbn in H. congruence.
Qed.









End ExceptionsOfIpaddress.

Section OutcomesOfIpRangeToCidrs.
Import ipaddress IpSpec ConvertIpData.

Lemma addr_le_or_gt a b :
  version a = version b ->
  (addr_le a b = Ok true /\ addr_gt a b = Ok false)
  \/ (addr_le a b = Ok false /\ addr_gt a b = Ok true).
Proof.
  intros Hv. unfold addr_le, addr_gt, addr_lt. rewrite Hv, Z.eqb_refl. cbn.
  destruct (_ip a =? _ip b) eqn:E; cbn.
  - destruct (addr_eq a b); cbn; auto.
  - assert (addr_eq a b = false) as ->.
    { unfold addr_eq. rewrite E. destruct a; reflexivity. }
    destruct (_ip a <? _ip b); cbn; auto.
Qed.

(** The outcome of [ip_range_to_cidrs], by the outcome of parsing the two
    texts and comparing the addresses. *)
Lemma ip_range_to_cidrs_cases start_ip end_ip :
  match ip_address (AStr (str_opt start_ip)), ip_address (AStr (str_opt end_ip)) with
  | Ok a, Ok b =>
      if version a =? version b then
        match addr_gt a b with
        | Ok false => exists cidrs, ip_range_to_cidrs start_ip end_ip = Ok cidrs
                                    /\ cidrs <> []
        | _ => ip_range_to_cidrs start_ip end_ip = Ok []
        end
      else ip_range_to_cidrs start_ip end_ip = Raise TypeError
  | _, _ => ip_range_to_cidrs start_ip end_ip = Ok []
  end.
Proof.
  destruct (ip_address (AStr (str_opt start_ip))) as [a|e] eqn:Ha.
  2:{ apply ip_address_raises in Ha as He. subst e.
      exact (ip_range_to_cidrs_invalid_start _ _ _ Ha eq_refl). }
  destruct (ip_address (AStr (str_opt end_ip))) as [b|e] eqn:Hb.
  2:{ apply ip_address_raises in Hb as He. subst e.
      exact (ip_range_to_cidrs_invalid_end _ _ _ _ Ha Hb eq_refl). }
  destruct (Z.eqb_spec (version a) (version b)) as [Hv|Hv].
  2:{ exact (ip_range_to_cidrs_mixed_families _ _ _ _ Ha Hb Hv). }
  destruct (addr_le_or_gt a b Hv) as [(Hle & Hgt)|(_ & Hgt)]; rewrite Hgt.
  - pose proof (ip_address_valid _ _ Ha) as Va.
    pose proof (ip_address_valid _ _ Hb) as Vb.
    destruct (summarize_address_range_tiles a b Va Vb Hle) as (nets & Hs & Hne & Ht).
    assert (_ip b + 1 <= _ALL_ONES (class_of a) + 1) as Hhi.
    { apply version_class in Hv. rewrite Hv. destruct Vb. lia. }
    destruct (tiles_network_str _ _ _ _ (proj1 Va) Hhi Ht) as (cidrs & Hm & Hf).
    exists cidrs. split; [eapply ip_range_to_cidrs_Ok; eassumption|].
    intros ->. apply Forall2_nil_inv_r in Hf. contradiction.
  - exact (ip_range_to_cidrs_reversed _ _ _ _ Ha Hb Hgt).
Qed.

(** X1.  [ip_range_to_cidrs] raises no exception but
    [TypeError], and raises it exactly when both texts are addresses and
    the two are of different families. *)
Theorem ip_range_to_cidrs_raises_iff_mixed_families (start_ip end_ip : option string) :
  (forall e, ip_range_to_cidrs start_ip end_ip = Raise e -> e = TypeError)
  /\ (ip_range_to_cidrs start_ip end_ip = Raise TypeError
      <-> exists a b, ip_address (AStr (str_opt start_ip)) = Ok a
                      /\ ip_address (AStr (str_opt end_ip)) = Ok b
                      /\ version a <> version b).
Proof.
  pose proof (ip_range_to_cidrs_cases start_ip end_ip) as H.
  destruct (ip_address (AStr (str_opt start_ip))) as [a|ea].
  2:{ rewrite H. split; [discriminate|]. split; [discriminate|].
      intros (a & b & Ha & _). discriminate. }
  destruct (ip_address (AStr (str_opt end_ip))) as [b|eb].
  2:{ rewrite H. split; [discriminate|]. split; [discriminate|].
      intros (a' & b' & _ & Hb & _). discriminate. }
  destruct (Z.eqb_spec (version a) (version b)) as [Hv|Hv].
  - assert (exists cidrs, ip_range_to_cidrs start_ip end_ip = Ok cidrs) as (cidrs & ->).
    { destruct (addr_gt a b) as [[|]|]; [eauto|destruct H as (c & Hc & _); eauto|eauto]. }
    split; [discriminate|]. split; [discriminate|].
    intros (a' & b' & [= <-] & [= <-] & Hne). contradiction.
  - rewrite H. split; [congruence|]. split; [|reflexivity].
    intros _. exists a, b. auto.
Qed.

(** X2.  [ip_range_to_cidrs] returns the empty list exactly
    when the start or the end is not an address, or both are addresses
    of one family and the start is greater than the end; an ordered range
    of one family never gives the empty list. *)
Theorem ip_range_to_cidrs_empty_iff_discarded (start_ip end_ip : option string) :
  ip_range_to_cidrs start_ip end_ip = Ok []
  <-> (exists e, ip_address (AStr (str_opt start_ip)) = Raise e)
      \/ (exists e, ip_address (AStr (str_opt end_ip)) = Raise e)
      \/ (exists a b, ip_address (AStr (str_opt start_ip)) = Ok a
                      /\ ip_address (AStr (str_opt end_ip)) = Ok b
                      /\ addr_gt a b = Ok true).
Proof.
  pose proof (ip_range_to_cidrs_cases start_ip end_ip) as H.
  destruct (ip_address (AStr (str_opt start_ip))) as [a|ea].
  2:{ split; [intros _; left; eauto|intros _; exact H]. }
  destruct (ip_address (AStr (str_opt end_ip))) as [b|eb].
  2:{ split; [intros _; right; left; eauto|intros _; exact H]. }
  split.
  - intros He. right. right. exists a, b. split_and!; try reflexivity.
    destruct (Z.eqb_spec (version a) (version b)) as [Hv|Hv]; [|congruence].
    destruct (addr_le_or_gt a b Hv) as [(_ & Hgt)|(_ & Hgt)]; [|exact Hgt].
    rewrite Hgt in H. destruct H as (cidrs & Hc & Hne). congruence.
  - intros [(e & He)|[(e & He)|(a' & b' & [= <-] & [= <-] & Hgt)]]; try discriminate.
    rewrite Hgt in H.
    destruct (Z.eqb_spec (version a) (version b)) as [Hv|Hv]; [exact H|].
    unfold addr_gt, addr_lt in Hgt.
    destruct (Z.eqb_spec (version a) (version b)); [contradiction|discriminate].
Qed.

End OutcomesOfIpRangeToCidrs.

Section RunsOfProcessCsv.
Import ipaddress ConvertIpData PipelineSpec PipelineRunSpec.

Variable COUNTRY_NAMES : gmap string string.
Variable output_dir : string.
Variable max_size_mb : Z.

Local Abbreviation part := (get_csv_path output_dir).
Local Abbreviation single := (single_csv_path output_dir).

(** The files written: the loop writes to the files of [csv_files]
    only. *)
Lemma write_row_frame rd st :
  path (outfile st) ∈ csv_files st ->
  let st' := write_row output_dir max_size_mb rd st in
  path (outfile st') ∈ csv_files st'
  /\ (forall p, p ∈ csv_files st -> p ∈ csv_files st')
  /\ (forall p, p ∉ csv_files st' -> fs st' !! p = fs st !! p).
Proof.
  intros Hin. unfold write_row. cbv zeta.
  destruct (_ <=? _); cbn.
  - split_and!.
    + apply elem_of_app. right. apply list_elem_of_here.
    + intros p Hp. apply elem_of_app. left. exact Hp.
    + intros p Hp. apply not_elem_of_app in Hp as (Hp & Hnew).
      apply not_elem_of_cons in Hnew as (Hnew & _).
      unfold open_w, close. cbn.
      rewrite lookup_insert_ne by congruence.
      rewrite lookup_insert_ne by (intros <-; contradiction). reflexivity.
  - split_and!; [exact Hin|auto|reflexivity].
Qed.

Lemma write_rows_frame rds : forall st,
  path (outfile st) ∈ csv_files st ->
  let st' := foldl (fun st rd => write_row output_dir max_size_mb rd st) st rds in
  path (outfile st') ∈ csv_files st'
  /\ (forall p, p ∈ csv_files st -> p ∈ csv_files st')
  /\ (forall p, p ∉ csv_files st' -> fs st' !! p = fs st !! p).
Proof.
  induction rds as [|rd rds IH]; intros st Hin; cbn [foldl]; cbv zeta.
  - split_and!; [exact Hin|auto|reflexivity].
  - destruct (write_row_frame rd st Hin) as (H1 & H2 & H3).
    destruct (IH _ H1) as (H4 & H5 & H6). cbv zeta in *.
    split_and!; [exact H4|auto|].
    intros p Hp. rewrite H6 by exact Hp. apply H3. intros Hp'. apply Hp, H5, Hp'.
Qed.

Lemma process_row_frame row st :
  path (outfile st) ∈ csv_files st ->
  let st' := fst (process_row COUNTRY_NAMES output_dir max_size_mb row st) in
  path (outfile st') ∈ csv_files st'
  /\ (forall p, p ∈ csv_files st -> p ∈ csv_files st')
  /\ (forall p, p ∉ csv_files st' -> fs st' !! p = fs st !! p).
Proof.
  intros Hin. unfold process_row. cbv zeta.
  destruct (ip_range_to_cidrs _ _) as [[|cidr cidrs]|e]; cbn [fst];
    try (split_and!; [exact Hin|auto|reflexivity]).
  destruct (row_values _ _) as [v|e]; cbn [fst];
    try (split_and!; [exact Hin|auto|reflexivity]).
  apply (write_rows_frame _ (State _ _ _ _ _ _ _ _)). exact Hin.
Qed.

Lemma process_rows_frame rows : forall st,
  path (outfile st) ∈ csv_files st ->
  let st' := fst (process_rows COUNTRY_NAMES output_dir max_size_mb rows st) in
  path (outfile st') ∈ csv_files st'
  /\ (forall p, p ∈ csv_files st -> p ∈ csv_files st')
  /\ (forall p, p ∉ csv_files st' -> fs st' !! p = fs st !! p).
Proof.
  induction rows as [|row rows IH]; intros st Hin; cbn [process_rows]; cbv zeta.
  - split_and!; [exact Hin|auto|reflexivity].
  - destruct (process_row_frame row st Hin) as (H1 & H2 & H3). cbv zeta in *.
    destruct (process_row _ _ _ row st) as [st1 [e|]]; cbn [fst] in *.
    + split_and!; assumption.
    + destruct (IH _ H1) as (H4 & H5 & H6). cbv zeta in *.
      split_and!; [exact H4|auto|].
      intros p Hp. rewrite H6 by exact Hp. apply H3. intros Hp'. apply Hp, H5, Hp'.
Qed.

Lemma process_csv_frame input fs0 p :
  let '(st, r) := process_csv COUNTRY_NAMES output_dir max_size_mb input fs0 in
  p ∉ csv_files st ->
  p <> single \/ (exists e, r = Raise e /\ loop_exception COUNTRY_NAMES (DictReader input) = Some e) ->
  fs st !! p = fs0 !! p.
Proof.
  unfold process_csv.
  pose proof (process_rows_frame (DictReader input)
                (open_new_file output_dir 1 (State 0 0 0 1 0 [] (Outfile "" []) fs0))) as HF.
  pose proof (process_rows_writing COUNTRY_NAMES output_dir max_size_mb (DictReader input)
                [] [] _ (open_first_file output_dir max_size_mb
                           (State 0 0 0 1 0 [] (Outfile "" []) fs0) eq_refl eq_refl)) as HW.
  destruct (process_rows _ _ _ _ _) as [st1 e1]. cbn [fst] in HF.
  destruct HF as (Hout & Hsub & Hfs); [apply list_elem_of_here|].
  destruct HW as (He1 & _).
  assert (forall p, p ∉ csv_files st1 ->
            close (outfile st1) (fs st1) !! p = fs0 !! p) as Hclosed.
  { intros q Hq. unfold close. rewrite lookup_insert_ne by (intros <-; contradiction).
    rewrite Hfs by exact Hq. unfold open_new_file, open_w. cbn.
    apply lookup_insert_ne. intros <-. apply Hq, Hsub. apply list_elem_of_here. }
  destruct e1 as [e1|].
  - cbn. intros Hp _. apply Hclosed, Hp.
  - destruct (merge_parts _ _) as [records e2].
    assert (p ∉ csv_files st1 -> p <> single ->
            close (Outfile single records)
                  (open_w single (close (outfile st1) (fs st1))) !! p = fs0 !! p) as Hm.
    { intros Hp Hne. rewrite lookup_merged_ne by congruence. apply Hclosed, Hp. }
    destruct e2 as [e2|]; cbn; intros Hp [Hne|(e & _ & Hl)]; try congruence; auto.
Qed.

(** X6.  [process_csv] writes to its part files and to
    [dbip-full.csv] only: whether it returns or raises, every other file
    is as it was. *)
Theorem process_csv_writes_only_its_outputs (input : list (list string))
        (fs0 : filesystem) (p : string) :
  let st := fst (process_csv COUNTRY_NAMES output_dir max_size_mb input fs0) in
  p ∉ csv_files st -> p <> single_csv_path output_dir -> fs st !! p = fs0 !! p.
Proof.
  pose proof (process_csv_frame input fs0 p) as H.
  destruct (process_csv _ _ _ _ _) as [st r]. cbn [fst].
  intros Hp Hne. apply H; auto.
Qed.


End RunsOfProcessCsv.

Section OutcomesOfProcessCsv.
Import ipaddress ConvertIpData PipelineSpec PipelineRunSpec.

Variable COUNTRY_NAMES : gmap string string.
Variable output_dir : string.
Variable max_size_mb : Z.

Local Abbreviation part := (get_csv_path output_dir).
Local Abbreviation single := (single_csv_path output_dir).







Lemma process_rows_row_count rows : forall closed cur st,
  writing output_dir max_size_mb closed cur st ->
  loop_exception COUNTRY_NAMES rows = None ->
  row_count (fst (process_rows COUNTRY_NAMES output_dir max_size_mb rows st))
  = row_count st + Z.of_nat (length rows).
Proof.
  induction rows as [|row rows IH]; intros closed cur st Hw He; cbn [process_rows length].
  - cbn. lia.
  - cbn [loop_exception] in He.
    pose proof (process_row_writing COUNTRY_NAMES output_dir max_size_mb row closed cur st Hw)
      as H.
    destruct (process_row _ _ _ row st) as [st1 e1].
    destruct H as (He1 & Hrc & _ & _ & closed' & cur' & Hw' & _).
    destruct (record_rows COUNTRY_NAMES row) as [rs [e|]]; [discriminate|].
    cbn [snd] in He1. subst e1.
    rewrite (IH _ _ _ Hw' He), Hrc. lia.
Qed.

Lemma discarded_rows_count rows :
  loop_exception COUNTRY_NAMES rows = None ->
  discarded_rows COUNTRY_NAMES rows = Z.of_nat (length (List.filter discarded rows)).
Proof.
  induction rows as [|row rows IH]; cbn [loop_exception discarded_rows List.filter];
    [reflexivity|].
  unfold discarded at 1. unfold record_rows.
  destruct (ip_range_to_cidrs _ _) as [[|cidr cidrs]|e].
  - intros He. rewrite (IH He). cbn [length]. lia.
  - destruct (row_values _ _); [|discriminate]. exact IH.
  - discriminate.
Qed.

(** X7.  When [process_csv] returns, [row_count] is the
    number of input rows read (blank records are not rows),
    [error_count] is the number of rows for which [ip_range_to_cidrs]
    gave no block, and [output_count] is the number of data records of
    the merged file. *)
Theorem process_csv_counters (input : list (list string)) (fs0 : filesystem)
        (st : state) (s : summary) :
  process_csv COUNTRY_NAMES output_dir max_size_mb input fs0 = (st, Ok s) ->
  row_count st = Z.of_nat (length (DictReader input))
  /\ error_count st = Z.of_nat (length (List.filter discarded (DictReader input)))
  /\ exists data, fs st !! merged s = Some (header :: data)
                  /\ output_count st = Z.of_nat (length data).
Proof.
  intros Hrun.
  pose proof (process_csv_partitions COUNTRY_NAMES output_dir max_size_mb input fs0) as HP.
  rewrite Hrun in HP.
  destruct HP as (Ps & _ & _ & _ & _ & _ & _ & Hcat & _ & Herr & Hout & Hr).
  destruct (loop_exception COUNTRY_NAMES (DictReader input)) as [e|] eqn:He;
    [discriminate|].
  destruct Hr as ([= ->] & Hm). split_and!.
  - unfold process_csv in Hrun.
    pose proof (process_rows_row_count (DictReader input) [] [] _
                  (open_first_file output_dir max_size_mb
                     (State 0 0 0 1 0 [] (Outfile "" []) fs0) eq_refl eq_refl) He) as Hrc.
    destruct (process_rows _ _ _ _ _) as [st1 e1]. cbn [fst] in Hrc.
    destruct e1 as [e1|]; [discriminate|].
    destruct (merge_parts _ _) as [records [e2|]]; [discriminate|].
    injection Hrun as <-. cbn [row_count]. rewrite Hrc. cbn. lia.
  - rewrite Herr. apply discarded_rows_count, He.
  - exists (concat Ps). split; [exact Hm|].
    rewrite Hout, Hcat, length_map. reflexivity.
Qed.








End OutcomesOfProcessCsv.

Section RunScenarios.
Import ipaddress ConvertIpData PipelineSpec PipelineRunSpec.

Lemma process_csv_writes_only_its_outputs_witness :
  let COUNTRY_NAMES : gmap string string := {["US" := "United States"]} in
  let input := [["1.0.0.0"; "1.0.0.255"; "NA"; "US"; "California"; "Los Angeles"]] in
  let fs0 : filesystem := {["out/README.csv" := [["kept"]]]} in
  fs (fst (process_csv COUNTRY_NAMES "out" 90 input fs0)) !! "out/README.csv"
  = Some [["kept"]].
Proof.
  cbv zeta.
  rewrite (process_csv_writes_only_its_outputs {["US" := "United States"]} "out" 90
             [["1.0.0.0"; "1.0.0.255"; "NA"; "US"; "California"; "Los Angeles"]]
             {["out/README.csv" := [["kept"]]]} "out/README.csv").
  - vm_compute. reflexivity.
  - apply (bool_decide_unpack _). vm_compute. exact I.
  - apply (bool_decide_unpack _). vm_compute. exact I.
Defined.



Lemma process_csv_counters_witness :
  let COUNTRY_NAMES : gmap string string := {["US" := "United States"]} in
  let input := [["1.0.0.5"; "1.0.0.9"; "NA"; "US"; ""; ""];
                [];
                ["1.0.0.9"; "1.0.0.5"; "NA"; "US"; ""; ""]] in
  let st := fst (process_csv COUNTRY_NAMES "out" 90 input ∅) in
  row_count st = 2 /\ error_count st = 1 /\ output_count st = 3.
Proof.
  cbv zeta.
  destruct (process_csv_counters {["US" := "United States"]} "out" 90
              [["1.0.0.5"; "1.0.0.9"; "NA"; "US"; ""; ""];
               [];
               ["1.0.0.9"; "1.0.0.5"; "NA"; "US"; ""; ""]] ∅
              (fst (process_csv {["US" := "United States"]} "out" 90
                      [["1.0.0.5"; "1.0.0.9"; "NA"; "US"; ""; ""];
                       [];
                       ["1.0.0.9"; "1.0.0.5"; "NA"; "US"; ""; ""]] ∅))
              (Summary ["out/part1.csv"] "out/dbip-full.csv"))
    as (Hrow & Herr & data & Hdata & Hout).
  - vm_compute. reflexivity.
  - split_and!; vm_compute; reflexivity.
Defined.



End RunScenarios.

Section CountryTable.
Import ConvertIpData CountryNames.














Lemma restval_lookup keys : forall (d : gmap string (option string)) key v,
  foldl (fun d key => <[key := None]> d) d keys !! key = Some (Some v) ->
  d !! key = Some (Some v).
Proof.
  induction keys as [|k keys IH]; intros d key v H; [exact H|].
  cbn [foldl] in H. apply IH in H.
  destruct (decide (k = key)) as [->|Hne].
  - rewrite lookup_insert_eq in H. discriminate.
  - rewrite lookup_insert_ne in H by exact Hne. exact H.
Qed.

Lemma zip_lookup (kvs : list (string * string)) : forall (d : gmap string (option string)) key,
  key ∉ map fst kvs ->
  foldl (fun d kv => <[fst kv := Some (snd kv)]> d) d kvs !! key = d !! key.
Proof.
  induction kvs as [|[k v] kvs IH]; intros d key H; [reflexivity|].
  cbn [foldl map fst] in *. apply not_elem_of_cons in H as (Hne & H).
  rewrite IH by exact H. cbn. apply lookup_insert_ne. congruence.
Qed.

(** A key that is not a field name has no value in the dictionary of a
    row. *)
Lemma row_get_absent fieldnames row key :
  key ∉ fieldnames -> row_get (row_dict fieldnames row) key = None.
Proof.
  intros H. unfold row_get, row_dict. cbv zeta.
  destruct (foldl _ _ (drop _ _) !! key) as [[v|]|] eqn:E; try reflexivity.
  apply restval_lookup in E. rewrite zip_lookup in E.
  - rewrite lookup_empty in E. discriminate.
  - intros Hin. apply H. apply list_elem_of_fmap in Hin as ([k v'] & -> & Hin).
    apply elem_of_zip_l in Hin. exact Hin.
Qed.


(** X13.  A file whose first record does not name both a
    [Code] and a [Name] column gives the empty table, whatever its other
    records are. *)
Theorem load_country_names_needs_both_columns (fieldnames : list string)
        (rows : list (list string)) :
  "Code" ∉ fieldnames \/ "Name" ∉ fieldnames ->
  load_country_names (fieldnames :: rows) = ∅.
Proof.
  intros H. cbn [load_country_names].
  generalize (filter (fun r => r ≠ []) rows). intros l.
  induction l as [|r l IH]; [reflexivity|]. cbn [foldl].
  replace (add_country fieldnames ∅ r) with (∅ : gmap string string); [exact IH|].
  unfold add_country. cbv zeta.
  destruct H as [H|H]; rewrite (row_get_absent _ r _ H); cbn; [reflexivity|].
  rewrite andb_false_r. reflexivity.
Qed.



End CountryTable.

Section CountryTableScenarios.
Import ConvertIpData CountryNames.


Lemma load_country_names_needs_both_columns_witness :
  load_country_names [["CountryName"; "CountryCode"]; ["United States"; "US"]] = ∅.
Proof.
  apply load_country_names_needs_both_columns.
  left. apply (bool_decide_unpack _). vm_compute. exact I.
Defined.



End CountryTableScenarios.

Section RunsOfConvertIps.
Import Json ipaddress ConvertIps ConvertIpsSpec ConvertIpsRunSpec.



Lemma parse_ip_ranges_step entries : forall ranges,
  foldl (fun ranges entry =>
           match entry with
           | JStr _ => ranges ++ [entry]
           | JDict d =>
               let ranges :=
                 match dict_get "ipv4Prefix" d with
                 | Some v => ranges ++ [v]
                 | None => ranges
                 end in
               match dict_get "ipv6Prefix" d with
               | Some v => ranges ++ [v]
               | None => ranges
               end
           | _ => ranges
           end) ranges entries
  = ranges ++ concat (map entry_ranges entries).
Proof.
  induction entries as [|entry entries IH]; intros ranges; cbn [foldl map concat].
  - rewrite app_nil_r. reflexivity.
  - rewrite IH. rewrite app_assoc. f_equal.
    destruct entry as [ |b|n|f|s|l|d]; cbn [entry_ranges]; rewrite ?app_nil_r; try reflexivity.
    cbv zeta.
    destruct (dict_get "ipv4Prefix" d), (dict_get "ipv6Prefix" d); cbn;
      rewrite ?app_nil_r, <- ?app_assoc; reflexivity.
Qed.

(** X18.  For an object whose [prefixes] is a list,
    [parse_ip_ranges] returns, in the order of the list, every entry that
    is a string and, for every entry that is an object, its [ipv4Prefix]
    and then its [ipv6Prefix] where present; other entries give nothing.
    An object without [prefixes] gives no ranges. *)
Theorem parse_ip_ranges_in_order (d : list (string * json)) :
  (forall entries, dict_get "prefixes" d = Some (JList entries) ->
     parse_ip_ranges (JDict d) = Ok (concat (map entry_ranges entries)))
  /\ (dict_get "prefixes" d = None -> parse_ip_ranges (JDict d) = Ok []).
Proof.
  unfold parse_ip_ranges. cbn. split.
  - intros entries ->. cbn. rewrite parse_ip_ranges_step. reflexivity.
  - intros ->. reflexivity.
Qed.






Lemma convert_file_acc bot_map acc1 acc2 file :
  convert_file bot_map (Ok (acc1 ++ acc2)) file
  = (rows ← convert_file bot_map (Ok acc2) file; Ok (acc1 ++ rows)).
Proof.
  destruct file as [filename loaded]. unfold convert_file. cbn.
  destruct (bot_map !! filename) as [name|]; [|reflexivity].
  destruct (String.eqb name ""); [reflexivity|].
  destruct loaded as [data|e]; [|reflexivity].
  destruct (parse_ip_ranges data) as [ranges|e]; [|reflexivity]. cbn.
  destruct (valid_ranges_of ranges) as [vs|e]; [|reflexivity]. cbn.
  rewrite app_assoc. reflexivity.
Qed.

Lemma convert_files_acc bot_map files : forall acc1 acc2,
  foldl (convert_file bot_map) (Ok (acc1 ++ acc2)) files
  = (rows ← foldl (convert_file bot_map) (Ok acc2) files; Ok (acc1 ++ rows)).
Proof.
  induction files as [|file files IH]; intros acc1 acc2; cbn [foldl]; [reflexivity|].
  rewrite convert_file_acc.
  destruct (convert_file bot_map (Ok acc2) file) as [rows|e]; cbn.
  - apply IH.
  - rewrite !foldl_Raise by reflexivity. reflexivity.
Qed.

(** X22.  The rows collected from a list of files are the
    rows collected from a first part of the list followed by the rows
    collected from the rest: every file adds its rows after those of the
    files before it, and what it adds does not depend on them. *)
Theorem collect_rows_app (bots : json) (files1 files2 : list (string * result json))
        (rows1 rows2 : list row) :
  collect_rows bots files1 = Ok rows1 ->
  collect_rows bots files2 = Ok rows2 ->
  collect_rows bots (files1 ++ files2) = Ok (rows1 ++ rows2).
Proof.
  unfold collect_rows. intros H1 H2.
  destruct (make_bot_map bots) as [bot_map|e]; [|discriminate]. cbn in *.
  rewrite foldl_app, H1.
  rewrite <- (app_nil_r rows1) at 1. rewrite convert_files_acc, H2. reflexivity.
Qed.

(** X21.  A file whose name is not the file name of a bot of
    the configuration, and a file that fails to load, change nothing:
    the run gives what it gives without that file. *)
Theorem main_skips_unmapped_and_unreadable_files (bots : json) (bot_map : gmap string string)
        (before after : list (string * result json)) (filename : string)
        (loaded : result json) :
  make_bot_map bots = Ok bot_map ->
  bot_map !! filename = None \/ (exists e, loaded = Raise e) ->
  main bots (before ++ (filename, loaded) :: after) = main bots (before ++ after).
Proof.
  intros Hm H. unfold main, collect_rows. rewrite Hm. cbn.
  rewrite !foldl_app. cbn [foldl].
  destruct (foldl (convert_file bot_map) (Ok []) before) as [rows|e]; [|reflexivity].
  destruct H as [H|(e & ->)].
  - rewrite (convert_file_unmapped _ _ _ _ H). reflexivity.
  - rewrite convert_file_load_error. reflexivity.
Qed.

(** X20.  Only the loading of a file is guarded: a file of a
    configured bot that loads to JSON that is not an object (an array,
    say) ends [main] with [AttributeError], and no CSV file is
    written. *)
Theorem main_aborts_on_a_file_that_is_not_an_object (bots : json)
        (bot_map : gmap string string) (before after : list (string * result json))
        (rows : list row) (filename bot_name : string) (data : json) :
  make_bot_map bots = Ok bot_map ->
  foldl (convert_file bot_map) (Ok []) before = Ok rows ->
  bot_map !! filename = Some bot_name -> bot_name <> "" ->
  (forall d, data <> JDict d) ->
  main bots (before ++ (filename, Ok data) :: after) = Raise AttributeError.
Proof.
  intros Hm Hb Hf Hne Hd. unfold main, collect_rows. rewrite Hm. cbn.
  rewrite foldl_app, Hb. cbn [foldl].
  assert (convert_file bot_map (Ok rows) (filename, Ok data) = Raise AttributeError) as ->.
  { unfold convert_file. cbn. rewrite Hf. apply String.eqb_neq in Hne. rewrite Hne.
    destruct data as [ |b|n|f|s|l|d]; try reflexivity. destruct (Hd d eq_refl). }
  rewrite foldl_Raise by reflexivity. reflexivity.
Qed.




End RunsOfConvertIps.

Section ConvertIpsScenarios.
Import Json ipaddress ConvertIps ConvertIpsSpec ConvertIpsRunSpec.


Lemma collect_rows_app_witness :
  let bots := JList [JDict [("name", JStr "GPTBot"); ("ip_ranges_url", JStr "u")];
                     JDict [("name", JStr "Perplexity Bot"); ("ip_ranges_url", JStr "v")]] in
  let gptbot := ("gptbot.json",
                 Ok (JDict [("prefixes", JList [JDict [("ipv4Prefix", JStr "52.230.152.0/24")]])])) in
  let perplexity := ("perplexity-bot.json",
                     Ok (JDict [("prefixes", JList [JStr "2001:db8::/32"])])) in
  collect_rows bots [gptbot; perplexity]
  = Ok [Row (JStr "52.230.152.0/24") "GPTBot"; Row (JStr "2001:db8::/32") "Perplexity Bot"].
Proof.
  cbv zeta.
  apply (collect_rows_app _ [_] [_] [_] [_]); vm_compute; reflexivity.
Defined.

Lemma main_skips_unmapped_and_unreadable_files_witness :
  let bots := JList [JDict [("name", JStr "GPTBot"); ("ip_ranges_url", JStr "u")]] in
  let gptbot := ("gptbot.json",
                 Ok (JDict [("prefixes", JList [JStr "52.230.152.0/24"])])) in
  main bots [("unknown.json", Ok (JList [])); gptbot] = main bots [gptbot].
Proof.
  cbv zeta.
  apply (main_skips_unmapped_and_unreadable_files
           (JList [JDict [("name", JStr "GPTBot"); ("ip_ranges_url", JStr "u")]])
           {["gptbot.json" := "GPTBot"]} [] _ "unknown.json" (Ok (JList []))).
  - vm_compute. reflexivity.
  - left. vm_compute. reflexivity.
Defined.

Lemma main_aborts_on_a_file_that_is_not_an_object_witness :
  let bots := JList [JDict [("name", JStr "GPTBot"); ("ip_ranges_url", JStr "u")]] in
  main bots [("gptbot.json", Ok (JList [JStr "52.230.152.0/24"]))] = Raise AttributeError.
Proof.
  cbv zeta.
  apply (main_aborts_on_a_file_that_is_not_an_object
           (JList [JDict [("name", JStr "GPTBot"); ("ip_ranges_url", JStr "u")]])
           {["gptbot.json" := "GPTBot"]} [] [] [] "gptbot.json" "GPTBot"
           (JList [JStr "52.230.152.0/24"])).
  - vm_compute. reflexivity.
  - reflexivity.
  - vm_compute. reflexivity.
  - discriminate.
  - discriminate.
Defined.



End ConvertIpsScenarios.

Section TextsOfIPv4Networks.
Import Json ipaddress IpSpec ConvertIpData ConvertIps.

Lemma lor_shiftl_8 a b : 0 <= a -> 0 <= b < 256 -> Z.lor (Z.shiftl a 8) b = a * 256 + b.
Proof.
  intros Ha Hb. rewrite Z.shiftl_mul_pow2 by lia. change (2 ^ 8) with 256.
  rewrite <- Z.lxor_lor, <- Z.add_nocarry_lxor; try reflexivity.
  all: apply Z.bits_inj'; intros i Hi; rewrite Z.land_spec, Z.bits_0;
    destruct (Z.lt_ge_cases i 8).
  1,3: replace (a * 256) with (a * 2 ^ 8) by reflexivity;
       rewrite Z.mul_pow2_bits_low by lia; reflexivity.
  all: replace (Z.testbit b i) with false; [apply andb_false_r|];
       symmetry; apply Z.bits_above_log2; [lia|];
       destruct (Z.eq_dec b 0) as [->|]; [cbn; lia|];
       apply Z.log2_lt_pow2; [lia|]; apply Z.lt_le_trans with (2 ^ 8); [cbn; lia|];
       apply Z.pow_le_mono_r; lia.
Qed.

(** [int.from_bytes(n.to_bytes(4, 'big'), 'big') == n] *)
Lemma from_bytes_to_bytes_4 n :
  0 <= n < 2 ^ 32 -> from_bytes_big (to_bytes_big 4 n) = n.
Proof.
  intros Hn. unfold from_bytes_big, to_bytes_big. cbn [foldl].
  change (Z.land ?x 255) with (Z.land x (Z.ones 8)).
  rewrite !Z.land_ones, !Z.shiftr_div_pow2 by lia.
  change (8 * Z.of_nat 3) with 24. change (8 * Z.of_nat 2) with 16.
  change (8 * Z.of_nat 1) with 8. change (8 * Z.of_nat 0) with 0.
  change (2 ^ 8) with 256. change (2 ^ 0) with 1. rewrite Z.div_1_r.
  change (2 ^ 16) with (256 * 256). change (2 ^ 24) with (256 * (256 * 256)).
  rewrite <- !Z.div_div by lia.
  set (q1 := n / 256). set (q2 := q1 / 256). set (q3 := q2 / 256).
  pose proof (Z.div_mod n 256 ltac:(lia)) as E0. fold q1 in E0.
  pose proof (Z.div_mod q1 256 ltac:(lia)) as E1. fold q2 in E1.
  pose proof (Z.div_mod q2 256 ltac:(lia)) as E2. fold q3 in E2.
  pose proof (Z.mod_pos_bound n 256 ltac:(lia)).
  pose proof (Z.mod_pos_bound q1 256 ltac:(lia)).
  pose proof (Z.mod_pos_bound q2 256 ltac:(lia)).
  assert (0 <= q1) by (apply Z.div_pos; lia).
  assert (0 <= q2) by (apply Z.div_pos; lia).
  assert (0 <= q3 < 256).
  { split; [apply Z.div_pos; lia|]. change (2 ^ 32) with 4294967296 in Hn. lia. }
  rewrite (Z.mod_small q3 256) by lia.
  change (Z.shiftl 0 8) with 0. rewrite Z.lor_0_l.
  rewrite (lor_shiftl_8 q3) by lia.
  rewrite (lor_shiftl_8 (q3 * 256 + q2 mod 256)) by lia.
  rewrite (lor_shiftl_8 ((q3 * 256 + q2 mod 256) * 256 + q1 mod 256)) by lia.
  lia.
Qed.

Lemma to_bytes_4_range n :
  0 <= n -> Forall (fun b => 0 <= b <= 255) (to_bytes_big 4 n).
Proof.
  intros Hn. unfold to_bytes_big.
  repeat constructor;
    change (Z.land ?x 255) with (Z.land x (Z.ones 8));
    rewrite Z.land_ones by lia;
    pose proof (Z.mod_pos_bound (Z.shiftr n (8 * Z.of_nat 3)) (2 ^ 8) ltac:(lia));
    pose proof (Z.mod_pos_bound (Z.shiftr n (8 * Z.of_nat 2)) (2 ^ 8) ltac:(lia));
    pose proof (Z.mod_pos_bound (Z.shiftr n (8 * Z.of_nat 1)) (2 ^ 8) ltac:(lia));
    pose proof (Z.mod_pos_bound (Z.shiftr n (8 * Z.of_nat 0)) (2 ^ 8) ltac:(lia));
    change (2 ^ 8) with 256 in *; lia.
Qed.

(** The decimal text of an octet is read back by [_parse_octet], and the
    decimal text of a number up to 128 by [_prefix_from_prefix_string];
    neither has a ['.'] or a ['/']. *)
Lemma octet_text b :
  0 <= b <= 255 ->
  _parse_octet (str_int b) = Ok b
  /\ contains_char "." (str_int b) = false
  /\ contains_char "/" (str_int b) = false.
Proof.
  intros Hb.
  assert (forallb (fun b => match _parse_octet (str_int b) with
                            | Ok b' => (b' =? b)
                                       && negb (contains_char "." (str_int b))
                                       && negb (contains_char "/" (str_int b))
                            | Raise _ => false
                            end) (seqZ 0 256) = true) as H by (vm_compute; reflexivity).
  rewrite forallb_forall in H.
  assert (In b (seqZ 0 256)) as Hin by (apply list_elem_of_In, elem_of_seqZ; lia).
  specialize (H b Hin).
  destruct (_parse_octet (str_int b)) as [b'|e]; [|discriminate].
  apply andb_prop in H as [H1 H2]. apply andb_prop in H1 as [H0 H1].
  apply Z.eqb_eq in H0 as ->. apply negb_true_iff in H1, H2. auto.
Qed.

Lemma prefix_text ip p :
  0 <= p <= _max_prefixlen ip ->
  _prefix_from_prefix_string ip (str_int p) = Ok p
  /\ contains_char "/" (str_int p) = false.
Proof.
  intros Hp.
  assert (forall ip, forallb (fun p => match _prefix_from_prefix_string ip (str_int p) with
                            | Ok p' => (p' =? p) && negb (contains_char "/" (str_int p))
                            | Raise _ => false
                            end) (seqZ 0 (_max_prefixlen ip + 1)) = true) as H
    by (intros []; vm_compute; reflexivity).
  specialize (H ip). rewrite forallb_forall in H.
  assert (In p (seqZ 0 (_max_prefixlen ip + 1))) as Hin
    by (apply list_elem_of_In, elem_of_seqZ; lia).
  specialize (H p Hin).
  destruct (_prefix_from_prefix_string ip (str_int p)) as [p'|e]; [|discriminate].
  apply andb_prop in H as [H0 H1].
  apply Z.eqb_eq in H0 as ->. apply negb_true_iff in H1. auto.
Qed.

Lemma split_no_sep sep s : contains_char sep s = false -> split sep s = [s].
Proof.
  induction s as [|c s IH]; cbn; [reflexivity|].
  intros H. apply orb_false_elim in H as (Hc & Hs). rewrite Hc, (IH Hs). reflexivity.
Qed.

Lemma split_append_sep sep a b :
  contains_char sep a = false ->
  split sep (a +:+ String sep b) = a :: split sep b.
Proof.
  induction a as [|c a IH]; intros H.
  - rewrite append_nil. cbn. rewrite Ascii.eqb_refl. reflexivity.
  - cbn in H. apply orb_false_elim in H as (Hc & Ha).
    rewrite append_cons. cbn [split]. rewrite Hc, (IH Ha). reflexivity.
Qed.

(** The dotted text of an IPv4 address is read back as the address. *)
Lemma v4_text n :
  0 <= n < 2 ^ 32 ->
  v4_ip_int_from_string (v4_string_from_ip_int n) = Ok n
  /\ contains_char "/" (v4_string_from_ip_int n) = false.
Proof.
  intros Hn. pose proof (from_bytes_to_bytes_4 n Hn) as Hbytes.
  pose proof (to_bytes_4_range n (proj1 Hn)) as Hrange.
  unfold v4_string_from_ip_int, v4_ip_int_from_string.
  destruct (to_bytes_big 4 n) as [|b3 [|b2 [|b1 [|b0 [|? ?]]]]] eqn:E; try discriminate.
  apply Forall_cons in Hrange as (H3 & Hrange). apply Forall_cons in Hrange as (H2 & Hrange).
  apply Forall_cons in Hrange as (H1 & Hrange). apply Forall_cons in Hrange as (H0 & _).
  destruct (octet_text b3 H3) as (P3 & D3 & S3). destruct (octet_text b2 H2) as (P2 & D2 & S2).
  destruct (octet_text b1 H1) as (P1 & D1 & S1). destruct (octet_text b0 H0) as (P0 & D0 & S0).
  cbn [map join].
  rewrite !(append_cons "." ""), !append_nil.
  split.
  - assert (String.eqb (str_int b3 +:+ String "." (str_int b2 +:+ String "."
              (str_int b1 +:+ String "." (str_int b0)))) "" = false) as ->.
    { apply String.eqb_neq. intros Hnil. apply (f_equal String.length) in Hnil.
      rewrite append_length in Hnil. cbn in Hnil. lia. }
    rewrite !split_append_sep by assumption. rewrite (split_no_sep _ _ D0).
    cbn [len_list length Z.of_nat]. cbn [negb Z.eqb Pos.eqb Pos.of_succ_nat Pos.succ].
    cbn [mapM]. rewrite P3, P2, P1, P0. cbn. f_equal. exact Hbytes.
  - repeat (rewrite contains_char_append; cbn [contains_char];
            change (Ascii.eqb "." "/") with false; cbn [orb]).
    rewrite S3, S2, S1, S0. reflexivity.
Qed.

(** [IPv4Network] on the text of an address, a ['/'] and the text of a
    prefix length: the network when the address has no host bit set,
    [ValueError] otherwise. *)
Lemma IPv4Network_text base p :
  0 <= base < 2 ^ 32 -> 0 <= p <= 32 ->
  Network__init__ V4 (NStr (v4_string_from_ip_int base +:+ "/" +:+ str_int p))
  = if base mod 2 ^ (32 - p) =? 0 then Ok (Network (IPv4Address base) p)
    else Raise ValueError.
Proof.
  intros Hb Hp. destruct (v4_text base Hb) as (Hparse & Hslash).
  destruct (prefix_text V4 p Hp) as (Hprefix & Hpslash).
  set (a := v4_string_from_ip_int base) in *. clearbody a.
  set (ps := str_int p) in *. clearbody ps.
  unfold Network__init__, _split_addr_prefix, _split_optional_netmask. cbv zeta.
  rewrite (append_cons "/" ""), append_nil.
  rewrite (split_append_sep _ _ _ Hslash), (split_no_sep _ _ Hpslash).
  change (2 <? len_list [a; ps]) with false. cbn.
  change (1 <? len_list [a; ps]) with true. cbn.
  change ([a; ps] !! Z.to_nat 0) with (Some a).
  change ([a; ps] !! Z.to_nat 1) with (Some ps). cbn.
  rewrite Hslash, Hparse. cbn. rewrite Hprefix. cbn.
  assert (0 <= _ip_int_from_prefix V4 p <= _ALL_ONES V4) as Hmask.
  { rewrite ip_int_from_prefix_value by exact Hp. unfold _ALL_ONES.
    change (_max_prefixlen V4) with 32.
    assert (0 < 2 ^ (32 - p) <= 2 ^ 32).
    { split; [apply Z.pow_pos_nonneg; lia|apply Z.pow_le_mono_r; lia]. }
    lia. }
  destruct (_check_int_address V4 (_ip_int_from_prefix V4 p)) as [[]|e] eqn:Ec.
  2:{ unfold _check_int_address in Ec.
      destruct (Z.ltb_spec (_ip_int_from_prefix V4 p) 0); [lia|].
      destruct (Z.ltb_spec (_ALL_ONES V4) (_ip_int_from_prefix V4 p)); [lia|discriminate]. }
  cbn. rewrite (land_netmask V4 p base Hp)
    by (unfold _ALL_ONES; change (_max_prefixlen V4) with 32; lia).
  change (_max_prefixlen V4) with 32.
  destruct (Z.eqb_spec (base mod 2 ^ (32 - p)) 0) as [E|E].
  - rewrite E, Z.sub_0_r, Z.eqb_refl. reflexivity.
  - destruct (Z.eqb_spec (base - base mod 2 ^ (32 - p)) base); [lia|reflexivity].
Qed.

Lemma ip_network_ipv4_text base p :
  0 <= base < 2 ^ 32 -> 0 <= p <= 32 ->
  ip_network (NStr (v4_string_from_ip_int base +:+ "/" +:+ str_int p))
  = if base mod 2 ^ (32 - p) =? 0 then Ok (Network (IPv4Address base) p)
    else Raise ValueError.
Proof.
  intros Hb Hp. unfold ip_network. rewrite (IPv4Network_text base p Hb Hp).
  destruct (base mod 2 ^ (32 - p) =? 0); reflexivity.
Qed.

Lemma validate_cidr_ipv4 base p :
  0 <= base < 2 ^ 32 -> 0 <= p <= 32 ->
  validate_cidr (JStr (v4_string_from_ip_int base +:+ "/" +:+ str_int p))
  = Ok (base mod 2 ^ (32 - p) =? 0).
Proof.
  intros Hb Hp. unfold validate_cidr. cbn [net_arg_of].
  rewrite (ip_network_ipv4_text base p Hb Hp).
  destruct (base mod 2 ^ (32 - p) =? 0); reflexivity.
Qed.

(** X26.  On the text of an IPv4 address, a ['/'] and a
    prefix length from 0 to 32, [validate_cidr] answers whether the
    address has no bit set beyond the prefix: a network with host bits
    set, such as 192.168.1.1/24, is rejected. *)
Theorem validate_cidr_rejects_host_bits (base p : Z) :
  0 <= base < 2 ^ 32 -> 0 <= p <= 32 ->
  validate_cidr (JStr (v4_string_from_ip_int base +:+ "/" +:+ str_int p))
  = Ok (base mod 2 ^ (32 - p) =? 0).
Proof. apply validate_cidr_ipv4. Qed.

(** X25.  Every text that [ip_range_to_cidrs] returns
    for a range of IPv4 addresses is read back by [ip_network] as a
    network whose text it is, and is accepted by [validate_cidr]. *)
Theorem ip_range_to_cidrs_ipv4_texts_parse_back (start_ip end_ip : string) (a b : addr)
        (cidrs : list string) :
  ip_address (AStr start_ip) = Ok a ->
  ip_address (AStr end_ip) = Ok b ->
  class_of a = V4 -> class_of b = V4 ->
  ip_range_to_cidrs (Some start_ip) (Some end_ip) = Ok cidrs ->
  Forall (fun cidr => exists net, ip_network (NStr cidr) = Ok net
                                  /\ network_str net = Ok cidr
                                  /\ validate_cidr (JStr cidr) = Ok true) cidrs.
Proof.
  intros Ha Hb Ca Cb Hc.
  assert (version a = version b) as Hv by (apply version_class; congruence).
  destruct (addr_le_or_gt a b Hv) as [(Hle & _)|(_ & Hgt)].
  2:{ rewrite (ip_range_to_cidrs_reversed (Some start_ip) (Some end_ip) a b Ha Hb Hgt) in Hc.
      injection Hc as <-. constructor. }
  pose proof (ip_address_valid _ _ Ha) as Va.
  pose proof (ip_address_valid _ _ Hb) as Vb.
  destruct (summarize_address_range_tiles a b Va Vb Hle) as (nets & Hs & _ & Ht).
  assert (_ip b + 1 <= _ALL_ONES (class_of a) + 1) as Hhi.
  { rewrite Ca, <- Cb. destruct Vb. lia. }
  destruct (tiles_network_str _ _ _ _ (proj1 Va) Hhi Ht) as (cidrs' & Hm & Hf).
  rewrite (ip_range_to_cidrs_Ok (Some start_ip) (Some end_ip) a b nets cidrs' Ha Hb Hs Hm)
    in Hc.
  injection Hc as <-. apply Forall_lookup. intros i cidr Hi.
  destruct (Forall2_lookup_r _ _ _ _ _ Hf Hi) as (net & Hn & Hstr).
  destruct (tiles_lookup_bounds _ _ _ _ _ _ Ht Hn) as (base & Hna & Hp & Hd & Hlo & Hup).
  rewrite Ca in *. change (_max_prefixlen V4) with 32 in Hp.
  rewrite (network_eta net _ Hna) in Hstr.
  assert (0 <= base < 2 ^ 32) as Hbase.
  { destruct Va as (Va0 & _). pose proof (block_size_pos V4 (prefixlen net) (proj2 Hp)).
    unfold _ALL_ONES in Hhi. change (_max_prefixlen V4) with 32 in Hhi. lia. }
  assert ((base mod 2 ^ (32 - prefixlen net) =? 0) = true) as Hal.
  { apply Z.eqb_eq. apply Z.mod_divide in Hd; [exact Hd|].
    pose proof (block_size_pos V4 (prefixlen net) (proj2 Hp)). unfold block_size in *.
    change (_max_prefixlen V4) with 32 in *. lia. }
  assert (cidr = v4_string_from_ip_int base +:+ "/" +:+ str_int (prefixlen net)) as ->.
  { unfold network_str in Hstr. cbn in Hstr. injection Hstr as <-. reflexivity. }
  exists (Network (addr_of_int V4 base) (prefixlen net)). split_and!.
  - rewrite (ip_network_ipv4_text base _ Hbase Hp), Hal. reflexivity.
  - exact Hstr.
  - rewrite (validate_cidr_ipv4 base _ Hbase Hp), Hal. reflexivity.
Qed.

Lemma Address_init_int_out_of_range ip n :
  n < 0 \/ _ALL_ONES ip < n -> Address__init__ ip (AInt n) = Raise AddressValueError.
Proof.
  intros H.
  assert (_check_int_address ip n = Raise AddressValueError) as Hc.
  { unfold _check_int_address. destruct (Z.ltb_spec n 0); [reflexivity|].
    destruct (Z.ltb_spec (_ALL_ONES ip) n); [reflexivity|lia]. }
  destruct ip; unfold Address__init__, IPv4Address__init__, IPv6Address__init__;
    rewrite Hc; reflexivity.
Qed.

Lemma Network_init_int ip n :
  Network__init__ ip (NInt n)
  = if (0 <=? n) && (n <=? _ALL_ONES ip) then Ok (Network (addr_of_int ip n) (_max_prefixlen ip))
    else Raise AddressValueError.
Proof.
  unfold Network__init__, _split_addr_prefix. cbn [mbind result_bind Py.bind].
  destruct (Z.leb_spec 0 n) as [H0|H0]; cbn [andb].
  2:{ rewrite Address_init_int_out_of_range by lia. reflexivity. }
  destruct (Z.leb_spec n (_ALL_ONES ip)) as [H1|H1].
  2:{ rewrite Address_init_int_out_of_range by lia. reflexivity. }
  rewrite (Address_init_int ip n) by lia.
  assert (_make_netmask ip (AInt (_max_prefixlen ip)) = Ok (_ALL_ONES ip, _max_prefixlen ip))
    as -> by (destruct ip; vm_compute; reflexivity).
  unfold mbind, result_bind, Py.bind. cbv beta iota.
  rewrite ip_addr_of_int, ALL_ONES_ones, Z.land_ones
    by (pose proof (max_prefixlen_pos ip); lia).
  rewrite Z.mod_small, Z.eqb_refl; [reflexivity|].
  rewrite ALL_ONES_ones, Z.ones_equiv in H1. lia.
Qed.

(** X27.  [validate_cidr] accepts a JSON integer exactly
    when it lies between 0 and 2^128 - 1: [ip_network] takes an integer
    for the number of an address, so that a number passes as a
    range. *)
Theorem validate_cidr_accepts_address_numbers (n : Z) :
  validate_cidr (JInt n) = Ok ((0 <=? n) && (n <? 2 ^ 128)).
Proof.
  unfold validate_cidr. cbn [net_arg_of]. unfold ip_network.
  rewrite !Network_init_int.
  destruct (Z.leb_spec 0 n) as [H0|H0]; cbn [andb]; [|reflexivity].
  change (_ALL_ONES V4) with 4294967295.
  change (_ALL_ONES V6) with 340282366920938463463374607431768211455.
  change (2 ^ 128) with 340282366920938463463374607431768211456.
  destruct (Z.leb_spec n 4294967295), (Z.leb_spec n 340282366920938463463374607431768211455),
    (Z.ltb_spec n 340282366920938463463374607431768211456); try lia; reflexivity.
Qed.

End TextsOfIPv4Networks.

Section NetworkTextScenarios.
Import Json ipaddress IpSpec ConvertIpData ConvertIps.

Lemma validate_cidr_rejects_host_bits_witness :
  validate_cidr (JStr "192.168.1.1/24") = Ok false
  /\ validate_cidr (JStr "192.168.1.0/24") = Ok true.
Proof.
  split.
  - exact (validate_cidr_rejects_host_bits 3232235777 24
             ltac:(vm_compute; split; [discriminate|reflexivity])
             ltac:(vm_compute; split; discriminate)).
  - exact (validate_cidr_rejects_host_bits 3232235776 24
             ltac:(vm_compute; split; [discriminate|reflexivity])
             ltac:(vm_compute; split; discriminate)).
Defined.

Lemma ip_range_to_cidrs_ipv4_texts_parse_back_witness :
  ip_range_to_cidrs (Some "1.0.0.5") (Some "1.0.0.9")
  = Ok ["1.0.0.5/32"; "1.0.0.6/31"; "1.0.0.8/31"]
  /\ Forall (fun cidr => exists net, ip_network (NStr cidr) = Ok net
                                     /\ network_str net = Ok cidr
                                     /\ validate_cidr (JStr cidr) = Ok true)
            ["1.0.0.5/32"; "1.0.0.6/31"; "1.0.0.8/31"].
Proof.
  split; [vm_compute; reflexivity|].
  apply (ip_range_to_cidrs_ipv4_texts_parse_back "1.0.0.5" "1.0.0.9"
           (IPv4Address 16777221) (IPv4Address 16777225));
    vm_compute; reflexivity.
Defined.

End NetworkTextScenarios.

Section KeysOfResetDocuments.
Import Json ResetAddToc ResetSpec ResetRunSpec.

Lemma dict_set_keys key value d :
  map fst (dict_set key value d)
  = map fst d ++ match dict_get key d with Some _ => [] | None => [key] end.
Proof.
  induction d as [|[k v] d IH]; cbn; [reflexivity|].
  destruct (String.eqb_spec k key) as [->|Hne]; cbn.
  - rewrite app_nil_r. reflexivity.
  - rewrite IH. reflexivity.
Qed.

(** X28.  A document that the script rewrites keeps its
    keys in their order; the key [last_pipeline] is added at the end when
    the document did not have it. *)
Theorem reset_data_keeps_key_order (d d' : list (string * json)) :
  reset_data (JDict d) = Ok (Some (JDict d')) ->
  map fst d'
  = map fst d ++ match dict_get "last_pipeline" d with
                 | Some _ => []
                 | None => ["last_pipeline"]
                 end.
Proof.
  unfold reset_data. cbn. intros H.
  destruct (dict_get "applied_actions" d) as [applied|] eqn:Ea; [|discriminate].
  destruct (contains applied "add_toc") as [[|]|e]; try discriminate. cbn in H.
  destruct (iterate applied) as [items|e]; [|discriminate]. cbn in H.
  injection H as <-.
  rewrite !dict_set_keys, Ea, app_nil_r.
  rewrite dict_get_set_ne by discriminate. reflexivity.
Qed.

End KeysOfResetDocuments.

Section KeysOfResetDocumentsScenario.
Import Json ResetAddToc.

Lemma reset_data_keeps_key_order_witness :
  let d := [("title", JStr "Intro"); ("applied_actions", JList [JStr "add_toc"]);
            ("slug", JStr "intro")] in
  let d' := [("title", JStr "Intro"); ("applied_actions", JList []);
             ("slug", JStr "intro"); ("last_pipeline", JStr "generate")] in
  reset_data (JDict d) = Ok (Some (JDict d'))
  /\ map fst d' = ["title"; "applied_actions"; "slug"; "last_pipeline"].
Proof.
  cbv zeta. split; [vm_compute; reflexivity|].
  exact (reset_data_keeps_key_order
           [("title", JStr "Intro"); ("applied_actions", JList [JStr "add_toc"]);
            ("slug", JStr "intro")]
           [("title", JStr "Intro"); ("applied_actions", JList []);
            ("slug", JStr "intro"); ("last_pipeline", JStr "generate")]
           ltac:(vm_compute; reflexivity)).
Defined.

End KeysOfResetDocumentsScenario.
